(** * Music cog (src/music.py): a shallow embedding and its properties

    The module is a discord.py extension ("cog") whose command handlers
    forward requests to an audio node (through lavalink.py), to a lyrics
    service (lyricsgenius) and to Spotify (spotipy), and format replies.

    Each handler is embedded as a state-passing function over a [World]:
    the player manager (one player per guild id), the three module-level
    globals the handlers share, and the trace of outward calls.  Python
    exceptions are values of [Exn]; mutation is not rolled back when an
    exception is raised.  An [await] is a sequencing point and nothing more:
    a handler is run to completion, interleavings with other coroutines are
    not modelled.  Calls to [print] and [pprint] are left out.

    Everything the source only calls (the player methods of lavalink.py, the
    audio node, the lyrics and Spotify clients) is a field of the interface
    record [Services], over which the handlers are parametric.  The audio
    client of the bot is taken to exist, as the constructors of the cog and
    of the voice client see to; [cog_unload] and [setup] are registration
    only and have no counterpart here. *)

From Stdlib Require Import ZArith Lia List Bool Ascii String DecimalString.
From stdpp Require Import base option list strings gmap.

Local Open Scope Z_scope.

(** ** Python strings

    A [str] is modelled as a [string] whose characters are the code points
    below 256. *)

Module Py.

(** [str.isspace] on one character, which is what [str.split()] breaks on:
    TAB..CR, FS..US, SPACE, NEL and NBSP. *)
Definition isspace (c : ascii) : bool :=
  let n := N_of_ascii c in
  (((9 <=? n) && (n <=? 13)) || ((28 <=? n) && (n <=? 32))
   || (n =? 133) || (n =? 160))%N.

Definition is_empty (s : string) : bool :=
  match s with EmptyString => true | String _ _ => false end.

(** [s.split()]: maximal runs of non-whitespace, no empty words.  [cur] is
    the word being read. *)
Fixpoint split_from (cur s : string) : list string :=
  match s with
  | EmptyString => if is_empty cur then [] else [cur]
  | String c s' =>
      if isspace c
      then (if is_empty cur then split_from "" s' else cur :: split_from "" s')
      else split_from (cur +:+ String c "") s'
  end.

Definition split (s : string) : list string := split_from "" s.

(** [sep.join(ws)] *)
Fixpoint join (sep : string) (ws : list string) : string :=
  match ws with
  | [] => ""
  | [w] => w
  | w :: ws' => w +:+ sep +:+ join sep ws'
  end.

Definition mem_char (c : ascii) (chars : string) : bool :=
  existsb (fun d => if decide (c = d) then true else false)
          (list_ascii_of_string chars).

Fixpoint lstrip (chars s : string) : string :=
  match s with
  | EmptyString => ""
  | String c s' => if mem_char c chars then lstrip chars s' else s
  end.

Fixpoint rstrip (chars s : string) : string :=
  match s with
  | EmptyString => ""
  | String c s' =>
      let r := rstrip chars s' in
      if is_empty r && mem_char c chars then "" else String c r
  end.

(** [s.strip(chars)]: drops, at both ends, every character of the set
    [chars]. *)
Definition strip (chars s : string) : string := rstrip chars (lstrip chars s).

(** [c.lower()] for code points below 256: A..Z and the Latin-1 capitals. *)
Definition lower_char (c : ascii) : ascii :=
  let n := N_of_ascii c in
  if (((65 <=? n) && (n <=? 90))
      || ((192 <=? n) && (n <=? 222) && negb (n =? 215)))%N
  then ascii_of_N (n + 32) else c.

Fixpoint lower (s : string) : string :=
  match s with
  | EmptyString => ""
  | String c s' => String (lower_char c) (lower s')
  end.

(** [s.startswith(p)], with the rest of [s] after [p]. *)
Fixpoint drop_prefix (p s : string) : option string :=
  match p, s with
  | EmptyString, _ => Some s
  | String a p', String b s' => if decide (a = b) then drop_prefix p' s' else None
  | String _ _, EmptyString => None
  end.

(** [str(n)] for an [int]. *)
Definition str_of_Z (n : Z) : string :=
  NilZero.string_of_int (Z.to_int n).

(** [l[i]] on a list: negative indices count from the end, anything out of
    range is an [IndexError] ([None] here). *)
Definition index {A} (l : list A) (i : Z) : option A :=
  let n := Z.of_nat (length l) in
  if 0 <=? i then l !! Z.to_nat i
  else if 0 <=? n + i then l !! Z.to_nat (n + i) else None.

(** [l[start:end]] with step 1: negative bounds count from the end and both
    are clamped to the list. *)
Definition clamp (n i : Z) : Z :=
  if i <? 0 then Z.max 0 (n + i) else Z.min n i.

Definition slice {A} (l : list A) (start stop : Z) : list A :=
  let n := Z.of_nat (length l) in
  let a := clamp n start in
  let b := clamp n stop in
  take (Z.to_nat (b - a)) (drop (Z.to_nat a) l).

(** [enumerate(l, start)] *)
Fixpoint enumerate {A} (l : list A) (start : Z) : list (Z * A) :=
  match l with
  | [] => []
  | x :: l' => (start, x) :: enumerate l' (start + 1)
  end.

End Py.

(** ** Data *)

(** Built-in exceptions (and discord.py's [ClientException]). *)
Inductive PyExn :=
| AttributeError
| IndexError
| NameError
| UnboundLocalError
| TypeError
| ValueError
| ClientException
| ServiceError.

(** What a handler can raise: a Python exception, or discord.py's
    [CommandInvokeError], whose [original] is the reason string that
    [ensure_voice] passes or the exception that the dispatcher wrapped. *)
Inductive Exn :=
| Py (e : PyExn)
| CommandInvokeError (original : string + PyExn).

Coercion Py : PyExn >-> Exn.

Inductive Res (A : Type) :=
| Ok (a : A)
| Raise (e : Exn).
Arguments Ok {A} a.
Arguments Raise {A} e.

(** A JSON-like Python object, for gateway payloads. *)
#[warnings="-register-all"] Inductive PyObj :=
| PyNone
| PyBool (b : bool)
| PyInt (n : Z)
| PyStr (s : string)
| PyList (l : list PyObj)
| PyDict (items : list (string * PyObj)).

Fixpoint dict_get (items : list (string * PyObj)) (k : string) : option PyObj :=
  match items with
  | [] => None
  | (k', v) :: rest => if bool_decide (k = k') then Some v else dict_get rest k
  end.

(** One element of [results['tracks']], as the audio node returns it. *)
Record RawTrack := {
  rt_track : string;
  rt_title : string;
  rt_author : string;
  rt_uri : string;
  rt_length : Z;
  rt_isStream : bool;
}.

(** [lavalink.models.AudioTrack(data, requester, **extra)]. *)
Record AudioTrack := {
  at_data : RawTrack;
  at_requester : Z;
  at_recommended : bool;
}.

Definition at_title (t : AudioTrack) : string := rt_title (at_data t).
Definition at_author (t : AudioTrack) : string := rt_author (at_data t).
Definition at_uri (t : AudioTrack) : string := rt_uri (at_data t).
Definition at_duration (t : AudioTrack) : Z := rt_length (at_data t).
Definition at_stream (t : AudioTrack) : bool := rt_isStream (at_data t).

(** What [player.add(track=...)] is handed: a raw dict or a built track. *)
Inductive TrackArg :=
| Dict (t : RawTrack)
| Built (t : AudioTrack).

(** A non-empty answer of [node.get_tracks]. *)
Record LoadResult := {
  loadType : string;
  tracks : list RawTrack;
  playlistInfo_name : string;
}.

(** The attributes of a lavalink.py player that the cog reads or writes. *)
Record Player := {
  p_channel_id : option Z;
  p_queue : list AudioTrack;
  p_current : option AudioTrack;
  p_paused : bool;
  p_volume : Z;
  p_repeat : bool;
  p_shuffle : bool;
  p_position : Z;
  p_stored : list (string * Z);
}.

Record Song := { song_str : string; song_lyrics : string }.

Record SpTrack := { sp_name : string; sp_artists : list string }.

Inductive Activity :=
| Spotify (title artist : string)
| OtherActivity (name : string).

(** A voice channel, with the bot's permissions in it. *)
Record VoiceChannel := {
  vc_id : Z;
  vc_connect : bool;
  vc_speak : bool;
}.

(** [m_voice] is [member.voice] ([None], or a voice state whose [channel]
    may be [None]). *)
Record Member := {
  m_id : Z;
  m_voice : option (option VoiceChannel);
  m_activities : list Activity;
  m_color : Z;
}.

Record Guild := {
  g_id : Z;
  g_region : string;
  g_me_top_role_colour : Z;
}.

(** The invocation context; [ctx_guild] is [None] in a private channel.
    The author's voice channel, when there is one, is a channel of
    [ctx_guild]. *)
Record Context := {
  ctx_guild : option Guild;
  ctx_author : Member;
  ctx_channel_id : Z;
}.

Inductive Colour :=
| Blurple
| ColourValue (c : Z).

Record Embed := {
  e_title : option string;
  e_description : string;
  e_colour : Colour;
  e_fields : list (string * string);
  e_footer : option string;
}.

(** The emoji literals of the source, by role. *)
Inductive Glyph :=
| GPause | GResume | GSpeaker | GRepeat | GCross | GLive | GSkip | GShuffle
| GKeycap | GZeroWidth.

(** Calls on a player that the cog delegates to lavalink.py. *)
Inductive PlayerCall :=
| CAdd (requester : Z) (track : TrackArg)
| CPlay
| CSetPause (pause : bool)
| CSetVolume (vol : Z)
| CSetRepeat (r : bool)
| CSkip
| CStop
| CStore (key : string) (value : Z).

(** Outward calls, in the order the handlers make them. *)
Inductive Event :=
| Send (content : string)
| SendException (e : PyExn)
| SendEmbed (e : Embed)
| ChannelSendEmbed (e : Embed)
| AddReaction (g : Glyph)
| Typing
| NodeGetTracks (query : string)
| GeniusSearch (query : string)
| WaitForMessage (author : Z)
| OnPlayer (guild : Z) (c : PlayerCall)
| ChangeVoiceState (guild : Z) (channel : option Z) (self_mute self_deaf : bool)
| VoiceUpdateHandler (payload : PyObj)
| Cleanup (guild : Z).

(** The state the handlers share.  [players] is the player manager's table;
    [voice_clients] holds, per guild, the channel of the voice client that
    discord.py registered for it; the three [g_] fields are the module
    globals, [None] while unbound. *)
Record World := {
  players : gmap Z Player;
  voice_clients : gmap Z Z;
  g_spotify : option bool;
  g_lyricstitle : option string;
  g_spotifylyrics : option string;
  trace : list Event;
}.

(** What the cog calls but does not define. *)
Record Services := {
  (* lavalink.py: player manager and player *)
  lv_new_player : Z -> option string -> Player;
  lv_is_connected : Player -> bool;
  lv_is_playing : Player -> bool;
  lv_add : Z -> TrackArg -> Player -> Player;
  lv_play : Player -> Player;
  lv_set_pause : bool -> Player -> Player;
  lv_set_volume : Z -> Player -> Player;
  lv_set_repeat : bool -> Player -> Player;
  lv_skip : Player -> Player;
  (* [player.skip()] finds nothing left to play and dispatches a
     [QueueEndEvent]; asked of the player before the call *)
  lv_skip_ends_queue : Player -> bool;
  lv_stop : Player -> Player;
  lv_store : string -> Z -> Player -> Player;
  lv_voice_update_handler : PyObj -> gmap Z Player -> gmap Z Player;
  lv_format_time : Z -> string;
  (* the audio node: [None] is a falsy answer *)
  node_get_tracks : string -> option LoadResult;
  (* lyricsgenius *)
  genius_search_song : string -> Res (option Song);
  (* spotipy: [None] when the call raises *)
  sp_track : string -> option SpTrack;
  sp_playlist_items : string -> option (list (option string));
  (* [int(response.content)] of the author's next message *)
  reply_int : Z -> Res Z;
  (* the text of an emoji literal, and [str(exception)] *)
  glyph : Glyph -> string;
}.

(** ** Handlers as state-passing computations *)

Definition M (A : Type) : Type := World -> Res A * World.

#[export] Instance M_ret : MRet M := fun A a w => (Ok a, w).
#[export] Instance M_bind : MBind M := fun A B f m w =>
  match m w with
  | (Ok a, w') => f a w'
  | (Raise e, w') => (Raise e, w')
  end.

Definition raise {A} (e : Exn) : M A := fun w => (Raise e, w).

(** [try: body except: handler] with a bare [except]. *)
Definition try_except {A} (body handler : M A) : M A := fun w =>
  match body w with
  | (Ok a, w') => (Ok a, w')
  | (Raise _, w') => handler w'
  end.

Definition emit (e : Event) : M unit := fun w =>
  (Ok tt, {| players := players w; voice_clients := voice_clients w;
             g_spotify := g_spotify w; g_lyricstitle := g_lyricstitle w;
             g_spotifylyrics := g_spotifylyrics w;
             trace := trace w ++ [e] |}).

Definition set_players (f : gmap Z Player -> gmap Z Player) : M unit := fun w =>
  (Ok tt, {| players := f (players w); voice_clients := voice_clients w;
             g_spotify := g_spotify w; g_lyricstitle := g_lyricstitle w;
             g_spotifylyrics := g_spotifylyrics w; trace := trace w |}).

Definition set_voice_clients (f : gmap Z Z -> gmap Z Z) : M unit := fun w =>
  (Ok tt, {| players := players w; voice_clients := f (voice_clients w);
             g_spotify := g_spotify w; g_lyricstitle := g_lyricstitle w;
             g_spotifylyrics := g_spotifylyrics w; trace := trace w |}).

Definition set_spotify (b : bool) : M unit := fun w =>
  (Ok tt, {| players := players w; voice_clients := voice_clients w;
             g_spotify := Some b; g_lyricstitle := g_lyricstitle w;
             g_spotifylyrics := g_spotifylyrics w; trace := trace w |}).

Definition set_lyricstitle (s : string) : M unit := fun w =>
  (Ok tt, {| players := players w; voice_clients := voice_clients w;
             g_spotify := g_spotify w; g_lyricstitle := Some s;
             g_spotifylyrics := g_spotifylyrics w; trace := trace w |}).

Definition set_spotifylyrics (s : string) : M unit := fun w =>
  (Ok tt, {| players := players w; voice_clients := voice_clients w;
             g_spotify := g_spotify w; g_lyricstitle := g_lyricstitle w;
             g_spotifylyrics := Some s; trace := trace w |}).

(** Reading a module global: a [NameError] while it is unbound. *)
Definition global {A} (f : World -> option A) : M A := fun w =>
  match f w with
  | Some a => (Ok a, w)
  | None => (Raise NameError, w)
  end.

(** [x.attr] where [x] may be [None]. *)
Definition attr_of {A B} (x : option A) (f : A -> B) : M B :=
  match x with
  | Some a => mret (f a)
  | None => raise AttributeError
  end.

(** Reading a local variable: an [UnboundLocalError] while it is unbound. *)
Definition local {A} (x : option A) : M A :=
  match x with
  | Some a => mret a
  | None => raise UnboundLocalError
  end.

Definition of_res {A} (r : Res A) : M A := fun w => (r, w).

(** A reference to a player object: the key it is stored under in the
    manager's table, or [None]. *)
Definition PlayerRef := option Z.

(** [player.attr]: read through the reference, at the time of the read. *)
Definition attr {A} (r : PlayerRef) (f : Player -> A) : M A := fun w =>
  match r with
  | None => (Raise AttributeError, w)
  | Some k =>
      match players w !! k with
      | Some p => (Ok (f p), w)
      | None => (Raise AttributeError, w)
      end
  end.

(** [player.attr = ...] and in-place changes of [player.queue]. *)
Definition update (r : PlayerRef) (f : Player -> Player) : M unit :=
  match r with
  | None => raise AttributeError
  | Some k =>
      _ ← attr r (fun _ => tt);
      set_players (fun ps => alter f k ps)
  end.

Fixpoint for_each {A} (l : list A) (body : A -> M unit) : M unit :=
  match l with
  | [] => mret tt
  | x :: l' => body x;; for_each l' body
  end.

(** A [for] loop whose body may [return] from the handler: the body answers
    [true] when it did. *)
Fixpoint for_each_until {A} (l : list A) (body : A -> M bool) : M unit :=
  match l with
  | [] => mret tt
  | x :: l' =>
      returned ← body x;
      if returned : bool then mret tt else for_each_until l' body
  end.

(** [l[i]] inside a handler. *)
Definition subscript {A} (l : list A) (i : Z) : M A :=
  match Py.index l i with
  | Some x => mret x
  | None => raise IndexError
  end.

Definition nl : string := String (ascii_of_nat 10) "".

Definition str_in (s : string) (l : list string) : bool :=
  bool_decide (s ∈ l).

(** [url_rx = re.compile(r'https?://(?:www\.)?.+')], used through
    [url_rx.match]: a match anchored at the start.  [.] is any character
    but a newline. *)
Definition dot_plus (s : string) : bool :=
  match s with
  | String c _ => negb (bool_decide (c = ascii_of_nat 10))
  | EmptyString => false
  end.

Definition opt_then (p s : string) (k : string -> bool) : bool :=
  match Py.drop_prefix p s with
  | Some s' => k s' || k s
  | None => k s
  end.

Definition url_rx_match (s : string) : bool :=
  match Py.drop_prefix "http" s with
  | None => false
  | Some s1 =>
      opt_then "s" s1 (fun s2 =>
        match Py.drop_prefix "://" s2 with
        | None => false
        | Some s3 => opt_then "www." s3 dot_plus
        end)
  end.

Section Calls.

Context (S : Services).

(** *** Calls into lavalink.py *)

Definition apply_call (c : PlayerCall) (p : Player) : Player :=
  match c with
  | CAdd requester track => lv_add S requester track p
  | CPlay => lv_play S p
  | CSetPause pause => lv_set_pause S pause p
  | CSetVolume vol => lv_set_volume S vol p
  | CSetRepeat r => lv_set_repeat S r p
  | CSkip => lv_skip S p
  | CStop => lv_stop S p
  | CStore key value => lv_store S key value p
  end.

(** [player.method(...)]: the call is traced and its effect is the
    library's, on that player. *)
Definition on_player (r : PlayerRef) (c : PlayerCall) : M unit :=
  match r with
  | None => raise AttributeError
  | Some k =>
      _ ← attr r (fun _ => tt);
      emit (OnPlayer k c);;
      set_players (fun ps => alter (apply_call c) k ps)
  end.

(** [player_manager.get(guild_id)] *)
Definition player_manager_get (guild_id : Z) : M PlayerRef := fun w =>
  (Ok (match players w !! guild_id with Some _ => Some guild_id | None => None end), w).

(** [player_manager.create(guild_id, endpoint)]: the player of the guild,
    made first when the guild has none. *)
Definition player_manager_create (guild_id : Z) (endpoint : option string)
  : M PlayerRef :=
  present ← player_manager_get guild_id;
  match present with
  | Some k => mret (Some k)
  | None =>
      set_players (fun ps => <[guild_id := lv_new_player S guild_id endpoint]> ps);;
      mret (Some guild_id)
  end.

(** [await player.node.get_tracks(query)] *)
Definition get_tracks (player : PlayerRef) (query : string)
  : M (option LoadResult) :=
  _ ← attr player (fun _ => tt);
  emit (NodeGetTracks query);;
  mret (node_get_tracks S query).

(** [genius.search_song(query)] *)
Definition search_song (query : string) : M (option Song) :=
  emit (GeniusSearch query);;
  of_res (genius_search_song S query).

(** [ctx.guild.id] *)
Definition guild_id (ctx : Context) : M Z := attr_of (ctx_guild ctx) g_id.

End Calls.

(** *** class LavalinkVoiceClient

    A voice client is identified by the guild of its channel, the key under
    which discord.py registers it; [self_channel] is its [self.channel]. *)
Module LavalinkVoiceClient.
Section Methods.

Context (S : Services).

Definition on_voice_server_update (data : PyObj) : M unit :=
  let lavalink_data := PyDict [("t", PyStr "VOICE_SERVER_UPDATE"); ("d", data)] in
  emit (VoiceUpdateHandler lavalink_data);;
  set_players (lv_voice_update_handler S lavalink_data).

Definition on_voice_state_update (data : PyObj) : M unit :=
  let lavalink_data := PyDict [("t", PyStr "VOICE_STATE_UPDATE"); ("d", data)] in
  emit (VoiceUpdateHandler lavalink_data);;
  set_players (lv_voice_update_handler S lavalink_data).

Definition connect (self_guild self_channel : Z) (self_deaf self_mute : bool)
  : M unit :=
  _ ← player_manager_create S self_guild None;
  emit (ChangeVoiceState self_guild (Some self_channel) self_mute self_deaf).

Definition disconnect (self_guild : Z) (force : bool) : M unit :=
  player ← player_manager_get self_guild;
  connected ← (if force then mret true else attr player (lv_is_connected S));
  if negb force && negb connected then mret tt
  else
    emit (ChangeVoiceState self_guild None false false);;
    update player (fun p =>
      {| p_channel_id := None; p_queue := p_queue p; p_current := p_current p;
         p_paused := p_paused p; p_volume := p_volume p; p_repeat := p_repeat p;
         p_shuffle := p_shuffle p; p_position := p_position p;
         p_stored := p_stored p |});;
    emit (Cleanup self_guild);;
    set_voice_clients (fun vs => delete self_guild vs).

End Methods.
End LavalinkVoiceClient.

Section Dispatch.

Context (S : Services).

(** [await channel.connect(cls=LavalinkVoiceClient)], as discord.py runs it:
    refuse when the guild already has a voice client, else register a new
    one and call its [connect]. *)
Definition channel_connect (guild channel : Z) : M unit :=
  fun w =>
    match voice_clients w !! guild with
    | Some _ => (Raise (Py ClientException), w)
    | None =>
        (set_voice_clients (fun vs => <[guild := channel]> vs);;
         LavalinkVoiceClient.connect S guild channel false false) w
    end.

(** [await ctx.voice_client.disconnect(force=True)] and the like. *)
Definition voice_client_disconnect (guild : Z) (force : bool) : M unit :=
  fun w =>
    match voice_clients w !! guild with
    | None => (Raise (Py AttributeError), w)
    | Some _ => LavalinkVoiceClient.disconnect S guild force w
    end.

End Dispatch.

(** *** class Music *)
Module Music.
Section Handlers.

Context (S : Services).

Definition send (content : string) : M unit := emit (Send content).

Definition author_id (ctx : Context) : Z := m_id (ctx_author ctx).

Definition ensure_voice (ctx : Context) (command_name : string) : M unit :=
  guild ← attr_of (ctx_guild ctx) id;
  player ← player_manager_create S (g_id guild) (Some (g_region guild));
  let should_connect :=
    str_in command_name ["play"; "search_music"; "playuser"; "join"] in
  match m_voice (ctx_author ctx) with
  | None | Some None =>
      raise (CommandInvokeError (inl "Join a voicechannel first."))
  | Some (Some channel) =>
      connected ← attr player (lv_is_connected S);
      if negb connected then
        if negb should_connect then
          raise (CommandInvokeError (inl "Not connected."))
        else if negb (vc_connect channel) || negb (vc_speak channel) then
          raise (CommandInvokeError (inl "I need the `CONNECT` and `SPEAK` permissions."))
        else
          on_player S player (CStore "channel" (ctx_channel_id ctx));;
          channel_connect S (g_id guild) (vc_id channel)
      else
        channel_id ← attr player p_channel_id;
        match channel_id with
        | None => raise TypeError
        | Some c =>
            if bool_decide (c ≠ vc_id channel)
            then raise (CommandInvokeError (inl "You need to be in my voicechannel."))
            else mret tt
        end
  end.

Definition cog_before_invoke (ctx : Context) (command_name : string) : M bool :=
  let guild_check := match ctx_guild ctx with Some _ => true | None => false end in
  (if guild_check then ensure_voice ctx command_name else mret tt);;
  mret guild_check.

Definition cog_command_error (ctx : Context) (error : Exn) : M unit :=
  match error with
  | CommandInvokeError (inl reason) => send reason
  | CommandInvokeError (inr e) => emit (SendException e)
  | Py _ => mret tt
  end.

Inductive LavalinkEvent :=
| QueueEndEvent (player_guild_id : Z)
| OtherEvent.

Definition track_hook (event : LavalinkEvent) : M unit :=
  match event with
  | QueueEndEvent guild_id => voice_client_disconnect S guild_id true
  | OtherEvent => mret tt
  end.

(** [lavalink.add_event_hook(self.track_hook)] in [__init__]: lavalink.py
    awaits the hook on every event it dispatches, and logs what the hook
    raises. *)
Definition dispatch_event (event : LavalinkEvent) : M unit :=
  try_except (track_hook event) (mret tt).

(** [await player.skip()]: lavalink.py starts the next track, or stops and
    dispatches a [QueueEndEvent] for the player when nothing is left to
    play; the hooks have run when the call returns. *)
Definition player_skip (player : PlayerRef) : M unit :=
  match player with
  | None => raise AttributeError
  | Some guild_id =>
      ended ← attr player (lv_skip_ends_queue S);
      on_player S player CSkip;;
      dispatch_event (if ended : bool then QueueEndEvent guild_id else OtherEvent)
  end.

Definition join (ctx : Context) : M unit := mret tt.

(** The [ytsearch:] query of a Spotify track; [None] when
    [track["artists"][0]] raises. *)
Definition sp_query (track : SpTrack) : option string :=
  match sp_artists track with
  | artist :: _ => Some ("ytsearch:" +:+ sp_name track +:+ " " +:+ artist)
  | [] => None
  end.

(** The [while playlist_size != 0] loop of [play]: the local [query] as the
    loop leaves it, and whether it ran to its end ([false]: an exception
    left it). *)
Fixpoint playlist_loop (response : list (option string))
    (playlist_size : nat) (query : string) : bool * string :=
  match playlist_size with
  | O => (true, query)
  | Datatypes.S playlist_size' =>
      match Py.index response (Z.of_nat playlist_size' - 1) with
      | Some (Some songs) =>
          match sp_track S songs ≫= sp_query with
          | Some query' => playlist_loop response playlist_size' query'
          | None => (false, query)
          end
      | _ => (false, query)
      end
  end.

Definition search_prefixed (query : string) : string :=
  if negb (url_rx_match query) then "ytsearch:" +:+ query else query.

(** The nested [try]/[except] of [play] that turns the user's text into the
    query for the audio node. *)
Definition play_query (query : string) : string :=
  match sp_track S query ≫= sp_query with
  | Some query' => query'
  | None =>
      match sp_playlist_items S query with
      | Some response =>
          let '(finished, query') := playlist_loop response 50 query in
          if finished : bool then query' else search_prefixed query'
      | None => search_prefixed query
      end
  end.

Definition blank_embed : Embed :=
  {| e_title := None; e_description := ""; e_colour := Blurple;
     e_fields := []; e_footer := None |}.

(** The part that [play] and [playuser] share: enqueue what a non-empty
    result holds and build the reply. *)
Definition enqueue (ctx : Context) (player : PlayerRef) (results : LoadResult)
  : M Embed :=
  if bool_decide (loadType results = "PLAYLIST_LOADED") then
    let tracks := tracks results in
    for_each tracks (fun track =>
      on_player S player (CAdd (author_id ctx) (Dict track)));;
    mret {| e_title := Some "Playlist Enqueued!";
            e_description :=
              playlistInfo_name results +:+ " - "
              +:+ Py.str_of_Z (Z.of_nat (length tracks)) +:+ " tracks";
            e_colour := Blurple; e_fields := []; e_footer := None |}
  else
    track ← subscript (tracks results) 0;
    let embed :=
      {| e_title := Some "Track Enqueued";
         e_description :=
           "[" +:+ rt_title track +:+ "](" +:+ rt_uri track +:+ ")";
         e_colour := Blurple; e_fields := []; e_footer := None |} in
    let track :=
      {| at_data := track; at_requester := author_id ctx;
         at_recommended := true |} in
    on_player S player (CAdd (author_id ctx) (Built track));;
    mret embed.

Definition nothing_found (results : option LoadResult) : bool :=
  match results with
  | None => true
  | Some r => match tracks r with [] => true | _ :: _ => false end
  end.

Definition play (ctx : Context) (query : string) : M unit :=
  gid ← guild_id ctx;
  player ← player_manager_get gid;
  let query := Py.strip "<>" query in
  set_spotify false;;
  let query := play_query query in
  results ← get_tracks S player query;
  match results with
  | Some r =>
      if nothing_found results then send "Nothing found!"
      else
        embed ← enqueue ctx player r;
        emit (SendEmbed embed);;
        set_lyricstitle (Py.strip "ytsearch:" query);;
        playing ← attr player (lv_is_playing S);
        if negb playing then on_player S player CPlay else mret tt
  | None => send "Nothing found!"
  end.

(** The body of the [for activity in member.activities] loop of
    [playuser]; [true] when it returned from the handler. *)
Definition playuser_activity (ctx : Context) (player : PlayerRef)
    (activity : Activity) : M bool :=
  match activity with
  | Spotify title artist =>
      let query := title +:+ " " +:+ artist in
      set_spotifylyrics (title +:+ " " +:+ artist);;
      query ← (if negb (url_rx_match query)
               then let query := "ytsearch:" +:+ query in
                    set_spotifylyrics query;; mret query
               else mret query);
      results ← get_tracks S player query;
      match results with
      | Some r =>
          if nothing_found results then send "Nothing found!";; mret true
          else
            embed ← enqueue ctx player r;
            emit (SendEmbed embed);;
            playing ← attr player (lv_is_playing S);
            (if negb playing then on_player S player CPlay else mret tt);;
            mret false
      | None => send "Nothing found!";; mret true
      end
  | OtherActivity _ =>
      send "Make sure this user has connected discord with spotify and displays their song as a status.";;
      mret false
  end.

Definition playuser (ctx : Context) (member : Member) : M unit :=
  set_spotify true;;
  gid ← guild_id ctx;
  player ← player_manager_get gid;
  for_each_until (m_activities member) (playuser_activity ctx player).

(** The lines of the search listing: [i) title - uri], numbered from [i+1]. *)
Fixpoint query_result (i : Z) (tracks : list RawTrack) : string :=
  match tracks with
  | [] => ""
  | track :: rest =>
      let i := i + 1 in
      (Py.str_of_Z i +:+ ") " +:+ rt_title track +:+ " - " +:+ rt_uri track +:+ nl)
      +:+ query_result i rest
  end.

Definition search_music (ctx : Context) (search : string) : M unit :=
  gid ← guild_id ctx;
  player ← player_manager_get gid;
  let query := "ytsearch:" +:+ search in
  results ← get_tracks S player query;
  match results with
  | None => raise TypeError
  | Some r =>
      let tracks := Py.slice (tracks r) 0 10 in
      let embed :=
        {| e_title := Some ("Search results for " +:+ search);
           e_description := query_result 0 tracks;
           e_colour := ColourValue (m_color (ctx_author ctx));
           e_fields := []; e_footer := None |} in
      emit (ChannelSendEmbed embed);;
      emit (WaitForMessage (author_id ctx));;
      n ← of_res (reply_int S (author_id ctx));
      track ← subscript tracks (n - 1);
      on_player S player (CAdd (author_id ctx) (Dict track));;
      playing ← attr player (lv_is_playing S);
      if negb playing then on_player S player CPlay else mret tt
  end.

Definition pause (ctx : Context) : M unit :=
  gid ← guild_id ctx;
  player ← player_manager_get gid;
  on_player S player (CSetPause true);;
  emit (AddReaction GPause).

Definition resume (ctx : Context) : M unit :=
  gid ← guild_id ctx;
  player ← player_manager_get gid;
  on_player S player (CSetPause false);;
  emit (AddReaction GResume).

Definition volume (ctx : Context) (volume : Z) : M unit :=
  gid ← guild_id ctx;
  player ← player_manager_get gid;
  on_player S player (CSetVolume volume);;
  vol ← attr player p_volume;
  send (glyph S GSpeaker +:+ " | Set volume to " +:+ Py.str_of_Z vol +:+ "%").

Definition loop (ctx : Context) : M unit :=
  gid ← guild_id ctx;
  player ← player_manager_get gid;
  on_player S player (CSetRepeat true);;
  emit (AddReaction GRepeat).

Definition unloop (ctx : Context) : M unit :=
  gid ← guild_id ctx;
  player ← player_manager_get gid;
  repeat ← attr player p_repeat;
  if repeat : bool then
    on_player S player (CSetRepeat false);;
    emit (AddReaction GRepeat)
  else
    send "This track is not looped";;
    emit (AddReaction GCross).

Definition current (ctx : Context) : M unit :=
  gid ← guild_id ctx;
  player ← player_manager_get gid;
  cur ← attr player p_current;
  (* [pos] and [dur] are bound only under the guard *)
  pos_dur ← match cur with
            | Some track =>
                position ← attr player p_position;
                let pos := lv_format_time S position in
                let dur := if at_stream track then "LIVE"
                           else lv_format_time S (at_duration track) in
                mret (Some (pos, dur))
            | None => mret None
            end;
  title ← attr_of cur at_title;
  author ← attr_of cur at_author;
  uri ← attr_of cur at_uri;
  requester ← attr_of cur at_requester;
  let fields :=
    [("Uploader", author);
     ("Track Url", "[Click](" +:+ uri +:+ ")");
     ("Requester", "<@" +:+ Py.str_of_Z requester +:+ ">")] in
  stream ← attr_of cur at_stream;
  vol ← attr player p_volume;
  let volume_field :=
    (glyph S GSpeaker +:+ " | Volume", Py.str_of_Z vol +:+ "%") in
  more ← (if stream : bool then
            pos ← local (fst <$> pos_dur);
            mret [volume_field; ("Duration", glyph S GLive +:+ "Live");
                  ("Playtime", pos)]
          else
            '(pos, dur) ← local pos_dur;
            mret [volume_field; (glyph S GZeroWidth, glyph S GZeroWidth);
                  ("Duration", pos +:+ "/" +:+ dur)]);
  emit (SendEmbed
    {| e_title := Some "**Now Playing**"; e_description := title;
       e_colour := Blurple; e_fields := fields ++ more; e_footer := None |}).

Definition skip (ctx : Context) : M unit :=
  gid ← guild_id ctx;
  player ← player_manager_get gid;
  player_skip player;;
  emit (AddReaction GSkip).

Definition items_per_page : Z := 10.

(** [math.ceil(n / items_per_page)]; the quotient is a float in the source,
    which is exact enough for every length a list can have. *)
Definition pages_of (n : Z) : Z := - ((- n) / items_per_page).

(** The second loop of [queue]: one line per track of the page. *)
Fixpoint queue_lines (page_tracks : list (Z * AudioTrack)) : string :=
  match page_tracks with
  | [] => ""
  | (i, track) :: rest =>
      ("`" +:+ Py.str_of_Z (i + 1) +:+ ".` [**" +:+ at_title track +:+ "**]("
       +:+ at_uri track +:+ ")" +:+ nl) +:+ queue_lines rest
  end.

(** The first loop of [queue]: [queuetime] is overwritten at every track, so
    it ends as the time of the last one, and stays unbound on an empty
    page. *)
Definition queuetime_of (page_tracks : list (Z * AudioTrack)) : option string :=
  fold_left (fun _ '(i, track) => Some (lv_format_time S (at_duration track)))
            page_tracks None.

Definition queue (ctx : Context) (page : Z) : M unit :=
  gid ← guild_id ctx;
  player ← player_manager_get gid;
  q ← attr player p_queue;
  match q with
  | [] => send "There's nothing in the queue! Why not queue something?"
  | _ :: _ =>
      let pages := pages_of (Z.of_nat (length q)) in
      let start := (page - 1) * items_per_page in
      let end_ := start + items_per_page in
      let page_tracks := Py.enumerate (Py.slice q start end_) start in
      let queuetime := queuetime_of page_tracks in
      let queue_list := queue_lines page_tracks in
      guild ← attr_of (ctx_guild ctx) id;
      queuetime ← local queuetime;
      emit (SendEmbed
            {| e_title := None;
               e_description :=
                 "**" +:+ Py.str_of_Z (Z.of_nat (length q)) +:+ " tracks**" +:+ nl
                 +:+ "total queue time = " +:+ queuetime +:+ nl +:+ nl
                 +:+ queue_list;
               e_colour := ColourValue (g_me_top_role_colour guild);
               e_fields := [];
               e_footer := Some ("Viewing page " +:+ Py.str_of_Z page +:+ "/"
                                 +:+ Py.str_of_Z pages) |})
  end.

Definition set_queue (q : list AudioTrack) (p : Player) : Player :=
  {| p_channel_id := p_channel_id p; p_queue := q; p_current := p_current p;
     p_paused := p_paused p; p_volume := p_volume p; p_repeat := p_repeat p;
     p_shuffle := p_shuffle p; p_position := p_position p;
     p_stored := p_stored p |}.

Definition set_shuffle (b : bool) (p : Player) : Player :=
  {| p_channel_id := p_channel_id p; p_queue := p_queue p;
     p_current := p_current p; p_paused := p_paused p; p_volume := p_volume p;
     p_repeat := p_repeat p; p_shuffle := b; p_position := p_position p;
     p_stored := p_stored p |}.

Definition remove (ctx : Context) (index : Z) : M unit :=
  gid ← guild_id ctx;
  player ← player_manager_get gid;
  q ← attr player p_queue;
  match q with
  | [] => send "Nothing queued."
  | _ :: _ =>
      if (Z.of_nat (length q) <? index) || (index <? 1)
      then send "Index has to be >=1 and <=queue size"
      else
        let index := index - 1 in
        removed ← subscript q index;
        update player (fun p => set_queue (delete (Z.to_nat index) (p_queue p)) p);;
        send ("Removed **" +:+ at_title removed +:+ "** from the queue.")
  end.

Definition shuffle (ctx : Context) : M unit :=
  gid ← guild_id ctx;
  player ← player_manager_get gid;
  playing ← attr player (lv_is_playing S);
  if negb playing then send "Nothing playing."
  else
    update player (fun p => set_shuffle (negb (p_shuffle p)) p);;
    shuffled ← attr player p_shuffle;
    send (glyph S GShuffle +:+ " | Shuffle "
          +:+ (if shuffled : bool then "enabled" else "disabled")).

Definition stopwords : list string :=
  ["(Lyrics)"; "Official"; "Video"; "(Official Video)"; "lyrics"; " (Audio)";
   "(Official Music Video)"].

Definition stopwords_lower : list string :=
  ["(lyrics)"; "official"; "video"; "lyrics"; "(official  music  video)";
   "(audio)"].

(** [' '.join(word for word in new.split() if word not in stopwords)] *)
Definition clean_title (new : string) : string :=
  Py.join " " (filter (fun word => word ∉ stopwords) (Py.split new)).

Definition clean_title_lower (new : string) : string :=
  Py.join " "
    (filter (fun word => Py.lower word ∉ stopwords_lower) (Py.split new)).

(** [player.current.title] *)
Definition current_title (player : PlayerRef) : M string :=
  cur ← attr player p_current;
  attr_of cur at_title.

Definition lyrics_embed (title description : string) : Embed :=
  {| e_title := Some title; e_description := description;
     e_colour := Blurple; e_fields := []; e_footer := None |}.

(** The five innermost [try] bodies of [lyrics], longest first. *)
Definition search_6 (titles : string) : M string :=
  search0 ← subscript (Py.split titles) 0;
  search1 ← subscript (Py.split titles) 1;
  search2 ← subscript (Py.split titles) 2;
  search3 ← subscript (Py.split titles) 3;
  search4 ← subscript (Py.split titles) 4;
  search5 ← subscript (Py.split titles) 5;
  mret (search0 +:+ "  " +:+ search1 +:+ "  " +:+ search2 +:+ "  "
        +:+ search3 +:+ "  " +:+ search4 +:+ "  " +:+ search5).

Definition search_5 (titles : string) : M string :=
  search0 ← subscript (Py.split titles) 0;
  search1 ← subscript (Py.split titles) 1;
  search2 ← subscript (Py.split titles) 2;
  search3 ← subscript (Py.split titles) 3;
  search4 ← subscript (Py.split titles) 4;
  mret (search0 +:+ "  " +:+ search1 +:+ "  " +:+ search2 +:+ "  "
        +:+ search3 +:+ "  " +:+ search4).

Definition search_4 (titles : string) : M string :=
  search0 ← subscript (Py.split titles) 0;
  search1 ← subscript (Py.split titles) 1;
  search2 ← subscript (Py.split titles) 2;
  search3 ← subscript (Py.split titles) 3;
  mret (search0 +:+ "  " +:+ search1 +:+ "  " +:+ search2 +:+ "  "
        +:+ search3).

Definition search_3 (titles : string) : M string :=
  search0 ← subscript (Py.split titles) 0;
  search1 ← subscript (Py.split titles) 1;
  search2 ← subscript (Py.split titles) 2;
  mret (search0 +:+ "  " +:+ search1 +:+ "  " +:+ search2).

Definition search_2 (titles : string) : M string :=
  search0 ← subscript (Py.split titles) 0;
  search1 ← subscript (Py.split titles) 1;
  mret (search0 +:+ "  " +:+ search1).

(** The fallback chain of [lyrics]: the [search] string that the first
    [try] body to finish has composed, or, when none does, the message and
    no string. *)
Definition compose_search (titles : string) : M (option string) :=
  try_except (search ← search_6 titles; mret (Some search))
    (try_except (search ← search_5 titles; mret (Some search))
      (try_except (search ← search_4 titles; mret (Some search))
        (try_except (search ← search_3 titles; mret (Some search))
          (try_except (search ← search_2 titles; mret (Some search))
            (send "Lyrics not Found";; mret None))))).

Definition lyrics (ctx : Context) (song : option string) : M unit :=
  gid ← guild_id ctx;
  player ← player_manager_get gid;
  titles ← try_except
    (new ← current_title player; mret (clean_title new))
    (new ← current_title player; mret (clean_title_lower new));
  match song with
  | None =>
      spotify ← global g_spotify;
      if spotify : bool then
        query ← global g_spotifylyrics;
        lyric ← search_song S query;
        title ← current_title player;
        description ← attr_of lyric song_lyrics;
        emit (SendEmbed (lyrics_embed title description))
      else
        try_except
          (search ← global g_lyricstitle;
           lyric ← search_song S search;
           title ← current_title player;
           description ← attr_of lyric song_lyrics;
           emit (SendEmbed (lyrics_embed title description)))
          (_ ← compose_search titles; mret tt)
  | Some song =>
      found ← search_song S song;
      let title := match found with Some s => song_str s | None => "None" end in
      emit Typing;;
      description ← attr_of found song_lyrics;
      emit (SendEmbed (lyrics_embed title description))
  end.

(** The body of the loop of [lyricsuser]. *)
Definition lyricsuser_activity (activity : Activity) : M unit :=
  match activity with
  | Spotify title artist =>
      let song := title in
      lyricsz ← search_song S song;
      emit Typing;;
      description ← attr_of lyricsz song_lyrics;
      emit (SendEmbed (lyrics_embed song description))
  | OtherActivity _ => mret tt
  end.

Definition lyricsuser (ctx : Context) (member : Member) : M unit :=
  for_each (m_activities member) lyricsuser_activity.

Definition disconnect (ctx : Context) : M unit :=
  gid ← guild_id ctx;
  player ← player_manager_get gid;
  connected ← attr player (lv_is_connected S);
  if negb connected then send "Not connected."
  else
    not_there ←
      match m_voice (ctx_author ctx) with
      | None => mret true
      | Some voice =>
          connected ← attr player (lv_is_connected S);
          if connected : bool then
            channel ← attr_of voice vc_id;
            channel_id ← attr player p_channel_id;
            match channel_id with
            | None => raise TypeError
            | Some c => mret (bool_decide (channel ≠ c))
            end
          else mret false
      end;
    if not_there : bool then send "You're not in my voicechannel!"
    else
      update player (set_queue []);;
      on_player S player CStop;;
      voice_client_disconnect S gid true;;
      send ("*" +:+ glyph S GKeycap +:+ " | Disconnected.").

(** *** The commands of the cog and their dispatch *)

Inductive Command :=
| Join
| Play (query : string)
| PlayUser (member : Member)
| SearchMusic (search : string)
| Pause
| Resume
| Volume (volume : Z)
| Loop
| Unloop
| Current
| Skip
| Queue (page : Z)
| Remove (index : Z)
| Shuffle
| Lyrics (song : option string)
| LyricsUser (member : Member)
| Disconnect.

(** [ctx.command.name]: the [name=] of the decorator, else the function's. *)
Definition command_name (c : Command) : string :=
  match c with
  | Join => "join"
  | Play _ => "play"
  | PlayUser _ => "playuser"
  | SearchMusic _ => "Search music"
  | Pause => "pause"
  | Resume => "resume"
  | Volume _ => "volume"
  | Loop => "loop"
  | Unloop => "unloop"
  | Current => "current"
  | Skip => "skip"
  | Queue _ => "queue"
  | Remove _ => "remove"
  | Shuffle => "shuffle"
  | Lyrics _ => "lyrics"
  | LyricsUser _ => "lyricsuser"
  | Disconnect => "disconnect"
  end.

Definition callback (c : Command) (ctx : Context) : M unit :=
  match c with
  | Join => join ctx
  | Play query => play ctx query
  | PlayUser member => playuser ctx member
  | SearchMusic search => search_music ctx search
  | Pause => pause ctx
  | Resume => resume ctx
  | Volume v => volume ctx v
  | Loop => loop ctx
  | Unloop => unloop ctx
  | Current => current ctx
  | Skip => skip ctx
  | Queue page => queue ctx page
  | Remove index => remove ctx index
  | Shuffle => shuffle ctx
  | Lyrics song => lyrics ctx song
  | LyricsUser member => lyricsuser ctx member
  | Disconnect => disconnect ctx
  end.

(** One invocation as discord.py runs it: the before-invoke hook, then the
    callback; an exception of the callback is wrapped in a
    [CommandInvokeError]; a command error goes to [cog_command_error], any
    other exception of the hook propagates. *)
Definition invoke (c : Command) (ctx : Context) : M unit := fun w =>
  match cog_before_invoke ctx (command_name c) w with
  | (Ok _, w1) =>
      match callback c ctx w1 with
      | (Ok _, w2) => (Ok tt, w2)
      | (Raise (Py e), w2) =>
          cog_command_error ctx (CommandInvokeError (inr e)) w2
      | (Raise (CommandInvokeError o), w2) =>
          cog_command_error ctx (CommandInvokeError o) w2
      end
  | (Raise (CommandInvokeError o), w1) =>
      cog_command_error ctx (CommandInvokeError o) w1
  | (Raise (Py e), w1) => (Raise (Py e), w1)
  end.

End Handlers.
End Music.

(** ** A reference implementation of the services

    The documented behaviour of lavalink.py's [DefaultPlayer], with the
    audio node and the lyrics service as tables: used to run the handlers
    on concrete inputs. *)
Module Reference.

Definition new_player : Player :=
  {| p_channel_id := None; p_queue := []; p_current := None;
     p_paused := false; p_volume := 100; p_repeat := false;
     p_shuffle := false; p_position := 0; p_stored := [] |}.

Definition is_connected (p : Player) : bool :=
  match p_channel_id p with Some _ => true | None => false end.

Definition is_playing (p : Player) : bool :=
  is_connected p && match p_current p with Some _ => true | None => false end.

Definition as_track (requester : Z) (t : TrackArg) : AudioTrack :=
  match t with
  | Dict d => {| at_data := d; at_requester := requester; at_recommended := false |}
  | Built a => a
  end.

Definition add (requester : Z) (t : TrackArg) (p : Player) : Player :=
  Music.set_queue (p_queue p ++ [as_track requester t]) p.

Definition set_current (c : option AudioTrack) (p : Player) : Player :=
  {| p_channel_id := p_channel_id p; p_queue := p_queue p; p_current := c;
     p_paused := p_paused p; p_volume := p_volume p; p_repeat := p_repeat p;
     p_shuffle := p_shuffle p; p_position := 0; p_stored := p_stored p |}.

Definition set_pause (b : bool) (p : Player) : Player :=
  {| p_channel_id := p_channel_id p; p_queue := p_queue p;
     p_current := p_current p; p_paused := b; p_volume := p_volume p;
     p_repeat := p_repeat p; p_shuffle := p_shuffle p;
     p_position := p_position p; p_stored := p_stored p |}.

Definition set_volume (v : Z) (p : Player) : Player :=
  {| p_channel_id := p_channel_id p; p_queue := p_queue p;
     p_current := p_current p; p_paused := p_paused p;
     p_volume := Z.max (Z.min v 1000) 0;
     p_repeat := p_repeat p; p_shuffle := p_shuffle p;
     p_position := p_position p; p_stored := p_stored p |}.

Definition set_repeat (b : bool) (p : Player) : Player :=
  {| p_channel_id := p_channel_id p; p_queue := p_queue p;
     p_current := p_current p; p_paused := p_paused p; p_volume := p_volume p;
     p_repeat := b; p_shuffle := p_shuffle p;
     p_position := p_position p; p_stored := p_stored p |}.

Definition set_channel (c : option Z) (p : Player) : Player :=
  {| p_channel_id := c; p_queue := p_queue p;
     p_current := p_current p; p_paused := p_paused p; p_volume := p_volume p;
     p_repeat := p_repeat p; p_shuffle := p_shuffle p;
     p_position := p_position p; p_stored := p_stored p |}.

Definition store (k : string) (v : Z) (p : Player) : Player :=
  {| p_channel_id := p_channel_id p; p_queue := p_queue p;
     p_current := p_current p; p_paused := p_paused p; p_volume := p_volume p;
     p_repeat := p_repeat p; p_shuffle := p_shuffle p;
     p_position := p_position p; p_stored := (k, v) :: p_stored p |}.

(** [play()] with no track: the head of the queue becomes current (the
    random pick of shuffle mode is not modelled). *)
Definition play_head (p : Player) : Player :=
  let p := match p_repeat p, p_current p with
           | true, Some c => Music.set_queue (p_queue p ++ [c]) p
           | _, _ => p
           end in
  match p_queue p with
  | [] => set_current None p
  | t :: rest => set_pause false (set_current (Some t) (Music.set_queue rest p))
  end.

(** [play()] with no track finds the queue empty, also once a repeated
    current track was put back: lavalink.py then stops the player and
    dispatches a [QueueEndEvent]. *)
Definition skip_ends_queue (p : Player) : bool :=
  match p_repeat p, p_current p, p_queue p with
  | true, Some _, _ => false
  | _, _, [] => true
  | _, _, _ :: _ => false
  end.

Definition voice_update_handler (payload : PyObj) (ps : gmap Z Player)
  : gmap Z Player :=
  match payload with
  | PyDict [("t", PyStr "VOICE_STATE_UPDATE"); ("d", PyDict d)] =>
      match dict_get d "guild_id", dict_get d "channel_id" with
      | Some (PyInt g), Some (PyInt c) => alter (set_channel (Some c)) g ps
      | Some (PyInt g), Some PyNone => alter (set_channel None) g ps
      | _, _ => ps
      end
  | _ => ps
  end.

(** Whole seconds, for the examples. *)
Definition format_time (ms : Z) : string := Py.str_of_Z (ms / 1000) +:+ "s".

Definition glyph_name (g : Glyph) : string :=
  match g with
  | GPause => ":pause:" | GResume => ":resume:" | GSpeaker => ":speaker:"
  | GRepeat => ":repeat:" | GCross => ":x:" | GLive => ":red_circle:"
  | GSkip => ":skip:" | GShuffle => ":shuffle:" | GKeycap => ":keycap:"
  | GZeroWidth => ":zwsp:"
  end.

Definition services (node : string -> option LoadResult)
    (genius : string -> Res (option Song)) : Services :=
  {| lv_new_player := fun _ _ => new_player;
     lv_is_connected := is_connected;
     lv_is_playing := is_playing;
     lv_add := add;
     lv_play := play_head;
     lv_set_pause := set_pause;
     lv_set_volume := set_volume;
     lv_set_repeat := set_repeat;
     lv_skip := play_head;
     lv_skip_ends_queue := skip_ends_queue;
     lv_stop := set_current None;
     lv_store := store;
     lv_voice_update_handler := voice_update_handler;
     lv_format_time := format_time;
     node_get_tracks := node;
     genius_search_song := genius;
     sp_track := fun _ => None;
     sp_playlist_items := fun _ => None;
     reply_int := fun _ => Ok 1;
     glyph := glyph_name |}.

Definition track (title : string) (length : Z) : RawTrack :=
  {| rt_track := "id:" +:+ title; rt_title := title; rt_author := "someone";
     rt_uri := "https://example.org/" +:+ title; rt_length := length;
     rt_isStream := false |}.

Definition queued (title : string) (length : Z) : AudioTrack :=
  {| at_data := track title length; at_requester := 7; at_recommended := false |}.

Definition guild : Guild :=
  {| g_id := 1; g_region := "europe"; g_me_top_role_colour := 255 |}.

Definition channel : VoiceChannel :=
  {| vc_id := 20; vc_connect := true; vc_speak := true |}.

Definition member (activities : list Activity) : Member :=
  {| m_id := 7; m_voice := Some (Some channel); m_activities := activities;
     m_color := 3 |}.

Definition ctx : Context :=
  {| ctx_guild := Some guild; ctx_author := member []; ctx_channel_id := 30 |}.

(** A world whose only player, of guild 1, is connected to channel 20. *)
Definition world (queue : list AudioTrack) (current : option AudioTrack)
    (lyricstitle : option string) : World :=
  {| players :=
       {[ 1 := {| p_channel_id := Some 20; p_queue := queue;
                  p_current := current; p_paused := false; p_volume := 100;
                  p_repeat := false; p_shuffle := false; p_position := 0;
                  p_stored := [] |} ]};
     voice_clients := {[ 1 := 20 ]};
     g_spotify := Some false;
     g_lyricstitle := lyricstitle;
     g_spotifylyrics := None;
     trace := [] |}.

Definition no_node : string -> option LoadResult := fun _ => None.
Definition no_genius : string -> Res (option Song) := fun _ => Ok None.

End Reference.

(** ** Concrete inputs *)

Module Examples.
Import Reference.

Definition found (title : string) : LoadResult :=
  {| loadType := "SEARCH_RESULT";
     tracks := [track title 1000; track "other" 2000];
     playlistInfo_name := "" |}.

(** A node that knows one song. *)
Definition node_song (q : string) : option LoadResult :=
  if bool_decide (q = "ytsearch:Song Artist") then Some (found "Song") else None.

Definition S0 : Services := services node_song no_genius.

Definition player0 (queue : list AudioTrack) (current : option AudioTrack)
  : Player :=
  {| p_channel_id := Some 20; p_queue := queue; p_current := current;
     p_paused := false; p_volume := 100; p_repeat := false;
     p_shuffle := false; p_position := 0; p_stored := [] |}.

Definition believer : AudioTrack := queued "Imagine Dragons Believer lyrics" 1000.

Definition twelve : list AudioTrack :=
  map (fun i => queued ("t" +:+ Py.str_of_Z i) (i * 1000))
      [1; 2; 3; 4; 5; 6; 7; 8; 9; 10; 11; 12].

Definition two_statuses : Member :=
  member [Spotify "Song" "Artist"; Spotify "Unknown" "Nobody"].

Definition one_status : Member :=
  member [OtherActivity "game"; Spotify "Song" "Artist"].

Definition no_result : Member :=
  member [OtherActivity "game"; Spotify "Unknown" "Nobody"].

(** The player of a second guild, connected to channel 40 with a track
    queued. *)
Definition elsewhere : Player :=
  {| p_channel_id := Some 40; p_queue := [believer]; p_current := None;
     p_paused := false; p_volume := 30; p_repeat := false;
     p_shuffle := false; p_position := 0; p_stored := [] |}.

(** Two guilds: guild 1 plays its last track, guild 2 holds [elsewhere]. *)
Definition two_guilds : World :=
  {| players := {[ 1 := player0 [] (Some believer); 2 := elsewhere ]};
     voice_clients := {[ 1 := 20; 2 := 40 ]};
     g_spotify := Some false; g_lyricstitle := None;
     g_spotifylyrics := None; trace := [] |}.

End Examples.

(** ** Vocabulary of the statements *)

(** A word: not empty, no whitespace. *)
Fixpoint no_space (s : string) : bool :=
  match s with
  | EmptyString => true
  | String c s' => negb (Py.isspace c) && no_space s'
  end.

Definition is_word (w : string) : Prop := w <> "" /\ no_space w = true.

(** The world [w] with the table of players [ps] and the calls [evs]
    made. *)
Definition stepped (w : World) (ps : gmap Z Player) (evs : list Event) : World :=
  {| players := ps; voice_clients := voice_clients w;
     g_spotify := g_spotify w; g_lyricstitle := g_lyricstitle w;
     g_spotifylyrics := g_spotifylyrics w; trace := trace w ++ evs |}.

Section Vocabulary.

Context (S : Services).

Definition apply_calls (cs : list PlayerCall) (p : Player) : Player :=
  fold_left (fun p c => apply_call S c p) cs p.

(** The [player.add] calls that a non-empty result leads to. *)
Definition enqueue_calls (ctx : Context) (r : LoadResult) : list PlayerCall :=
  if bool_decide (loadType r = "PLAYLIST_LOADED")
  then map (fun t => CAdd (Music.author_id ctx) (Dict t)) (tracks r)
  else match tracks r with
       | t :: _ =>
           [CAdd (Music.author_id ctx)
              (Built {| at_data := t; at_requester := Music.author_id ctx;
                        at_recommended := true |})]
       | [] => []
       end.

(** The reply to a non-empty result. *)
Definition enqueue_embed (ctx : Context) (r : LoadResult) : Embed :=
  if bool_decide (loadType r = "PLAYLIST_LOADED")
  then {| e_title := Some "Playlist Enqueued!";
          e_description :=
            playlistInfo_name r +:+ " - "
            +:+ Py.str_of_Z (Z.of_nat (length (tracks r))) +:+ " tracks";
          e_colour := Blurple; e_fields := []; e_footer := None |}
  else match tracks r with
       | t :: _ =>
           {| e_title := Some "Track Enqueued";
              e_description := "[" +:+ rt_title t +:+ "](" +:+ rt_uri t +:+ ")";
              e_colour := Blurple; e_fields := []; e_footer := None |}
       | [] => Music.blank_embed
       end.

Definition is_spotify (a : Activity) : bool :=
  match a with Spotify _ _ => true | OtherActivity _ => false end.

(** The reply of [playuser] to an activity that is not a Spotify one. *)
Definition make_sure : string :=
  "Make sure this user has connected discord with spotify and displays their song as a status.".

(** The query of [playuser] for a Spotify activity. *)
Definition mirror_query (title artist : string) : string :=
  if url_rx_match (title +:+ " " +:+ artist)
  then title +:+ " " +:+ artist
  else "ytsearch:" +:+ title +:+ " " +:+ artist.

(** A lookup forwarded to the audio node is the query of one of the Spotify
    activities [acts]. *)
Definition forwards_mirror (acts : list Activity) (e : Event) : Prop :=
  match e with
  | NodeGetTracks q =>
      exists t a, Spotify t a ∈ acts /\ q = mirror_query t a
  | _ => True
  end.

(** A lyrics search is for the title of one of the Spotify activities. *)
Definition searches_title (acts : list Activity) (e : Event) : Prop :=
  match e with
  | GeniusSearch q => exists t a, Spotify t a ∈ acts /\ q = t
  | _ => True
  end.

(** The words of a title that [lyrics] keeps. *)
Definition kept_words (title : string) : list string :=
  filter (fun word => word ∉ Music.stopwords) (Py.split title).

(** The first [n] words, two spaces apart, when there are that many. *)
Definition first_words (n : nat) (ws : list string) : option string :=
  if (n <=? length ws)%nat then Some (Py.join "  " (take n ws)) else None.

(** The longest truncation among 6, 5, 4, 3 and 2 words. *)
Definition truncated (ws : list string) : option string :=
  match first_words 6 ws with
  | Some s => Some s
  | None =>
      match first_words 5 ws with
      | Some s => Some s
      | None =>
          match first_words 4 ws with
          | Some s => Some s
          | None =>
              match first_words 3 ws with
              | Some s => Some s
              | None => first_words 2 ws
              end
          end
      end
  end.

(** The search with the stored play query does not produce lyrics: the
    global is unbound, the search raises, or it finds nothing. *)
Definition first_search_fails (w : World) : Prop :=
  match g_lyricstitle w with
  | None => True
  | Some search =>
      match genius_search_song S search with
      | Ok (Some _) => False
      | Ok None | Raise _ => True
      end
  end.

(** The embed of [queue] for the listed tracks and their total time. *)
Definition queue_embed (gd : Guild) (n page : Z)
    (listed : list (Z * AudioTrack)) (queuetime : string) : Embed :=
  {| e_title := None;
     e_description :=
       "**" +:+ Py.str_of_Z n +:+ " tracks**" +:+ nl
       +:+ "total queue time = " +:+ queuetime +:+ nl +:+ nl
       +:+ Music.queue_lines listed;
     e_colour := ColourValue (g_me_top_role_colour gd);
     e_fields := [];
     e_footer := Some ("Viewing page " +:+ Py.str_of_Z page +:+ "/"
                       +:+ Py.str_of_Z (Music.pages_of n)) |}.

(** What a player keeps across a pause or a resume. *)
Definition same_but_paused (p p' : Player) : Prop :=
  p_queue p' = p_queue p
  /\ p_current p' = p_current p
  /\ p_volume p' = p_volume p
  /\ p_repeat p' = p_repeat p
  /\ p_shuffle p' = p_shuffle p.

(** [frame g w w']: outside guild [g], the players and the voice clients
    of [w'] are those of [w]. *)
Definition frame (g : Z) (w w' : World) : Prop :=
  forall k, k <> g ->
    players w' !! k = players w !! k
    /\ voice_clients w' !! k = voice_clients w !! k.

(** [extends P w w']: the trace of [w'] is that of [w] followed by calls
    that all satisfy [P]. *)
Definition extends (P : Event -> Prop) (w w' : World) : Prop :=
  exists evs, trace w' = trace w ++ evs /\ Forall P evs.

(** A call that, when it names a guild, names [g]. *)
Definition calls_on (g : Z) (e : Event) : Prop :=
  match e with
  | OnPlayer k _ | ChangeVoiceState k _ _ _ | Cleanup k => k = g
  | _ => True
  end.

(** A computation that stays within guild [g] and only makes calls
    satisfying [P]. *)
Definition within (g : Z) (P : Event -> Prop) {A} (m : M A) : Prop :=
  forall w, frame g w (m w).2 /\ extends P w (m w).2.

(** [agree g w1 w2]: the two worlds differ at most in what they hold for
    guilds other than [g]. *)
Definition agree (g : Z) (w1 w2 : World) : Prop :=
  players w1 !! g = players w2 !! g
  /\ voice_clients w1 !! g = voice_clients w2 !! g
  /\ g_spotify w1 = g_spotify w2
  /\ g_lyricstitle w1 = g_lyricstitle w2
  /\ g_spotifylyrics w1 = g_spotifylyrics w2
  /\ trace w1 = trace w2.

(** A computation whose outcome depends on no guild but [g]. *)
Definition reads_only (g : Z) {A} (m : M A) : Prop :=
  forall w1 w2, agree g w1 w2 ->
    (m w1).1 = (m w2).1 /\ agree g (m w1).2 (m w2).2.

End Vocabulary.

(** ** Vocabulary of further statements *)

(** A text that [url_rx] matches: [http://] or [https://] and then a
    character that is not a newline. *)
Definition is_url (s : string) : Prop :=
  exists c rest,
    c <> ascii_of_nat 10
    /\ (s = "http://" +:+ String c rest \/ s = "https://" +:+ String c rest).

(** The stop words of [lyrics] that a word of a title can be equal to. *)
Definition single_stopwords : list string :=
  ["(Lyrics)"; "Official"; "Video"; "lyrics"].

(** The first and the last character of a text are outside [chars]. *)
Definition first_outside (chars s : string) : bool :=
  match s with
  | EmptyString => false
  | String c _ => negb (Py.mem_char c chars)
  end.

Fixpoint last_outside (chars s : string) : bool :=
  match s with
  | EmptyString => false
  | String c EmptyString => negb (Py.mem_char c chars)
  | String _ s' => last_outside chars s'
  end.

(** The query that one item of a Spotify playlist answer gives in the loop
    of [play]; [None] when the item has no track id, when [sp.track] raises
    for it or when the track has no artist. *)
Definition item_query (S : Services) (item : option string) : option string :=
  match item with
  | Some songs => sp_track S songs ≫= Music.sp_query
  | None => None
  end.

(** The player that [ensure_voice] finds or makes for the guild, and the
    world once it is there. *)
Definition player_of (S : Services) (gd : Guild) (w : World) : Player :=
  match players w !! g_id gd with
  | Some p => p
  | None => lv_new_player S (g_id gd) (Some (g_region gd))
  end.

Definition with_player (S : Services) (gd : Guild) (w : World) : World :=
  stepped w (<[g_id gd := player_of S gd w]> (players w)) [].

(** The commands that [ensure_voice] lets connect the bot. *)
Definition connects (c : Music.Command) : bool :=
  match c with
  | Music.Join | Music.Play _ | Music.PlayUser _ => true
  | _ => false
  end.

(** The author of the command is in no voice channel. *)
Definition outside_voice (ctx : Context) : Prop :=
  match m_voice (ctx_author ctx) with
  | None | Some None => True
  | Some (Some _) => False
  end.

(** A player without a channel. *)
Definition unplugged (p : Player) : Player :=
  {| p_channel_id := None; p_queue := p_queue p; p_current := p_current p;
     p_paused := p_paused p; p_volume := p_volume p; p_repeat := p_repeat p;
     p_shuffle := p_shuffle p; p_position := p_position p;
     p_stored := p_stored p |}.

(** The world [w] with the players [ps], the voice clients [vs] and the
    calls [evs] made. *)
Definition moved (w : World) (ps : gmap Z Player) (vs : gmap Z Z)
    (evs : list Event) : World :=
  {| players := ps; voice_clients := vs;
     g_spotify := g_spotify w; g_lyricstitle := g_lyricstitle w;
     g_spotifylyrics := g_spotifylyrics w; trace := trace w ++ evs |}.

(** No player and no voice client differs. *)
Definition same_players (w w' : World) : Prop :=
  players w' = players w /\ voice_clients w' = voice_clients w.

(** The three module globals are the same. *)
Definition same_globals (w w' : World) : Prop :=
  g_spotify w' = g_spotify w
  /\ g_lyricstitle w' = g_lyricstitle w
  /\ g_spotifylyrics w' = g_spotifylyrics w.

(** A computation that keeps the relation [R] between the world it starts
    in and the world it ends in. *)
Definition keeps (R : World -> World -> Prop) {A} (m : M A) : Prop :=
  forall w, R w (m w).2.

(** The commands whose handler reads the player of [ctx.guild]. *)
Definition reads_guild (c : Music.Command) : bool :=
  match c with
  | Music.Join | Music.LyricsUser _ => false
  | _ => true
  end.

(** The world after the handler of [c] failed on [ctx.guild.id]: [playuser]
    has bound [spotify] by then. *)
Definition failed_outside (c : Music.Command) (w : World) : World :=
  {| players := players w; voice_clients := voice_clients w;
     g_spotify := match c with
                  | Music.PlayUser _ => Some true
                  | _ => g_spotify w
                  end;
     g_lyricstitle := g_lyricstitle w; g_spotifylyrics := g_spotifylyrics w;
     trace := trace w ++ [SendException AttributeError] |}.

(** The lyrics service finds the song of a Spotify activity. *)
Definition song_found (S : Services) (activity : Activity) : Prop :=
  match activity with
  | Spotify title _ => exists s, genius_search_song S title = Ok (Some s)
  | OtherActivity _ => True
  end.

(** What [lyricsuser] does for an activity whose song is found. *)
Definition lyricsuser_events (S : Services) (activity : Activity) : list Event :=
  match activity with
  | Spotify title _ =>
      match genius_search_song S title with
      | Ok (Some s) =>
          [GeniusSearch title; Typing;
           SendEmbed (Music.lyrics_embed title (song_lyrics s))]
      | _ => []
      end
  | OtherActivity _ => []
  end.

(** ** Further concrete inputs *)

Module FurtherExamples.
Import Reference Examples.

(** Spotify resolves every id but 'mix', which names a playlist. *)
Definition sp_track1 (id : string) : option SpTrack :=
  if bool_decide (id = "mix") then None
  else Some {| sp_name := id; sp_artists := ["Artist"] |}.

Definition with_spotify (items : list (option string)) : Services :=
  {| lv_new_player := lv_new_player S0;
     lv_is_connected := lv_is_connected S0;
     lv_is_playing := lv_is_playing S0;
     lv_add := lv_add S0;
     lv_play := lv_play S0;
     lv_set_pause := lv_set_pause S0;
     lv_set_volume := lv_set_volume S0;
     lv_set_repeat := lv_set_repeat S0;
     lv_skip := lv_skip S0;
     lv_skip_ends_queue := lv_skip_ends_queue S0;
     lv_stop := lv_stop S0;
     lv_store := lv_store S0;
     lv_voice_update_handler := lv_voice_update_handler S0;
     lv_format_time := lv_format_time S0;
     node_get_tracks := node_get_tracks S0;
     genius_search_song := genius_search_song S0;
     sp_track := sp_track1;
     sp_playlist_items :=
       fun q => if bool_decide (q = "mix") then Some items else None;
     reply_int := reply_int S0;
     glyph := glyph S0 |}.

Definition three_items : list (option string) := [Some "a"; Some "b"; Some "c"].

Definition fifty_items : list (option string) :=
  replicate 49 (Some "a") ++ [Some "z"].

Definition author_in (voice : option (option VoiceChannel)) : Context :=
  {| ctx_guild := Some guild;
     ctx_author := {| m_id := 7; m_voice := voice; m_activities := [];
                      m_color := 3 |};
     ctx_channel_id := 30 |}.

Definition other_channel : VoiceChannel :=
  {| vc_id := 21; vc_connect := true; vc_speak := true |}.

(** No player, no voice client, no global bound. *)
Definition fresh : World :=
  {| players := ∅; voice_clients := ∅; g_spotify := None;
     g_lyricstitle := None; g_spotifylyrics := None; trace := [] |}.

(** The reference world in Spotify mode, or with [spotify] unbound. *)
Definition in_mode (spotify : option bool) (spotifylyrics : option string)
  : World :=
  {| players := players (world [] (Some believer) None);
     voice_clients := {[ 1 := 20 ]};
     g_spotify := spotify; g_lyricstitle := None;
     g_spotifylyrics := spotifylyrics; trace := [] |}.

Definition three_queued : list AudioTrack :=
  [queued "t1" 1000; queued "t2" 2000; queued "t3" 3000].

Definition no_speak : VoiceChannel :=
  {| vc_id := 22; vc_connect := true; vc_speak := false |}.

(** A command sent outside a guild. *)
Definition direct_message : Context :=
  {| ctx_guild := None; ctx_author := member []; ctx_channel_id := 31 |}.

(** A lyrics service that knows one song. *)
Definition genius_song (q : string) : Res (option Song) :=
  if bool_decide (q = "Song")
  then Ok (Some {| song_str := "Song by Artist"; song_lyrics := "la la" |})
  else Ok None.

Definition S1 : Services := services node_song genius_song.

Definition three_statuses : Member :=
  member [OtherActivity "game"; Spotify "Song" "Artist";
          Spotify "Unknown" "Nobody"; Spotify "Song" "Artist"].

End FurtherExamples.

(** ** Facts about [split] and [join] *)

Module PyFacts.
Import Py.

Lemma app_cons c (s t : string) : String c s +:+ t = String c (s +:+ t).
Proof. reflexivity. Qed.

Lemma app_empty_l (s : string) : "" +:+ s = s.
Proof. reflexivity. Qed.

Lemma app_empty_r (s : string) : s +:+ "" = s.
Proof.
  induction s as [|c s IH]; [reflexivity |]. now rewrite app_cons, IH.
Qed.

Lemma app_assoc (a b c : string) : (a +:+ b) +:+ c = a +:+ (b +:+ c).
Proof.
  induction a as [|x a IH]; [reflexivity |]. now rewrite !app_cons, IH.
Qed.

Lemma no_space_app a b : no_space (a +:+ b) = no_space a && no_space b.
Proof.
  induction a as [|x a IH]; [reflexivity |].
  rewrite app_cons. simpl. rewrite IH. now rewrite andb_assoc.
Qed.

Lemma is_empty_false s : s <> "" -> is_empty s = false.
Proof. destruct s; [congruence | reflexivity]. Qed.

(** Reading a whitespace-free run only extends the current word. *)
Lemma split_from_word cur w rest :
  no_space w = true ->
  split_from cur (w +:+ rest) = split_from (cur +:+ w) rest.
Proof.
  revert cur. induction w as [|c w IH]; intros cur Hw.
  - now rewrite app_empty_l, app_empty_r.
  - simpl in Hw. apply andb_true_iff in Hw as [Hc Hw].
    apply negb_true_iff in Hc. rewrite app_cons. simpl.
    rewrite Hc, IH by assumption.
    now rewrite app_assoc.
Qed.

Lemma split_from_space cur rest :
  cur <> "" ->
  split_from cur (" " +:+ rest) = cur :: split_from "" rest.
Proof.
  intros H. rewrite app_cons, app_empty_l. simpl.
  now rewrite (is_empty_false cur H).
Qed.

(** [' '.join(ws).split()] gives [ws] back when the [ws] are words: this is
    why the words of the cleaned title are the kept words of the title. *)
Lemma split_join ws : Forall is_word ws -> split (join " " ws) = ws.
Proof.
  unfold split. induction 1 as [|w ws [Hne Hw] Hws IH]; [reflexivity |].
  destruct ws as [|w' ws'].
  - simpl. rewrite <- (app_empty_r w) at 1.
    rewrite split_from_word by assumption. rewrite app_empty_l. simpl.
    now rewrite (is_empty_false w Hne).
  - change (join " " (w :: w' :: ws')) with (w +:+ " " +:+ join " " (w' :: ws')).
    rewrite split_from_word by assumption.
    rewrite app_empty_l, split_from_space by assumption.
    now rewrite IH.
Qed.

Lemma split_from_words cur s :
  no_space cur = true -> Forall is_word (split_from cur s).
Proof.
  revert cur. induction s as [|c s IH]; intros cur Hcur; simpl.
  - destruct cur; simpl; constructor; [split; [discriminate | assumption] | constructor].
  - destruct (isspace c) eqn:Hc.
    + destruct cur; simpl.
      * now apply IH.
      * constructor; [split; [discriminate | assumption] | now apply IH].
    + apply IH. rewrite no_space_app, Hcur. simpl. now rewrite Hc.
Qed.

Lemma split_words s : Forall is_word (split s).
Proof. now apply split_from_words. Qed.

End PyFacts.

(** ** Running a handler: equations for the basic steps *)

Section Run.

Context (S : Services).

Lemma stepped_id w : stepped w (players w) [] = w.
Proof. destruct w. unfold stepped. simpl. now rewrite app_nil_r. Qed.

Lemma stepped_stepped w ps evs ps' evs' :
  stepped (stepped w ps evs) ps' evs' = stepped w ps' (evs ++ evs').
Proof. unfold stepped. simpl. now rewrite <- app_assoc. Qed.

Lemma alter_present (f : Player -> Player) k p (ps : gmap Z Player) :
  ps !! k = Some p -> alter f k ps = <[k := f p]> ps.
Proof.
  intros H. apply map_eq. intros i. destruct (decide (i = k)) as [->|Hne].
  - rewrite lookup_alter_eq, lookup_insert_eq, H. reflexivity.
  - rewrite lookup_alter_ne, lookup_insert_ne by congruence. reflexivity.
Qed.

Lemma bind_ok {A B} (m : M A) (f : A -> M B) w a w' :
  m w = (Ok a, w') -> (m ≫= f) w = f a w'.
Proof. intros H. unfold mbind, M_bind. now rewrite H. Qed.

Lemma bind_raise {A B} (m : M A) (f : A -> M B) w e w' :
  m w = (Raise e, w') -> (m ≫= f) w = (Raise e, w').
Proof. intros H. unfold mbind, M_bind. now rewrite H. Qed.

Lemma ret_run {A} (a : A) w : (mret a : M A) w = (Ok a, w).
Proof. reflexivity. Qed.

Lemma set_spotify_run b w : set_spotify b w = (Ok tt, (set_spotify b w).2).
Proof. reflexivity. Qed.

Lemma set_lyricstitle_run s w :
  set_lyricstitle s w = (Ok tt, (set_lyricstitle s w).2).
Proof. reflexivity. Qed.

Lemma set_spotifylyrics_run s w :
  set_spotifylyrics s w = (Ok tt, (set_spotifylyrics s w).2).
Proof. reflexivity. Qed.

Lemma guild_id_run ctx g w :
  ctx_guild ctx = Some g -> guild_id ctx w = (Ok (g_id g), w).
Proof. intros H. unfold guild_id. now rewrite H. Qed.

Lemma emit_run e w : emit e w = (Ok tt, stepped w (players w) [e]).
Proof. reflexivity. Qed.

Lemma attr_run {A} k (f : Player -> A) w p :
  players w !! k = Some p -> attr (Some k) f w = (Ok (f p), w).
Proof. intros H. unfold attr. now rewrite H. Qed.

Lemma on_player_run k c w p :
  players w !! k = Some p ->
  on_player S (Some k) c w
  = (Ok tt, stepped w (<[k := apply_call S c p]> (players w)) [OnPlayer k c]).
Proof.
  intros H. unfold on_player, mbind, M_bind. rewrite (attr_run k _ w p H).
  unfold emit, set_players, stepped. simpl.
  now rewrite (alter_present _ k p _ H).
Qed.

Lemma player_manager_get_run k w p :
  players w !! k = Some p -> player_manager_get k w = (Ok (Some k), w).
Proof. intros H. unfold player_manager_get. now rewrite H. Qed.

Lemma get_tracks_run k q w p :
  players w !! k = Some p ->
  get_tracks S (Some k) q w
  = (Ok (node_get_tracks S q), stepped w (players w) [NodeGetTracks q]).
Proof.
  intros H. unfold get_tracks.
  rewrite (bind_ok _ _ _ _ _ (attr_run _ _ _ _ H)).
  now rewrite (bind_ok _ _ _ _ _ (emit_run _ _)).
Qed.

Lemma search_song_run q w :
  search_song S q w
  = (genius_search_song S q, stepped w (players w) [GeniusSearch q]).
Proof. reflexivity. Qed.

Lemma for_each_add_run k author (ts : list RawTrack) : forall w p,
  players w !! k = Some p ->
  for_each ts (fun track => on_player S (Some k) (CAdd author (Dict track))) w
  = (Ok tt,
     stepped w
       (<[k := apply_calls S (map (fun t => CAdd author (Dict t)) ts) p]> (players w))
       (map (fun t => OnPlayer k (CAdd author (Dict t))) ts)).
Proof.
  induction ts as [|t ts IH]; intros w p Hp.
  - unfold apply_calls. simpl. rewrite (insert_id _ _ _ Hp).
    now rewrite stepped_id.
  - cbn [for_each].
    rewrite (bind_ok _ _ _ _ _ (on_player_run _ _ _ _ Hp)).
    rewrite (IH _ (apply_call S (CAdd author (Dict t)) p))
      by (simpl; apply lookup_insert_eq).
    rewrite stepped_stepped. simpl. now rewrite insert_insert_eq.
Qed.

Lemma enqueue_run ctx k r w p :
  tracks r <> [] ->
  players w !! k = Some p ->
  Music.enqueue S ctx (Some k) r w
  = (Ok (enqueue_embed ctx r),
     stepped w (<[k := apply_calls S (enqueue_calls ctx r) p]> (players w))
       (map (OnPlayer k) (enqueue_calls ctx r))).
Proof.
  intros Ht Hp. unfold Music.enqueue, enqueue_embed, enqueue_calls.
  destruct (bool_decide (loadType r = "PLAYLIST_LOADED")).
  - rewrite (bind_ok _ _ _ _ _ (for_each_add_run _ _ _ _ _ Hp)).
    now rewrite map_map.
  - destruct (tracks r) as [|t ts]; [congruence |].
    unfold subscript. change (Py.index (t :: ts) 0) with (Some t).
    rewrite (bind_ok _ _ _ _ _ (ret_run t w)).
    rewrite (bind_ok _ _ _ _ _ (on_player_run _ _ _ _ Hp)). reflexivity.
Qed.

(** C4: on a successful lookup [play] adds every track of a playlist, in
    result order, or else exactly the first track of the result, titles its
    reply accordingly, and calls [player.play()] only when the player is not
    playing once the tracks are added. *)
Theorem play_enqueues (ctx : Context) (g : Guild) (w : World) (p : Player)
    (query : string) (r : LoadResult) :
  ctx_guild ctx = Some g ->
  players w !! g_id g = Some p ->
  node_get_tracks S (Music.play_query S (Py.strip "<>" query)) = Some r ->
  tracks r <> [] ->
  let q := Music.play_query S (Py.strip "<>" query) in
  let calls := enqueue_calls ctx r in
  let p1 := apply_calls S calls p in
  let playing := lv_is_playing S p1 in
  let '(res, w') := Music.play S ctx query w in
  res = Ok tt
  /\ calls = (if bool_decide (loadType r = "PLAYLIST_LOADED")
              then map (fun t => CAdd (Music.author_id ctx) (Dict t)) (tracks r)
              else map (fun t => CAdd (Music.author_id ctx)
                                   (Built {| at_data := t;
                                             at_requester := Music.author_id ctx;
                                             at_recommended := true |}))
                       (take 1 (tracks r)))
  /\ e_title (enqueue_embed ctx r)
     = Some (if bool_decide (loadType r = "PLAYLIST_LOADED")
             then "Playlist Enqueued!" else "Track Enqueued")
  /\ trace w'
     = trace w ++ NodeGetTracks q :: map (OnPlayer (g_id g)) calls
         ++ SendEmbed (enqueue_embed ctx r)
         :: (if playing then [] else [OnPlayer (g_id g) CPlay])
  /\ players w'
     = <[g_id g := if playing then p1 else lv_play S p1]> (players w).
Proof.
  intros Hg Hp Hnode Ht q calls p1 playing. unfold Music.play.
  rewrite (bind_ok _ _ _ _ _ (guild_id_run _ _ _ Hg)).
  rewrite (bind_ok _ _ _ _ _ (player_manager_get_run _ _ _ Hp)).
  rewrite (bind_ok _ _ _ _ _ (set_spotify_run false w)).
  set (w0 := (set_spotify false w).2).
  assert (Hp0 : players w0 !! g_id g = Some p) by exact Hp.
  rewrite (bind_ok _ _ _ _ _ (get_tracks_run _ _ _ _ Hp0)).
  rewrite !Hnode.
  assert (Hnf : Music.nothing_found (Some r) = false)
    by (unfold Music.nothing_found; destruct (tracks r); congruence).
  rewrite Hnf. fold q.
  set (w1 := stepped w0 _ _).
  assert (Hp1 : players w1 !! g_id g = Some p) by exact Hp.
  rewrite (bind_ok _ _ _ _ _ (enqueue_run ctx _ r _ p Ht Hp1)).
  fold calls p1.
  rewrite (bind_ok _ _ _ _ _ (emit_run _ _)), stepped_stepped.
  rewrite (bind_ok _ _ _ _ _ (set_lyricstitle_run _ _)).
  match goal with |- context [(_ ≫= _) ?w1] => set (w2 := w1) end.
  assert (Hp2 : players w2 !! g_id g = Some p1)
    by (simpl; apply lookup_insert_eq).
  rewrite (bind_ok _ _ _ _ _ (attr_run _ _ _ _ Hp2)).
  fold playing.
  assert (Hcalls : calls =
    (if bool_decide (loadType r = "PLAYLIST_LOADED")
     then map (fun t => CAdd (Music.author_id ctx) (Dict t)) (tracks r)
     else map (fun t => CAdd (Music.author_id ctx)
                          (Built {| at_data := t;
                                    at_requester := Music.author_id ctx;
                                    at_recommended := true |}))
              (take 1 (tracks r)))).
  { unfold calls, enqueue_calls.
    destruct (bool_decide _); [reflexivity |]. now destruct (tracks r). }
  assert (Htitle : e_title (enqueue_embed ctx r)
     = Some (if bool_decide (loadType r = "PLAYLIST_LOADED")
             then "Playlist Enqueued!" else "Track Enqueued")).
  { unfold enqueue_embed.
    destruct (bool_decide _); [reflexivity |].
    destruct (tracks r); [congruence | reflexivity]. }
  destruct playing; cbn [negb];
    [rewrite ret_run | rewrite (on_player_run _ _ _ _ Hp2)];
    (split; [reflexivity |]); (split; [exact Hcalls |]);
    (split; [exact Htitle |]); split; simpl;
    rewrite <- ?app_assoc, ?insert_insert_eq; simpl; rewrite ?app_nil_r;
    reflexivity.
Qed.

Lemma send_run s w : Music.send s w = (Ok tt, stepped w (players w) [Send s]).
Proof. reflexivity. Qed.

(** Activities that are not Spotify ones only make the loop of [playuser]
    reply. *)
Lemma playuser_skips_others ctx r pre rest : forall w,
  Forall (fun a => is_spotify a = false) pre ->
  for_each_until (pre ++ rest) (Music.playuser_activity S ctx r) w
  = for_each_until rest (Music.playuser_activity S ctx r)
      (stepped w (players w) (map (fun _ => Send make_sure) pre)).
Proof.
  induction pre as [|a pre IH]; intros w Hpre.
  - simpl. now rewrite stepped_id.
  - inversion Hpre as [|? ? Ha Hpre']; subst.
    destruct a as [t a|n]; [discriminate |].
    change (for_each_until ((OtherActivity n :: pre) ++ rest)
              (Music.playuser_activity S ctx r) w)
      with ((Music.send make_sure;; mret false) ≫=
              (fun returned : bool =>
                 if returned then mret tt
                 else for_each_until (pre ++ rest)
                        (Music.playuser_activity S ctx r)) $ w).
    unfold mbind, M_bind. rewrite send_run. rewrite ret_run.
    rewrite IH by assumption. now rewrite stepped_stepped.
Qed.

Lemma mirror_query_run t a w :
  exists w1,
    (if negb (url_rx_match (t +:+ " " +:+ a))
     then set_spotifylyrics ("ytsearch:" +:+ t +:+ " " +:+ a);;
          mret ("ytsearch:" +:+ t +:+ " " +:+ a)
     else mret (t +:+ " " +:+ a)) w = (Ok (mirror_query t a), w1)
    /\ players w1 = players w /\ voice_clients w1 = voice_clients w
    /\ trace w1 = trace w.
Proof.
  unfold mirror_query. destruct (url_rx_match _); cbn [negb];
    eexists; (split; [reflexivity | repeat split]).
Qed.

(** A Spotify activity whose lookup fails: the reply, and [return]. *)
Lemma playuser_activity_not_found ctx k p t a w :
  players w !! k = Some p ->
  Music.nothing_found (node_get_tracks S (mirror_query t a)) = true ->
  exists w',
    Music.playuser_activity S ctx (Some k) (Spotify t a) w = (Ok true, w')
    /\ players w' = players w
    /\ voice_clients w' = voice_clients w
    /\ trace w' = trace w ++ [NodeGetTracks (mirror_query t a);
                              Send "Nothing found!"].
Proof.
  intros Hp Hnf. unfold Music.playuser_activity. cbv zeta.
  rewrite (bind_ok _ _ _ _ _ (set_spotifylyrics_run _ _)).
  set (w0 := (set_spotifylyrics _ w).2).
  destruct (mirror_query_run t a w0) as (w1 & Hq & Hp1 & Hv1 & Ht1).
  rewrite (bind_ok _ _ _ _ _ Hq).
  assert (Hp1' : players w1 !! k = Some p) by now rewrite Hp1.
  rewrite (bind_ok _ _ _ _ _ (get_tracks_run _ _ _ _ Hp1')).
  destruct (node_get_tracks S (mirror_query t a)) as [r|].
  - rewrite Hnf. rewrite (bind_ok _ _ _ _ _ (send_run _ _)).
    eexists. split; [reflexivity |]. simpl.
    rewrite Hp1, Hv1, Ht1, <- app_assoc. repeat split.
  - rewrite (bind_ok _ _ _ _ _ (send_run _ _)).
    eexists. split; [reflexivity |]. simpl.
    rewrite Hp1, Hv1, Ht1, <- app_assoc. repeat split.
Qed.

(** C9, as amended: [play] is atomic on a failed lookup, and so is
    [playuser] when the failed lookup is that of the member's first Spotify
    activity: the handler replies 'Nothing found!' and returns, with every
    player as it was and no call made on any. *)
Theorem lookup_failure_leaves_player (ctx : Context) (gd : Guild) (w : World)
    (p : Player) :
  ctx_guild ctx = Some gd ->
  players w !! g_id gd = Some p ->
  (forall query,
     Music.nothing_found
       (node_get_tracks S (Music.play_query S (Py.strip "<>" query))) = true ->
     let '(res, w') := Music.play S ctx query w in
     res = Ok tt
     /\ players w' = players w
     /\ trace w' = trace w
          ++ [NodeGetTracks (Music.play_query S (Py.strip "<>" query));
              Send "Nothing found!"])
  /\ (forall member pre t a rest,
        m_activities member = pre ++ Spotify t a :: rest ->
        Forall (fun x => is_spotify x = false) pre ->
        Music.nothing_found (node_get_tracks S (mirror_query t a)) = true ->
        let '(res, w') := Music.playuser S ctx member w in
        res = Ok tt
        /\ players w' = players w
        /\ trace w' = trace w ++ map (fun _ => Send make_sure) pre
             ++ [NodeGetTracks (mirror_query t a); Send "Nothing found!"]).
Proof.
  intros Hg Hp. split.
  - intros query Hnf. unfold Music.play.
    rewrite (bind_ok _ _ _ _ _ (guild_id_run _ _ _ Hg)).
    rewrite (bind_ok _ _ _ _ _ (player_manager_get_run _ _ _ Hp)).
    rewrite (bind_ok _ _ _ _ _ (set_spotify_run false w)).
    set (w0 := (set_spotify false w).2).
    assert (Hp0 : players w0 !! g_id gd = Some p) by exact Hp.
    rewrite (bind_ok _ _ _ _ _ (get_tracks_run _ _ _ _ Hp0)).
    destruct (node_get_tracks S _) as [r|].
    + rewrite Hnf, send_run. simpl. rewrite <- app_assoc. repeat split.
    + rewrite send_run. simpl. rewrite <- app_assoc. repeat split.
  - intros member pre t a rest Hacts Hpre Hnf. unfold Music.playuser.
    rewrite (bind_ok _ _ _ _ _ (set_spotify_run true w)).
    set (w0 := (set_spotify true w).2).
    assert (Hp0 : players w0 !! g_id gd = Some p) by exact Hp.
    rewrite (bind_ok _ _ _ _ _ (guild_id_run _ _ _ Hg)).
    rewrite (bind_ok _ _ _ _ _ (player_manager_get_run _ _ _ Hp0)).
    rewrite Hacts, playuser_skips_others by assumption.
    set (w1 := stepped w0 _ _).
    assert (Hp1 : players w1 !! g_id gd = Some p) by exact Hp.
    destruct (playuser_activity_not_found ctx _ _ t a w1 Hp1 Hnf)
      as (w2 & Hrun & Hps & _ & Htr).
    cbn [for_each_until]. rewrite (bind_ok _ _ _ _ _ Hrun), ret_run.
    split; [reflexivity |]. split; [exact Hps |].
    rewrite Htr. simpl. now rewrite <- app_assoc.
Qed.

(** *** The pages of the queue *)

Lemma match_nonempty {A B} (l : list A) (a b : B) :
  l <> [] -> match l with [] => a | _ :: _ => b end = b.
Proof. destruct l; [congruence | reflexivity]. Qed.

Lemma pages_of_ceil n :
  10 * (Music.pages_of n - 1) < n <= 10 * Music.pages_of n.
Proof.
  unfold Music.pages_of, Music.items_per_page.
  assert (H10 : 0 < 10) by lia.
  pose proof (Z.mul_div_le (- n) 10 H10).
  pose proof (Z.mul_succ_div_gt (- n) 10 H10). lia.
Qed.

Lemma slice_page {A} (q : list A) start :
  0 <= start ->
  Py.slice q start (start + Music.items_per_page)
  = take 10 (drop (Z.to_nat start) q).
Proof.
  intros Hs. unfold Py.slice, Py.clamp, Music.items_per_page.
  destruct (start <? 0) eqn:E1; [lia |].
  destruct (start + 10 <? 0) eqn:E2; [lia |].
  set (n := Z.of_nat (length q)).
  destruct (decide (start + 10 <= n)) as [Hle|Hgt].
  - rewrite !Z.min_r by lia. do 2 f_equal; lia.
  - destruct (decide (start <= n)) as [Hle'|Hgt'].
    + rewrite (Z.min_r n start), (Z.min_l n (start + 10)) by lia.
      rewrite !take_ge; [reflexivity | |]; rewrite length_drop; lia.
    + rewrite !Z.min_l by lia. rewrite !drop_ge by lia.
      now rewrite !take_nil.
Qed.

Lemma enumerate_lookup {A} (l : list A) : forall s j,
  Py.enumerate l s !! j = (fun t => (s + Z.of_nat j, t)) <$> l !! j.
Proof.
  induction l as [|x l IH]; intros s j; [now destruct j |].
  destruct j as [|j]; simpl.
  - now rewrite Z.add_0_r.
  - rewrite IH. destruct (l !! j); simpl; [| reflexivity].
    do 2 f_equal. lia.
Qed.

Lemma enumerate_app {A} (l l' : list A) : forall s,
  Py.enumerate (l ++ l') s
  = Py.enumerate l s ++ Py.enumerate l' (s + Z.of_nat (length l)).
Proof.
  induction l as [|x l IH]; intros s; simpl.
  - now rewrite Z.add_0_r.
  - rewrite IH. do 3 f_equal. lia.
Qed.

(** The first loop of [queue] leaves the time of the last track. *)
Lemma queuetime_of_last (l : list (Z * AudioTrack)) :
  Music.queuetime_of S l
  = (fun it => lv_format_time S (at_duration it.2)) <$> last l.
Proof.
  unfold Music.queuetime_of.
  induction l as [|[i t] l IH] using rev_ind; [reflexivity |].
  rewrite fold_left_app, last_snoc. reflexivity.
Qed.

Lemma last_enumerate {A} (l : list A) s :
  snd <$> last (Py.enumerate l s) = last l.
Proof.
  induction l as [|x l IH] using rev_ind; [reflexivity |].
  rewrite enumerate_app. simpl. now rewrite !last_snoc.
Qed.

(** C10: for a non-empty queue, whenever [queue] replies its embed gives as
    'total queue time' the formatted duration of the last track listed on
    the page, not a sum, and as page count the ceiling of the queue length
    over 10; it replies exactly when the page lists a track, which it does
    for every page from 1 to the page count; and page [p >= 1] lists
    exactly the tracks at queue positions [(p-1)*10] to [p*10-1], each
    labelled (by [queue_lines]) with its position plus one. *)
Theorem queue_page_listing (ctx : Context) (gd : Guild) (w : World)
    (p : Player) (page : Z) :
  ctx_guild ctx = Some gd ->
  players w !! g_id gd = Some p ->
  p_queue p <> [] ->
  let q := p_queue p in
  let n := Z.of_nat (length q) in
  let pages := Music.pages_of n in
  let listed := Py.enumerate (Py.slice q ((page - 1) * 10) ((page - 1) * 10 + 10))
                             ((page - 1) * 10) in
  Music.queue S ctx page w
  = match last listed with
    | Some (_, last_track) =>
        (Ok tt,
         stepped w (players w)
           [SendEmbed
              (queue_embed gd n page listed
                 (lv_format_time S (at_duration last_track)))])
    | None => (Raise (Py UnboundLocalError), w)
    end
  /\ 10 * (pages - 1) < n <= 10 * pages
  /\ (1 <= page <= pages -> listed <> [])
  /\ (1 <= page ->
      forall i t,
        (i, t) ∈ listed
        <-> (page - 1) * 10 <= i <= page * 10 - 1
            /\ q !! Z.to_nat i = Some t).
Proof.
  intros Hg Hp Hq q n pages listed.
  pose proof (pages_of_ceil n) as Hceil. fold pages in Hceil.
  assert (Hmem : 1 <= page -> forall i t,
    (i, t) ∈ listed
    <-> (page - 1) * 10 <= i <= page * 10 - 1 /\ q !! Z.to_nat i = Some t).
  { intros Hpage i t. unfold listed.
    rewrite (slice_page q) by lia. rewrite list_elem_of_lookup. split.
    - intros (j & Hj). rewrite enumerate_lookup in Hj.
      destruct (take 10 _ !! j) as [t'|] eqn:Ht; [| discriminate].
      simpl in Hj. injection Hj as <- <-.
      apply lookup_take_Some in Ht as [Ht Hj10].
      rewrite lookup_drop in Ht.
      split; [lia |]. rewrite <- Ht. f_equal. lia.
    - intros (Hi & Ht). exists (Z.to_nat (i - (page - 1) * 10)).
      rewrite enumerate_lookup, lookup_take_lt by lia.
      rewrite lookup_drop.
      replace (Z.to_nat ((page - 1) * 10) + Z.to_nat (i - (page - 1) * 10))%nat
        with (Z.to_nat i) by lia.
      rewrite Ht. simpl. do 2 f_equal. lia. }
  assert (Hshown : 1 <= page <= pages -> listed <> []).
  { intros Hpage Hnil.
    destruct (lookup_lt_is_Some_2 q (Z.to_nat ((page - 1) * 10))) as [t Ht];
      [unfold pages, n in *; lia |].
    assert (Hl : ((page - 1) * 10, t) ∈ listed)
      by (apply Hmem; [lia |]; split; [lia | exact Ht]).
    rewrite Hnil in Hl. now apply not_elem_of_nil in Hl. }
  split; [| split; [exact Hceil | split; [exact Hshown | exact Hmem]]].
  unfold Music.queue.
  rewrite (bind_ok _ _ _ _ _ (guild_id_run _ _ _ Hg)).
  rewrite (bind_ok _ _ _ _ _ (player_manager_get_run _ _ _ Hp)).
  rewrite (bind_ok _ _ _ _ _ (attr_run _ _ _ _ Hp)).
  rewrite match_nonempty by exact Hq.
  cbv zeta. rewrite Hg.
  rewrite (bind_ok _ _ _ _ _ (ret_run gd w)).
  rewrite queuetime_of_last.
  change Music.items_per_page with 10. fold q. fold listed.
  destruct (last listed) as [[i t]|]; reflexivity.
Qed.

(** *** The fallback chain of [lyrics] *)

Lemma try_ok {A} (m h : M A) w a w' :
  m w = (Ok a, w') -> try_except m h w = (Ok a, w').
Proof. intros H. unfold try_except. now rewrite H. Qed.

Lemma try_raise {A} (m h : M A) w e w' :
  m w = (Raise e, w') -> try_except m h w = h w'.
Proof. intros H. unfold try_except. now rewrite H. Qed.

Lemma current_title_run k p t w :
  players w !! k = Some p -> p_current p = Some t ->
  Music.current_title (Some k) w = (Ok (at_title t), w).
Proof.
  intros Hp Hc. unfold Music.current_title.
  rewrite (bind_ok _ _ _ _ _ (attr_run _ _ _ _ Hp)), Hc. reflexivity.
Qed.

(** The words of the cleaned title are the kept words of the title. *)
Lemma split_clean_title title :
  Py.split (Music.clean_title title) = kept_words title.
Proof.
  unfold Music.clean_title. apply PyFacts.split_join.
  apply Forall_forall. intros x Hx.
  apply list_elem_of_filter in Hx as [_ Hx].
  revert x Hx. apply Forall_forall, PyFacts.split_words.
Qed.

(** The chain composes the longest truncation, or sends the message. *)
Lemma compose_search_run titles w :
  Music.compose_search titles w
  = match truncated (Py.split titles) with
    | Some s => (Ok (Some s), w)
    | None => (Ok None, stepped w (players w) [Send "Lyrics not Found"])
    end.
Proof.
  unfold Music.compose_search, Music.search_6, Music.search_5,
    Music.search_4, Music.search_3, Music.search_2.
  generalize (Py.split titles). intros ws.
  destruct ws as [|a [|b [|c [|d [|e [|f r]]]]]]; reflexivity.
Qed.

Lemma truncated_none ws : truncated ws = None <-> (length ws < 2)%nat.
Proof.
  destruct ws as [|a [|b [|c [|d [|e [|f r]]]]]]; simpl;
    (split; [intros H; try discriminate H; lia | intros H; try reflexivity; lia]).
Qed.

(** C1: with no song argument, Spotify mode off and a first search that
    fails, [lyrics] composes its query from the words of the current title
    that are not stop words: the first 6 of them, else the first 5, 4, 3 or
    2, and sends 'Lyrics not Found' only when there are fewer than two. *)
Theorem lyrics_fallback_chain (ctx : Context) (gd : Guild) (w : World)
    (p : Player) (track : AudioTrack) :
  ctx_guild ctx = Some gd ->
  players w !! g_id gd = Some p ->
  p_current p = Some track ->
  g_spotify w = Some false ->
  first_search_fails S w ->
  let ws := kept_words (at_title track) in
  let titles := Music.clean_title (at_title track) in
  let searched :=
    match g_lyricstitle w with
    | Some search => [GeniusSearch search]
    | None => []
    end in
  Py.split titles = ws
  /\ (forall w0,
        Music.compose_search titles w0
        = match truncated ws with
          | Some search => (Ok (Some search), w0)
          | None =>
              (Ok None, stepped w0 (players w0) [Send "Lyrics not Found"])
          end)
  /\ Music.lyrics S ctx None w
     = (Ok tt,
        stepped w (players w)
          (searched ++ match truncated ws with
                       | Some _ => []
                       | None => [Send "Lyrics not Found"]
                       end))
  /\ (truncated ws = None <-> (length ws < 2)%nat).
Proof.
  intros Hg Hp Hc Hsp Hfail ws titles searched.
  assert (Hws : Py.split titles = ws) by apply split_clean_title.
  split; [exact Hws |].
  split; [intros w0; rewrite compose_search_run, Hws; reflexivity |].
  split; [| apply truncated_none].
  unfold Music.lyrics.
  rewrite (bind_ok _ _ _ _ _ (guild_id_run _ _ _ Hg)).
  rewrite (bind_ok _ _ _ _ _ (player_manager_get_run _ _ _ Hp)).
  assert (Htitles : forall h,
    try_except
      (new ← Music.current_title (Some (g_id gd));
       mret (Music.clean_title new)) h w = (Ok titles, w)).
  { intros h. apply try_ok.
    now rewrite (bind_ok _ _ _ _ _ (current_title_run _ _ _ _ Hp Hc)). }
  rewrite (bind_ok _ _ _ _ _ (Htitles _)).
  assert (Hglobal : global g_spotify w = (Ok false, w))
    by (unfold global; now rewrite Hsp).
  rewrite (bind_ok _ _ _ _ _ Hglobal).
  assert (Hfirst : exists e,
    (search ← global g_lyricstitle;
     lyric ← search_song S search;
     title ← Music.current_title (Some (g_id gd));
     description ← attr_of lyric song_lyrics;
     emit (SendEmbed (Music.lyrics_embed title description))) w
    = (Raise e, stepped w (players w) searched)).
  { unfold first_search_fails in Hfail. unfold searched.
    destruct (g_lyricstitle w) as [search|] eqn:Hl.
    - assert (Hgl : global g_lyricstitle w = (Ok search, w))
        by (unfold global; now rewrite Hl).
      rewrite (bind_ok _ _ _ _ _ Hgl).
      unfold mbind at 1, M_bind at 1. rewrite search_song_run.
      destruct (genius_search_song S search) as [[song|]|e].
      + contradiction.
      + set (w1 := stepped w _ _).
        assert (Hp1 : players w1 !! g_id gd = Some p) by exact Hp.
        rewrite (bind_ok _ _ _ _ _ (current_title_run _ _ _ _ Hp1 Hc)).
        eexists. reflexivity.
      + eexists. reflexivity.
    - assert (Hgl : global g_lyricstitle w = (Raise (Py NameError), w))
        by (unfold global; now rewrite Hl).
      rewrite (bind_raise _ _ _ _ _ Hgl). eexists. now rewrite stepped_id. }
  destruct Hfirst as (e & Hfirst).
  rewrite (try_raise _ _ _ _ _ Hfirst).
  unfold mbind, M_bind. rewrite compose_search_run, Hws.
  destruct (truncated ws); simpl.
  - now rewrite app_nil_r.
  - unfold stepped. simpl. now rewrite <- app_assoc.
Qed.

(** C2: each of the two voice handlers hands the audio client one
    two-field dict, its ['t'] the name of the event and its ['d'] the
    payload as received, and does nothing else. *)
Theorem voice_events_are_relayed (data : PyObj) (w : World) :
  let server := [("t", PyStr "VOICE_SERVER_UPDATE"); ("d", data)] in
  let state := [("t", PyStr "VOICE_STATE_UPDATE"); ("d", data)] in
  LavalinkVoiceClient.on_voice_server_update S data w
  = (Ok tt,
     stepped w (lv_voice_update_handler S (PyDict server) (players w))
       [VoiceUpdateHandler (PyDict server)])
  /\ LavalinkVoiceClient.on_voice_state_update S data w
     = (Ok tt,
        stepped w (lv_voice_update_handler S (PyDict state) (players w))
          [VoiceUpdateHandler (PyDict state)])
  /\ dict_get server "d" = Some data
  /\ dict_get state "d" = Some data
  /\ map fst server = ["t"; "d"]
  /\ map fst state = ["t"; "d"].
Proof. repeat split. Qed.

(** C7: [pause] and [resume] change the player by the call
    [set_pause(True)], respectively [set_pause(False)], and by nothing
    else; so with a [set_pause] that keeps the queue, the current track,
    the volume and the repeat and shuffle flags, both commands keep them. *)
Theorem pause_resume_delegate (ctx : Context) (gd : Guild) (w : World)
    (p : Player) :
  ctx_guild ctx = Some gd ->
  players w !! g_id gd = Some p ->
  (forall b q, same_but_paused q (lv_set_pause S b q)) ->
  Music.pause S ctx w
  = (Ok tt,
     stepped w (<[g_id gd := lv_set_pause S true p]> (players w))
       [OnPlayer (g_id gd) (CSetPause true); AddReaction GPause])
  /\ Music.resume S ctx w
     = (Ok tt,
        stepped w (<[g_id gd := lv_set_pause S false p]> (players w))
          [OnPlayer (g_id gd) (CSetPause false); AddReaction GResume])
  /\ (forall p',
        players (Music.pause S ctx w).2 !! g_id gd = Some p'
        \/ players (Music.resume S ctx w).2 !! g_id gd = Some p' ->
        same_but_paused p p').
Proof.
  intros Hg Hp Hlib.
  assert (Hpause : Music.pause S ctx w
    = (Ok tt,
       stepped w (<[g_id gd := lv_set_pause S true p]> (players w))
         [OnPlayer (g_id gd) (CSetPause true); AddReaction GPause])).
  { unfold Music.pause.
    rewrite (bind_ok _ _ _ _ _ (guild_id_run _ _ _ Hg)).
    rewrite (bind_ok _ _ _ _ _ (player_manager_get_run _ _ _ Hp)).
    rewrite (bind_ok _ _ _ _ _ (on_player_run _ _ _ _ Hp)).
    rewrite emit_run, stepped_stepped. reflexivity. }
  assert (Hresume : Music.resume S ctx w
    = (Ok tt,
       stepped w (<[g_id gd := lv_set_pause S false p]> (players w))
         [OnPlayer (g_id gd) (CSetPause false); AddReaction GResume])).
  { unfold Music.resume.
    rewrite (bind_ok _ _ _ _ _ (guild_id_run _ _ _ Hg)).
    rewrite (bind_ok _ _ _ _ _ (player_manager_get_run _ _ _ Hp)).
    rewrite (bind_ok _ _ _ _ _ (on_player_run _ _ _ _ Hp)).
    rewrite emit_run, stepped_stepped. reflexivity. }
  split; [exact Hpause |]. split; [exact Hresume |].
  intros p'. rewrite Hpause, Hresume. simpl. rewrite !lookup_insert_eq.
  intros [H|H]; injection H as <-; apply Hlib.
Qed.

(** C8: while no track is playing, [current] raises an [AttributeError]
    and sends nothing: only the computation of the position and duration
    is guarded. *)
Theorem current_without_track_raises (ctx : Context) (g : Guild) (w : World)
    (p : Player) :
  ctx_guild ctx = Some g ->
  players w !! g_id g = Some p ->
  p_current p = None ->
  Music.current S ctx w = (Raise (Py AttributeError), w).
Proof.
  intros Hg Hp Hc. unfold Music.current.
  rewrite (bind_ok _ _ _ _ _ (guild_id_run _ _ _ Hg)).
  rewrite (bind_ok _ _ _ _ _ (player_manager_get_run _ _ _ Hp)).
  rewrite (bind_ok _ _ _ _ _ (attr_run _ _ _ _ Hp)).
  rewrite Hc. reflexivity.
Qed.

(** *** Staying within a guild *)

Section Within.

Context (g : Z) (P : Event -> Prop).

Lemma frame_refl w : frame g w w.
Proof. intros k _. split; reflexivity. Qed.

Lemma frame_trans w1 w2 w3 : frame g w1 w2 -> frame g w2 w3 -> frame g w1 w3.
Proof.
  intros H12 H23 k Hk. destruct (H12 k Hk) as [A1 B1].
  destruct (H23 k Hk) as [A2 B2]. split; congruence.
Qed.

Lemma extends_refl w : extends P w w.
Proof. exists []. split; [now rewrite app_nil_r | constructor]. Qed.

Lemma extends_trans w1 w2 w3 :
  extends P w1 w2 -> extends P w2 w3 -> extends P w1 w3.
Proof.
  intros (e1 & H1 & F1) (e2 & H2 & F2). exists (e1 ++ e2). split.
  - rewrite H2, H1. now rewrite <- app_assoc.
  - apply Forall_app. now split.
Qed.

Lemma frame_same w w' :
  players w' = players w -> voice_clients w' = voice_clients w -> frame g w w'.
Proof. intros Hp Hv k _. now rewrite Hp, Hv. Qed.

Lemma extends_same w w' : trace w' = trace w -> extends P w w'.
Proof.
  intros H. exists []. split; [now rewrite app_nil_r | constructor].
Qed.

Lemma within_pure {A} (m : M A) : (forall w, (m w).2 = w) -> within g P m.
Proof.
  intros H w. rewrite H. split; [apply frame_refl | apply extends_refl].
Qed.

Lemma within_ret {A} (a : A) : within g P (mret a : M A).
Proof. now apply within_pure. Qed.

Lemma within_raise {A} e : within g P (raise e : M A).
Proof. now apply within_pure. Qed.

Lemma within_of_res {A} (r : Res A) : within g P (of_res r).
Proof. now apply within_pure. Qed.

Lemma within_attr_of {A B} (x : option A) (f : A -> B) :
  within g P (attr_of x f).
Proof. apply within_pure. now destruct x. Qed.

Lemma within_local {A} (x : option A) : within g P (local x).
Proof. apply within_pure. now destruct x. Qed.

Lemma within_subscript {A} (l : list A) i : within g P (subscript l i).
Proof. apply within_pure. intros w. unfold subscript. now destruct (Py.index l i). Qed.

Lemma within_global {A} (f : World -> option A) : within g P (global f).
Proof. apply within_pure. intros w. unfold global. now destruct (f w). Qed.

Lemma within_attr {A} r (f : Player -> A) : within g P (attr r f).
Proof.
  apply within_pure. intros w. unfold attr.
  destruct r as [k|]; [destruct (players w !! k) |]; reflexivity.
Qed.

Lemma within_get k : within g P (player_manager_get k).
Proof. now apply within_pure. Qed.

Lemma within_bind {A B} (m : M A) (f : A -> M B) :
  within g P m -> (forall a, within g P (f a)) -> within g P (m ≫= f).
Proof.
  intros Hm Hf w. unfold mbind, M_bind. specialize (Hm w).
  destruct (m w) as [[a|e] w1]; simpl in Hm; [| exact Hm].
  specialize (Hf a w1). destruct Hm as [F1 E1], Hf as [F2 E2].
  split; [eapply frame_trans | eapply extends_trans]; eassumption.
Qed.

Lemma within_try_except {A} (m h : M A) :
  within g P m -> within g P h -> within g P (try_except m h).
Proof.
  intros Hm Hh w. unfold try_except. specialize (Hm w).
  destruct (m w) as [[a|e] w1]; simpl in Hm; [exact Hm |].
  specialize (Hh w1). destruct Hm as [F1 E1], Hh as [F2 E2].
  split; [eapply frame_trans | eapply extends_trans]; eassumption.
Qed.

(** What [guild_id] and [player_manager_get] hand to the rest of a handler
    is the id of the context's guild and the reference stored under it. *)
Lemma within_guild_id_bind {B} ctx gd (f : Z -> M B) :
  ctx_guild ctx = Some gd ->
  within g P (f (g_id gd)) ->
  within g P (guild_id ctx ≫= f).
Proof.
  intros Hg Hf w. rewrite (bind_ok _ _ _ _ _ (guild_id_run _ _ _ Hg)).
  apply Hf.
Qed.

Lemma within_guild_bind {B} ctx gd (f : Guild -> M B) :
  ctx_guild ctx = Some gd ->
  within g P (f gd) ->
  within g P (attr_of (ctx_guild ctx) id ≫= f).
Proof. intros Hg Hf w. rewrite Hg. apply Hf. Qed.

Lemma within_get_bind {B} k (f : PlayerRef -> M B) :
  within g P (f None) -> within g P (f (Some k)) ->
  within g P (player_manager_get k ≫= f).
Proof.
  intros Hn Hs w. unfold mbind, M_bind, player_manager_get.
  destruct (players w !! k); [apply Hs | apply Hn].
Qed.

Lemma within_emit e : P e -> within g P (emit e).
Proof.
  intros He w. split; [now apply frame_same |].
  exists [e]. split; [reflexivity | now constructor].
Qed.

Lemma within_set_spotify b : within g P (set_spotify b).
Proof. intros w. split; [now apply frame_same | now apply extends_same]. Qed.

Lemma within_set_lyricstitle s : within g P (set_lyricstitle s).
Proof. intros w. split; [now apply frame_same | now apply extends_same]. Qed.

Lemma within_set_spotifylyrics s : within g P (set_spotifylyrics s).
Proof. intros w. split; [now apply frame_same | now apply extends_same]. Qed.

Lemma within_alter (f : Player -> Player) :
  within g P (set_players (fun ps => alter f g ps)).
Proof.
  intros w. split; [| now apply extends_same].
  intros k Hk. simpl. now rewrite lookup_alter_ne by congruence.
Qed.

Lemma within_update_none (f : Player -> Player) : within g P (update None f).
Proof. apply within_raise. Qed.

Lemma within_update (f : Player -> Player) : within g P (update (Some g) f).
Proof.
  unfold update. apply within_bind; [apply within_attr | intros _].
  apply within_alter.
Qed.

Lemma within_on_player_none c : within g P (on_player S None c).
Proof. apply within_raise. Qed.

Lemma within_on_player c :
  P (OnPlayer g c) -> within g P (on_player S (Some g) c).
Proof.
  intros Hc. unfold on_player.
  apply within_bind; [apply within_attr | intros _].
  apply within_bind; [now apply within_emit | intros _]. apply within_alter.
Qed.

Lemma within_create e : within g P (player_manager_create S g e).
Proof.
  unfold player_manager_create. apply within_get_bind.
  - apply within_bind; [| intros _; apply within_ret].
    intros w. split; [| now apply extends_same].
    intros k Hk. simpl. now rewrite lookup_insert_ne by congruence.
  - apply within_ret.
Qed.

Lemma within_create_bind {B} e (f : PlayerRef -> M B) :
  within g P (f (Some g)) ->
  within g P (player_manager_create S g e ≫= f).
Proof.
  intros Hf w. pose proof (within_create e w) as Hc.
  unfold mbind, M_bind.
  assert (Hres : (player_manager_create S g e w).1 = Ok (Some g)).
  { unfold player_manager_create, mbind, M_bind, player_manager_get.
    now destruct (players w !! g). }
  destruct (player_manager_create S g e w) as [r w1]. simpl in Hres, Hc.
  subst r. specialize (Hf w1). destruct Hc as [F1 E1], Hf as [F2 E2].
  split; [eapply frame_trans | eapply extends_trans]; eassumption.
Qed.

Lemma within_get_tracks r q :
  P (NodeGetTracks q) -> within g P (get_tracks S r q).
Proof.
  intros Hq. unfold get_tracks.
  apply within_bind; [apply within_attr | intros _].
  apply within_bind; [now apply within_emit | intros _]. apply within_ret.
Qed.

Lemma within_search_song q :
  P (GeniusSearch q) -> within g P (search_song S q).
Proof.
  intros Hq. unfold search_song.
  apply within_bind; [now apply within_emit | intros _]. apply within_of_res.
Qed.

Lemma within_for_each {A} (l : list A) (body : A -> M unit) :
  (forall x, x ∈ l -> within g P (body x)) -> within g P (for_each l body).
Proof.
  induction l as [|x l IH]; intros H; cbn [for_each]; [apply within_ret |].
  apply within_bind; [apply H; left | intros _].
  apply IH. intros y Hy. apply H. now right.
Qed.

Lemma within_for_each_until {A} (l : list A) (body : A -> M bool) :
  (forall x, x ∈ l -> within g P (body x)) ->
  within g P (for_each_until l body).
Proof.
  induction l as [|x l IH]; intros H; cbn [for_each_until];
    [apply within_ret |].
  apply within_bind; [apply H; left | intros [|]]; [apply within_ret |].
  apply IH. intros y Hy. apply H. now right.
Qed.

Lemma within_set_voice_clients_insert c :
  within g P (set_voice_clients (fun vs => <[g := c]> vs)).
Proof.
  intros w. split; [| now apply extends_same].
  intros k Hk. simpl. now rewrite lookup_insert_ne by congruence.
Qed.

Lemma within_set_voice_clients_delete :
  within g P (set_voice_clients (fun vs => delete g vs)).
Proof.
  intros w. split; [| now apply extends_same].
  intros k Hk. simpl. now rewrite lookup_delete_ne by congruence.
Qed.

Lemma within_raise_bind {A B} e (f : A -> M B) :
  within g P (raise e ≫= f).
Proof. now apply within_pure. Qed.

(** Binding a computation whose value is known. *)
Lemma within_bind_val {A B} (m : M A) (a : A) (f : A -> M B) :
  (forall w, (m w).1 = Ok a) ->
  within g P m -> within g P (f a) -> within g P (m ≫= f).
Proof.
  intros Hv Hm Hf w. unfold mbind, M_bind.
  specialize (Hv w). specialize (Hm w).
  destruct (m w) as [r w1]. simpl in Hv, Hm. subst r.
  specialize (Hf w1). destruct Hm as [F1 E1], Hf as [F2 E2].
  split; [eapply frame_trans | eapply extends_trans]; eassumption.
Qed.

(** What comes after a first step only adds to the trace. *)
Lemma trace_after_bind {A B} (m : M A) (f : A -> M B) w r w1 evs :
  m w = (r, w1) ->
  trace w1 = trace w ++ evs ->
  (forall a, within g P (f a)) ->
  exists evs', trace ((m ≫= f) w).2 = trace w ++ evs ++ evs'.
Proof.
  intros Hm Ht Hf. unfold mbind, M_bind. rewrite Hm.
  destruct r as [a|e].
  - destruct (Hf a w1) as [_ (evs' & He & _)]. exists evs'.
    rewrite He, Ht. now rewrite <- app_assoc.
  - exists []. simpl. now rewrite Ht, app_nil_r.
Qed.

End Within.

(** One step of the walk through a handler's body; [ev] settles that a
    call satisfies the predicate on calls. *)
Ltac within_step ev :=
  first
    [ apply within_ret | apply within_raise | apply within_of_res
    | apply within_attr_of | apply within_local | apply within_subscript
    | apply within_global | apply within_attr | apply within_get
    | apply within_set_spotify | apply within_set_lyricstitle
    | apply within_set_spotifylyrics
    | apply within_update | apply within_update_none
    | apply within_on_player_none
    | apply within_set_voice_clients_insert
    | apply within_set_voice_clients_delete
    | apply within_on_player; ev
    | apply within_emit; ev
    | apply within_get_tracks; ev
    | apply within_search_song; ev
    | apply within_get_bind
    | eapply within_guild_id_bind; [eassumption |]
    | eapply within_guild_bind; [eassumption |]
    | apply within_create_bind
    | apply within_bind; [| intros ?]
    | apply within_try_except
    | apply within_for_each; intros ? _
    | apply within_for_each_until; intros ? _
    | match goal with
      | |- within _ _ (match ?x with _ => _ end) => destruct x
      | |- within _ _ (let _ := _ in _) => cbv zeta
      | |- within _ _ (let '(_, _) := ?x in _) => destruct x
      end ].

Ltac walk ev := repeat within_step ev.

Section Mirror.

Context (ctx : Context) (acts : list Activity).

Lemma within_playuser_activity g r x :
  x ∈ acts -> r = None \/ r = Some g ->
  within g (forwards_mirror acts) (Music.playuser_activity S ctx r x).
Proof.
  intros Hx Hr. destruct x as [t a|n]; unfold Music.playuser_activity.
  - cbv zeta.
    apply within_bind; [apply within_set_spotifylyrics | intros _].
    apply (within_bind_val _ _ _ (mirror_query t a)).
    + intros w. unfold mirror_query.
      now destruct (url_rx_match (t +:+ " " +:+ a)).
    + destruct (negb _); walk ltac:(exact I).
    + assert (Hq : forwards_mirror acts (NodeGetTracks (mirror_query t a)))
        by (exists t, a; now split).
      unfold Music.enqueue, Music.send.
      destruct Hr as [-> | ->]; walk ltac:(first [exact I | exact Hq]).
  - unfold Music.send. walk ltac:(exact I).
Qed.

Lemma within_playuser g member :
  m_activities member = acts ->
  (forall gd, ctx_guild ctx = Some gd -> g = g_id gd) ->
  within g (forwards_mirror acts) (Music.playuser S ctx member).
Proof.
  intros Hacts Hgd. unfold Music.playuser. rewrite Hacts.
  apply within_bind; [apply within_set_spotify | intros _].
  unfold guild_id. destruct (ctx_guild ctx) as [gd|] eqn:Hg.
  - rewrite (Hgd gd eq_refl).
    apply (within_bind_val _ _ _ (g_id gd)); [reflexivity | apply within_ret |].
    apply within_get_bind; apply within_for_each_until; intros x Hx;
      apply within_playuser_activity; auto.
  - apply within_raise_bind.
Qed.

Lemma within_lyricsuser_activity g x :
  x ∈ acts -> within g (searches_title acts) (Music.lyricsuser_activity S x).
Proof.
  intros Hx. destruct x as [t a|n]; unfold Music.lyricsuser_activity.
  - assert (Hq : searches_title acts (GeniusSearch t))
      by (exists t, a; now split).
    walk ltac:(first [exact I | exact Hq]).
  - apply within_ret.
Qed.

Lemma lyricsuser_skips_others pre rest w :
  Forall (fun a => is_spotify a = false) pre ->
  for_each (pre ++ rest) (Music.lyricsuser_activity S) w
  = for_each rest (Music.lyricsuser_activity S) w.
Proof.
  induction 1 as [|a pre Ha Hpre IH]; [reflexivity |].
  destruct a as [t a|n]; [discriminate |]. exact IH.
Qed.

Lemma playuser_activity_trace k p t a w :
  players w !! k = Some p ->
  exists evs,
    trace (Music.playuser_activity S ctx (Some k) (Spotify t a) w).2
    = trace w ++ NodeGetTracks (mirror_query t a) :: evs.
Proof.
  intros Hp. unfold Music.playuser_activity. cbv zeta.
  rewrite (bind_ok _ _ _ _ _ (set_spotifylyrics_run _ _)).
  set (w0 := (set_spotifylyrics _ w).2).
  destruct (mirror_query_run t a w0) as (w1 & Hq & Hp1 & Hv1 & Ht1).
  rewrite (bind_ok _ _ _ _ _ Hq).
  assert (Hp1' : players w1 !! k = Some p) by now rewrite Hp1.
  change (trace w) with (trace w0). rewrite <- Ht1.
  match goal with |- context [(get_tracks _ _ _ ≫= ?f) w1] =>
    destruct (trace_after_bind k (fun _ => True) _ f _ _ _
                [NodeGetTracks (mirror_query t a)]
                (get_tracks_run _ _ _ _ Hp1') eq_refl) as (evs & Hevs)
  end.
  { intros results. unfold Music.enqueue, Music.send. walk ltac:(exact I). }
  exists evs. exact Hevs.
Qed.

Lemma lyricsuser_activity_trace t a w :
  exists evs,
    trace (Music.lyricsuser_activity S (Spotify t a) w).2
    = trace w ++ GeniusSearch t :: evs.
Proof.
  unfold Music.lyricsuser_activity. cbv zeta.
  match goal with |- context [(search_song _ _ ≫= ?f) w] =>
    destruct (trace_after_bind 0 (fun _ => True) _ f _ _ _
                [GeniusSearch t] (search_song_run t w) eq_refl)
      as (evs & Hevs)
  end.
  { intros lyricsz. walk ltac:(exact I). }
  exists evs. exact Hevs.
Qed.

End Mirror.

(** C6: every lookup that [playuser] forwards to the audio node is, for a
    Spotify activity of the member, its title, a space and its artist, with
    [ytsearch:] in front unless that text is a URL, and every search that
    [lyricsuser] makes is for the title of such an activity; the member's
    first Spotify activity is always looked up, and searched. *)
Theorem spotify_status_is_mirrored (ctx : Context) (member : Member)
    (w : World) :
  extends (forwards_mirror (m_activities member)) w
    (Music.playuser S ctx member w).2
  /\ extends (searches_title (m_activities member)) w
       (Music.lyricsuser S ctx member w).2
  /\ (forall pre t a rest,
        m_activities member = pre ++ Spotify t a :: rest ->
        Forall (fun x => is_spotify x = false) pre ->
        (forall gd p,
           ctx_guild ctx = Some gd -> players w !! g_id gd = Some p ->
           exists evs,
             trace (Music.playuser S ctx member w).2
             = trace w ++ map (fun _ => Send make_sure) pre
                 ++ NodeGetTracks
                      (if url_rx_match (t +:+ " " +:+ a)
                       then t +:+ " " +:+ a
                       else "ytsearch:" +:+ t +:+ " " +:+ a) :: evs)
        /\ exists evs,
             trace (Music.lyricsuser S ctx member w).2
             = trace w ++ GeniusSearch t :: evs).
Proof.
  split; [| split].
  - apply (within_playuser ctx (m_activities member)
             (match ctx_guild ctx with Some gd => g_id gd | None => 0 end));
      [reflexivity |].
    intros gd Hg. now rewrite Hg.
  - unfold Music.lyricsuser.
    apply (within_for_each 0). intros x Hx.
    now apply within_lyricsuser_activity.
  - intros pre t a rest Hacts Hpre. split.
    + intros gd p Hg Hp. unfold Music.playuser.
      rewrite (bind_ok _ _ _ _ _ (set_spotify_run true w)).
      set (w0 := (set_spotify true w).2).
      assert (Hp0 : players w0 !! g_id gd = Some p) by exact Hp.
      rewrite (bind_ok _ _ _ _ _ (guild_id_run _ _ _ Hg)).
      rewrite (bind_ok _ _ _ _ _ (player_manager_get_run _ _ _ Hp0)).
      rewrite Hacts, playuser_skips_others by assumption.
      set (w1 := stepped w0 _ _).
      assert (Hp1 : players w1 !! g_id gd = Some p) by exact Hp.
      destruct (playuser_activity_trace ctx _ _ t a w1 Hp1) as (evs & Hevs).
      cbn [for_each_until].
      destruct (trace_after_bind (g_id gd) (forwards_mirror rest)
                  (Music.playuser_activity S ctx (Some (g_id gd)) (Spotify t a))
                  (fun returned : bool =>
                     if returned then mret tt
                     else for_each_until rest
                            (Music.playuser_activity S ctx (Some (g_id gd))))
                  w1 _ _ _ (surjective_pairing _) Hevs) as (evs' & Hevs').
      { intros [|]; [apply within_ret |].
        apply within_for_each_until. intros x Hx.
        apply within_playuser_activity; auto. }
      exists (evs ++ evs'). rewrite Hevs'. unfold w1. simpl.
      fold (mirror_query t a). now rewrite <- !app_assoc.
    + unfold Music.lyricsuser.
      rewrite Hacts, lyricsuser_skips_others by assumption.
      destruct (lyricsuser_activity_trace t a w) as (evs & Hevs).
      cbn [for_each].
      destruct (trace_after_bind 0 (searches_title rest)
                  (Music.lyricsuser_activity S (Spotify t a))
                  (fun _ : unit => for_each rest (Music.lyricsuser_activity S))
                  w _ _ _ (surjective_pairing _) Hevs) as (evs' & Hevs').
      { intros _. apply within_for_each. intros x Hx.
        now apply within_lyricsuser_activity. }
      exists (evs ++ evs'). rewrite Hevs'. reflexivity.
Qed.

Section Keyed.

Context (ctx : Context) (gd : Guild) (Hg : ctx_guild ctx = Some gd).

Lemma within_connect c (dm mm : bool) :
  within (g_id gd) (calls_on (g_id gd))
    (LavalinkVoiceClient.connect S (g_id gd) c dm mm).
Proof.
  unfold LavalinkVoiceClient.connect. walk ltac:(first [exact I | reflexivity]).
Qed.

Lemma within_disconnect force :
  within (g_id gd) (calls_on (g_id gd))
    (LavalinkVoiceClient.disconnect S (g_id gd) force).
Proof.
  unfold LavalinkVoiceClient.disconnect. walk ltac:(first [exact I | reflexivity]).
Qed.

Lemma within_channel_connect c :
  within (g_id gd) (calls_on (g_id gd)) (channel_connect S (g_id gd) c).
Proof.
  intros w. unfold channel_connect.
  destruct (voice_clients w !! g_id gd).
  - split; [apply frame_refl | apply extends_refl].
  - revert w. change (within (g_id gd) (calls_on (g_id gd))
      (set_voice_clients (fun vs => <[g_id gd := c]> vs);;
       LavalinkVoiceClient.connect S (g_id gd) c false false)).
    apply within_bind; [apply within_set_voice_clients_insert | intros _].
    apply within_connect.
Qed.

Lemma within_voice_client_disconnect force :
  within (g_id gd) (calls_on (g_id gd)) (voice_client_disconnect S (g_id gd) force).
Proof.
  intros w. unfold voice_client_disconnect.
  destruct (voice_clients w !! g_id gd).
  - apply within_disconnect.
  - split; [apply frame_refl | apply extends_refl].
Qed.

Lemma within_track_hook (ended : bool) :
  within (g_id gd) (calls_on (g_id gd))
    (Music.track_hook S
       (if ended then Music.QueueEndEvent (g_id gd) else Music.OtherEvent)).
Proof.
  destruct ended; [apply within_voice_client_disconnect | apply within_ret].
Qed.

Lemma within_ensure_voice name :
  within (g_id gd) (calls_on (g_id gd)) (Music.ensure_voice S ctx name).
Proof.
  unfold Music.ensure_voice.
  walk ltac:(first [exact I | reflexivity]); apply within_channel_connect.
Qed.

Lemma within_callback c :
  within (g_id gd) (calls_on (g_id gd)) (Music.callback S c ctx).
Proof.
  destruct c; unfold Music.callback;
    unfold Music.join, Music.play, Music.playuser, Music.playuser_activity,
      Music.search_music, Music.pause, Music.resume, Music.volume, Music.loop,
      Music.unloop, Music.current, Music.skip, Music.queue, Music.remove,
      Music.shuffle, Music.lyrics, Music.lyricsuser, Music.lyricsuser_activity,
      Music.disconnect, Music.enqueue, Music.send, Music.current_title,
      Music.compose_search, Music.search_6, Music.search_5, Music.search_4,
      Music.search_3, Music.search_2;
    walk ltac:(first [exact I | reflexivity]);
    first [ apply within_voice_client_disconnect
          | apply within_track_hook ].
Qed.

Lemma within_cog_before_invoke name :
  within (g_id gd) (calls_on (g_id gd)) (Music.cog_before_invoke S ctx name).
Proof.
  unfold Music.cog_before_invoke. rewrite Hg.
  apply within_bind; [apply within_ensure_voice | intros _; apply within_ret].
Qed.

Lemma within_cog_command_error e :
  within (g_id gd) (calls_on (g_id gd)) (Music.cog_command_error ctx e).
Proof.
  unfold Music.cog_command_error, Music.send. walk ltac:(first [exact I | reflexivity]).
Qed.

Lemma within_invoke c : within (g_id gd) (calls_on (g_id gd)) (Music.invoke S c ctx).
Proof.
  intros w. unfold Music.invoke.
  pose proof (within_cog_before_invoke (Music.command_name c) w) as H1.
  destruct (Music.cog_before_invoke S ctx (Music.command_name c) w)
    as [[b|[e|o]] w1]; simpl in H1.
  - pose proof (within_callback c w1) as H2.
    destruct (Music.callback S c ctx w1) as [[u|[e|o]] w2]; simpl in H2.
    + destruct H1, H2.
      split; [eapply frame_trans | eapply extends_trans]; eassumption.
    + pose proof (within_cog_command_error (CommandInvokeError (inr e)) w2) as H3.
      destruct H1, H2, H3. split.
      * eapply frame_trans; [| eassumption]. eapply frame_trans; eassumption.
      * eapply extends_trans; [| eassumption]. eapply extends_trans; eassumption.
    + pose proof (within_cog_command_error (CommandInvokeError o) w2) as H3.
      destruct H1, H2, H3. split.
      * eapply frame_trans; [| eassumption]. eapply frame_trans; eassumption.
      * eapply extends_trans; [| eassumption]. eapply extends_trans; eassumption.
  - exact H1.
  - pose proof (within_cog_command_error (CommandInvokeError o) w1) as H3.
    destruct H1, H3.
    split; [eapply frame_trans | eapply extends_trans]; eassumption.
Qed.

End Keyed.

(** *** Reading one guild only *)

Section ReadsOnly.

Context (g : Z).

Lemma agree_refl w : agree g w w.
Proof. repeat split. Qed.

Lemma ro_const {A} (m : M A) (r : Res A) :
  (forall w, m w = (r, w)) -> reads_only g m.
Proof. intros H w1 w2 Ha. rewrite !H. now split. Qed.

Lemma ro_ret {A} (a : A) : reads_only g (mret a : M A).
Proof. now apply (ro_const _ (Ok a)). Qed.

Lemma ro_raise {A} e : reads_only g (raise e : M A).
Proof. now apply (ro_const _ (Raise e)). Qed.

Lemma ro_of_res {A} (r : Res A) : reads_only g (of_res r).
Proof. now apply (ro_const _ r). Qed.

Lemma ro_attr_of {A B} (x : option A) (f : A -> B) :
  reads_only g (attr_of x f).
Proof. destruct x; [apply ro_ret | apply ro_raise]. Qed.

Lemma ro_local {A} (x : option A) : reads_only g (local x).
Proof. destruct x; [apply ro_ret | apply ro_raise]. Qed.

Lemma ro_subscript {A} (l : list A) i : reads_only g (subscript l i).
Proof. unfold subscript. destruct (Py.index l i); [apply ro_ret | apply ro_raise]. Qed.

Lemma ro_global_spotify : reads_only g (global g_spotify).
Proof.
  intros w1 w2 Ha. unfold global.
  pose proof Ha as (_ & _ & H & _). rewrite H.
  destruct (g_spotify w2); split; try reflexivity; exact Ha.
Qed.

Lemma ro_global_lyricstitle : reads_only g (global g_lyricstitle).
Proof.
  intros w1 w2 Ha. unfold global.
  pose proof Ha as (_ & _ & _ & H & _). rewrite H.
  destruct (g_lyricstitle w2); split; try reflexivity; exact Ha.
Qed.

Lemma ro_global_spotifylyrics : reads_only g (global g_spotifylyrics).
Proof.
  intros w1 w2 Ha. unfold global.
  pose proof Ha as (_ & _ & _ & _ & H & _). rewrite H.
  destruct (g_spotifylyrics w2); split; try reflexivity; exact Ha.
Qed.

Lemma ro_attr_none {A} (f : Player -> A) : reads_only g (attr None f).
Proof. now apply (ro_const _ (Raise (Py AttributeError))). Qed.

Lemma ro_attr {A} (f : Player -> A) : reads_only g (attr (Some g) f).
Proof.
  intros w1 w2 Ha. unfold attr. pose proof Ha as (H & _). rewrite H.
  destruct (players w2 !! g); split; try reflexivity; exact Ha.
Qed.

Lemma ro_get : reads_only g (player_manager_get g).
Proof.
  intros w1 w2 Ha. unfold player_manager_get. pose proof Ha as (H & _).
  rewrite H. split; [reflexivity | exact Ha].
Qed.

Lemma ro_bind {A B} (m : M A) (f : A -> M B) :
  reads_only g m -> (forall a, reads_only g (f a)) -> reads_only g (m ≫= f).
Proof.
  intros Hm Hf w1 w2 Ha. unfold mbind, M_bind.
  destruct (Hm w1 w2 Ha) as [Hr Hw].
  destruct (m w1) as [r1 v1], (m w2) as [r2 v2]. simpl in Hr, Hw. subst r2.
  destruct r1 as [a|e]; [now apply Hf | now split].
Qed.

Lemma ro_try_except {A} (m h : M A) :
  reads_only g m -> reads_only g h -> reads_only g (try_except m h).
Proof.
  intros Hm Hh w1 w2 Ha. unfold try_except.
  destruct (Hm w1 w2 Ha) as [Hr Hw].
  destruct (m w1) as [r1 v1], (m w2) as [r2 v2]. simpl in Hr, Hw. subst r2.
  destruct r1 as [a|e]; [now split | now apply Hh].
Qed.

Lemma ro_guild_id_bind {B} ctx gd (f : Z -> M B) :
  ctx_guild ctx = Some gd ->
  reads_only g (f (g_id gd)) ->
  reads_only g (guild_id ctx ≫= f).
Proof.
  intros Hg Hf w1 w2 Ha.
  rewrite !(bind_ok _ _ _ _ _ (guild_id_run _ _ _ Hg)). now apply Hf.
Qed.

Lemma ro_guild_bind {B} ctx gd (f : Guild -> M B) :
  ctx_guild ctx = Some gd ->
  reads_only g (f gd) ->
  reads_only g (attr_of (ctx_guild ctx) id ≫= f).
Proof. intros Hg Hf. rewrite Hg. exact Hf. Qed.

Lemma ro_get_bind {B} (f : PlayerRef -> M B) :
  reads_only g (f None) -> reads_only g (f (Some g)) ->
  reads_only g (player_manager_get g ≫= f).
Proof.
  intros Hn Hs w1 w2 Ha. unfold mbind, M_bind, player_manager_get.
  pose proof Ha as (H & _). rewrite H.
  destruct (players w2 !! g); [now apply Hs | now apply Hn].
Qed.

Lemma ro_emit e : reads_only g (emit e).
Proof.
  intros w1 w2 (H1 & H2 & H3 & H4 & H5 & H6). split; [reflexivity |].
  unfold agree. simpl. rewrite H6. tauto.
Qed.

Lemma ro_set_spotify b : reads_only g (set_spotify b).
Proof.
  intros w1 w2 (H1 & H2 & H3 & H4 & H5 & H6). split; [reflexivity |].
  unfold agree. simpl. tauto.
Qed.

Lemma ro_set_lyricstitle s : reads_only g (set_lyricstitle s).
Proof.
  intros w1 w2 (H1 & H2 & H3 & H4 & H5 & H6). split; [reflexivity |].
  unfold agree. simpl. tauto.
Qed.

Lemma ro_set_spotifylyrics s : reads_only g (set_spotifylyrics s).
Proof.
  intros w1 w2 (H1 & H2 & H3 & H4 & H5 & H6). split; [reflexivity |].
  unfold agree. simpl. tauto.
Qed.

Lemma ro_alter (f : Player -> Player) :
  reads_only g (set_players (fun ps => alter f g ps)).
Proof.
  intros w1 w2 (H1 & H2 & H3 & H4 & H5 & H6). split; [reflexivity |].
  unfold agree. simpl. rewrite !lookup_alter_eq, H1. tauto.
Qed.

Lemma ro_update_none (f : Player -> Player) : reads_only g (update None f).
Proof. apply ro_raise. Qed.

Lemma ro_update (f : Player -> Player) : reads_only g (update (Some g) f).
Proof.
  unfold update. apply ro_bind; [apply ro_attr | intros _]. apply ro_alter.
Qed.

Lemma ro_on_player_none c : reads_only g (on_player S None c).
Proof. apply ro_raise. Qed.

Lemma ro_on_player c : reads_only g (on_player S (Some g) c).
Proof.
  unfold on_player. apply ro_bind; [apply ro_attr | intros _].
  apply ro_bind; [apply ro_emit | intros _]. apply ro_alter.
Qed.

Lemma ro_insert_player p :
  reads_only g (set_players (fun ps => <[g := p]> ps)).
Proof.
  intros w1 w2 (H1 & H2 & H3 & H4 & H5 & H6). split; [reflexivity |].
  unfold agree. simpl. rewrite !lookup_insert_eq. tauto.
Qed.

Lemma create_result k e w :
  (player_manager_create S k e w).1 = Ok (Some k).
Proof.
  unfold player_manager_create, mbind, M_bind, player_manager_get.
  now destruct (players w !! k).
Qed.

Lemma ro_create e : reads_only g (player_manager_create S g e).
Proof.
  unfold player_manager_create. apply ro_get_bind; [| apply ro_ret].
  apply ro_bind; [apply ro_insert_player | intros _; apply ro_ret].
Qed.

Lemma ro_create_bind {B} e (f : PlayerRef -> M B) :
  reads_only g (f (Some g)) ->
  reads_only g (player_manager_create S g e ≫= f).
Proof.
  intros Hf w1 w2 Ha. destruct (ro_create e w1 w2 Ha) as [Hr Hw].
  pose proof (create_result g e w1) as R1.
  pose proof (create_result g e w2) as R2.
  unfold mbind, M_bind.
  destruct (player_manager_create S g e w1) as [r1 v1],
           (player_manager_create S g e w2) as [r2 v2].
  simpl in *. subst r1 r2. now apply Hf.
Qed.

Lemma ro_get_tracks_none q : reads_only g (get_tracks S None q).
Proof. unfold get_tracks. apply ro_bind; [apply ro_attr_none | intros _].
  apply ro_bind; [apply ro_emit | intros _; apply ro_ret]. Qed.

Lemma ro_get_tracks q : reads_only g (get_tracks S (Some g) q).
Proof. unfold get_tracks. apply ro_bind; [apply ro_attr | intros _].
  apply ro_bind; [apply ro_emit | intros _; apply ro_ret]. Qed.

Lemma ro_search_song q : reads_only g (search_song S q).
Proof.
  unfold search_song. apply ro_bind; [apply ro_emit | intros _].
  apply ro_of_res.
Qed.

Lemma ro_for_each {A} (l : list A) (body : A -> M unit) :
  (forall x, reads_only g (body x)) -> reads_only g (for_each l body).
Proof.
  intros H. induction l as [|x l IH]; cbn [for_each]; [apply ro_ret |].
  apply ro_bind; [apply H | intros _; exact IH].
Qed.

Lemma ro_for_each_until {A} (l : list A) (body : A -> M bool) :
  (forall x, reads_only g (body x)) -> reads_only g (for_each_until l body).
Proof.
  intros H. induction l as [|x l IH]; cbn [for_each_until]; [apply ro_ret |].
  apply ro_bind; [apply H | intros [|]; [apply ro_ret | exact IH]].
Qed.

Lemma ro_set_voice_clients_insert c :
  reads_only g (set_voice_clients (fun vs => <[g := c]> vs)).
Proof.
  intros w1 w2 (H1 & H2 & H3 & H4 & H5 & H6). split; [reflexivity |].
  unfold agree. simpl. rewrite !lookup_insert_eq. tauto.
Qed.

Lemma ro_set_voice_clients_delete :
  reads_only g (set_voice_clients (fun vs => delete g vs)).
Proof.
  intros w1 w2 (H1 & H2 & H3 & H4 & H5 & H6). split; [reflexivity |].
  unfold agree. simpl. rewrite !lookup_delete_eq. tauto.
Qed.

End ReadsOnly.

Ltac ro_step :=
  first
    [ apply ro_ret | apply ro_raise | apply ro_of_res
    | apply ro_attr_of | apply ro_local | apply ro_subscript
    | apply ro_global_spotify | apply ro_global_lyricstitle
    | apply ro_global_spotifylyrics
    | apply ro_attr | apply ro_attr_none | apply ro_get
    | apply ro_set_spotify | apply ro_set_lyricstitle
    | apply ro_set_spotifylyrics
    | apply ro_update | apply ro_update_none
    | apply ro_on_player | apply ro_on_player_none
    | apply ro_set_voice_clients_insert
    | apply ro_set_voice_clients_delete
    | apply ro_emit
    | apply ro_get_tracks | apply ro_get_tracks_none
    | apply ro_search_song
    | apply ro_get_bind
    | eapply ro_guild_id_bind; [eassumption |]
    | eapply ro_guild_bind; [eassumption |]
    | apply ro_create_bind
    | apply ro_bind; [| intros ?]
    | apply ro_try_except
    | apply ro_for_each; intros ?
    | apply ro_for_each_until; intros ?
    | match goal with
      | |- reads_only _ (match ?x with _ => _ end) => destruct x
      | |- reads_only _ (let _ := _ in _) => cbv zeta
      end ].

Ltac ro_walk := repeat ro_step.

Section KeyedReads.

Context (ctx : Context) (gd : Guild) (Hg : ctx_guild ctx = Some gd).

Lemma ro_connect c (dm mm : bool) :
  reads_only (g_id gd) (LavalinkVoiceClient.connect S (g_id gd) c dm mm).
Proof. unfold LavalinkVoiceClient.connect. ro_walk. Qed.

Lemma ro_disconnect force :
  reads_only (g_id gd) (LavalinkVoiceClient.disconnect S (g_id gd) force).
Proof. unfold LavalinkVoiceClient.disconnect. ro_walk. Qed.

Lemma ro_channel_connect c :
  reads_only (g_id gd) (channel_connect S (g_id gd) c).
Proof.
  intros w1 w2 Ha. unfold channel_connect.
  pose proof Ha as (_ & Hv & _). rewrite Hv.
  destruct (voice_clients w2 !! g_id gd).
  - now split.
  - apply (ro_bind (g_id gd)
             (set_voice_clients (fun vs => <[g_id gd := c]> vs))
             (fun _ => LavalinkVoiceClient.connect S (g_id gd) c false false));
      [apply ro_set_voice_clients_insert | intros _; apply ro_connect
      | exact Ha].
Qed.

Lemma ro_voice_client_disconnect force :
  reads_only (g_id gd) (voice_client_disconnect S (g_id gd) force).
Proof.
  intros w1 w2 Ha. unfold voice_client_disconnect.
  pose proof Ha as (_ & Hv & _). rewrite Hv.
  destruct (voice_clients w2 !! g_id gd); [now apply ro_disconnect | now split].
Qed.

Lemma ro_track_hook (ended : bool) :
  reads_only (g_id gd)
    (Music.track_hook S
       (if ended then Music.QueueEndEvent (g_id gd) else Music.OtherEvent)).
Proof.
  destruct ended; [apply ro_voice_client_disconnect | apply ro_ret].
Qed.

Lemma ro_ensure_voice name :
  reads_only (g_id gd) (Music.ensure_voice S ctx name).
Proof.
  unfold Music.ensure_voice. ro_walk; apply ro_channel_connect.
Qed.

Lemma ro_callback c : reads_only (g_id gd) (Music.callback S c ctx).
Proof.
  destruct c; unfold Music.callback;
    unfold Music.join, Music.play, Music.playuser, Music.playuser_activity,
      Music.search_music, Music.pause, Music.resume, Music.volume, Music.loop,
      Music.unloop, Music.current, Music.skip, Music.queue, Music.remove,
      Music.shuffle, Music.lyrics, Music.lyricsuser, Music.lyricsuser_activity,
      Music.disconnect, Music.enqueue, Music.send, Music.current_title,
      Music.compose_search, Music.search_6, Music.search_5, Music.search_4,
      Music.search_3, Music.search_2;
    ro_walk; first [apply ro_voice_client_disconnect | apply ro_track_hook].
Qed.

Lemma ro_cog_before_invoke name :
  reads_only (g_id gd) (Music.cog_before_invoke S ctx name).
Proof.
  unfold Music.cog_before_invoke. rewrite Hg.
  apply ro_bind; [apply ro_ensure_voice | intros _; apply ro_ret].
Qed.

Lemma ro_cog_command_error e :
  reads_only (g_id gd) (Music.cog_command_error ctx e).
Proof. unfold Music.cog_command_error, Music.send. ro_walk. Qed.

Lemma ro_invoke c : reads_only (g_id gd) (Music.invoke S c ctx).
Proof.
  intros w1 w2 Ha. unfold Music.invoke.
  destruct (ro_cog_before_invoke (Music.command_name c) w1 w2 Ha) as [R1 A1].
  destruct (Music.cog_before_invoke S ctx (Music.command_name c) w1)
    as [r1 v1],
    (Music.cog_before_invoke S ctx (Music.command_name c) w2) as [r2 v2].
  simpl in R1, A1. subst r2. destruct r1 as [b|[e|o]].
  - destruct (ro_callback c v1 v2 A1) as [R2 A2].
    destruct (Music.callback S c ctx v1) as [s1 u1],
             (Music.callback S c ctx v2) as [s2 u2].
    simpl in R2, A2. subst s2. destruct s1 as [u|[e|o]].
    + now split.
    + now apply ro_cog_command_error.
    + now apply ro_cog_command_error.
  - now split.
  - now apply ro_cog_command_error.
Qed.

End KeyedReads.

(** C5: a command invoked in a guild leaves the players (and voice
    clients) of every other guild as they were, makes its player and voice
    calls on that guild only, and its outcome does not depend on what the
    world holds for other guilds: the handlers reach players only through
    [player_manager.get(ctx.guild.id)] and [create(ctx.guild.id)]. *)
Theorem player_state_keyed_by_guild (c : Music.Command) (ctx : Context)
    (gd : Guild) (w : World) :
  ctx_guild ctx = Some gd ->
  (forall k, k <> g_id gd ->
     players (Music.invoke S c ctx w).2 !! k = players w !! k
     /\ players (Music.callback S c ctx w).2 !! k = players w !! k)
  /\ extends (calls_on (g_id gd)) w (Music.invoke S c ctx w).2
  /\ extends (calls_on (g_id gd)) w (Music.callback S c ctx w).2
  /\ (forall w2, agree (g_id gd) w w2 ->
        (Music.invoke S c ctx w).1 = (Music.invoke S c ctx w2).1
        /\ agree (g_id gd) (Music.invoke S c ctx w).2 (Music.invoke S c ctx w2).2
        /\ (Music.callback S c ctx w).1 = (Music.callback S c ctx w2).1
        /\ agree (g_id gd) (Music.callback S c ctx w).2
                            (Music.callback S c ctx w2).2).
Proof.
  intros Hg.
  destruct (within_invoke ctx gd Hg c w) as [Fi Ei].
  destruct (within_callback ctx gd Hg c w) as [Fc Ec].
  split; [| split; [exact Ei | split; [exact Ec |]]].
  - intros k Hk. split; [now apply Fi | now apply Fc].
  - intros w2 Ha.
    destruct (ro_invoke ctx gd Hg c w w2 Ha) as [R1 A1].
    destruct (ro_callback ctx gd Hg c w w2 Ha) as [R2 A2].
    auto.
Qed.

End Run.

(** ** The statements at concrete inputs *)

Import Examples.

Lemma current_without_track_raises_witness :
  Music.current S0 Reference.ctx (Reference.world [] None None)
  = (Raise (Py AttributeError), Reference.world [] None None).
Proof.
  apply (current_without_track_raises S0 Reference.ctx Reference.guild
           (Reference.world [] None None) (player0 [] None));
    reflexivity.
Defined.

Lemma lyrics_fallback_chain_witness :
  Py.split (Music.clean_title "Imagine Dragons Believer lyrics")
  = ["Imagine"; "Dragons"; "Believer"]
  /\ Music.compose_search (Music.clean_title "Imagine Dragons Believer lyrics")
       (Reference.world [] (Some believer) (Some "believer"))
     = (Ok (Some "Imagine  Dragons  Believer"),
        Reference.world [] (Some believer) (Some "believer"))
  /\ trace (Music.lyrics S0 Reference.ctx None
              (Reference.world [] (Some believer) (Some "believer"))).2
     = [GeniusSearch "believer"].
Proof.
  destruct (lyrics_fallback_chain S0 Reference.ctx Reference.guild
              (Reference.world [] (Some believer) (Some "believer"))
              (player0 [] (Some believer)) believer
              eq_refl eq_refl eq_refl eq_refl I) as (H1 & H2 & H3 & _).
  split; [exact H1 |]. split; [exact (H2 _) |].
  rewrite H3. reflexivity.
Defined.

Lemma play_enqueues_witness :
  trace (Music.play S0 Reference.ctx "<Song Artist>"
           (Reference.world [] None None)).2
  = [NodeGetTracks "ytsearch:Song Artist";
     OnPlayer 1 (CAdd 7 (Built {| at_data := Reference.track "Song" 1000;
                                  at_requester := 7;
                                  at_recommended := true |}));
     SendEmbed (enqueue_embed Reference.ctx (found "Song"));
     OnPlayer 1 CPlay].
Proof.
  pose proof (play_enqueues S0 Reference.ctx Reference.guild
                (Reference.world [] None None) (player0 [] None)
                "<Song Artist>" (found "Song") eq_refl eq_refl eq_refl
                ltac:(discriminate)) as H.
  cbv zeta in H.
  destruct (Music.play S0 Reference.ctx "<Song Artist>"
              (Reference.world [] None None)) as [res w'].
  destruct H as (_ & _ & _ & Ht & _). exact Ht.
Defined.

Lemma player_state_keyed_by_guild_witness :
  let w' := (Music.invoke S0 Music.Skip Reference.ctx two_guilds).2 in
  players w' !! 2 = Some elsewhere
  /\ trace w'
     = [OnPlayer 1 CSkip; ChangeVoiceState 1 None false false; Cleanup 1;
        AddReaction GSkip]
  /\ (Music.invoke S0 Music.Skip Reference.ctx two_guilds).1
     = (Music.invoke S0 Music.Skip Reference.ctx
          (Reference.world [] (Some believer) None)).1
  /\ players w' !! 1
     = players (Music.invoke S0 Music.Skip Reference.ctx
                  (Reference.world [] (Some believer) None)).2 !! 1.
Proof.
  destruct (player_state_keyed_by_guild S0 Music.Skip Reference.ctx
              Reference.guild two_guilds eq_refl)
    as (Hframe & _ & _ & Hreads).
  destruct (Hreads (Reference.world [] (Some believer) None))
    as (Hres & (Hp & _) & _).
  { unfold agree. repeat split; reflexivity. }
  cbv zeta. split; [| split; [| split]].
  - rewrite (proj1 (Hframe 2 ltac:(simpl; lia))). reflexivity.
  - reflexivity.
  - exact Hres.
  - exact Hp.
Defined.

Lemma spotify_status_is_mirrored_witness :
  (exists evs,
     trace (Music.playuser S0 Reference.ctx one_status
              (Reference.world [] None None)).2
     = [Send make_sure; NodeGetTracks "ytsearch:Song Artist"] ++ evs)
  /\ exists evs,
       trace (Music.lyricsuser S0 Reference.ctx one_status
                (Reference.world [] None None)).2
       = GeniusSearch "Song" :: evs.
Proof.
  destruct (spotify_status_is_mirrored S0 Reference.ctx one_status
              (Reference.world [] None None)) as (_ & _ & H).
  destruct (H [OtherActivity "game"] "Song" "Artist" [] eq_refl
              ltac:(repeat constructor)) as (H1 & H2).
  split; [| exact H2].
  exact (H1 Reference.guild (player0 [] None) eq_refl eq_refl).
Defined.

Lemma pause_resume_delegate_witness :
  p_paused <$> players (Music.pause S0 Reference.ctx
                          (Reference.world [believer] None None)).2 !! 1
  = Some true
  /\ forall p',
       players (Music.pause S0 Reference.ctx
                  (Reference.world [believer] None None)).2 !! 1 = Some p'
       \/ players (Music.resume S0 Reference.ctx
                     (Reference.world [believer] None None)).2 !! 1 = Some p' ->
       same_but_paused (player0 [believer] None) p'.
Proof.
  destruct (pause_resume_delegate S0 Reference.ctx Reference.guild
              (Reference.world [believer] None None)
              (player0 [believer] None) eq_refl eq_refl
              ltac:(intros b q; repeat split)) as (H1 & _ & H3).
  split; [rewrite H1; reflexivity | exact H3].
Defined.

Lemma lookup_failure_leaves_player_witness :
  Music.play S0 Reference.ctx "nothing" (Reference.world [believer] None None)
  = (Ok tt,
     {| players := players (Reference.world [believer] None None);
        voice_clients := {[ 1 := 20 ]};
        g_spotify := Some false; g_lyricstitle := None;
        g_spotifylyrics := None;
        trace := [NodeGetTracks "ytsearch:nothing"; Send "Nothing found!"] |})
  /\ players (Music.playuser S0 Reference.ctx no_result
                (Reference.world [believer] None None)).2
     = players (Reference.world [believer] None None).
Proof.
  destruct (lookup_failure_leaves_player S0 Reference.ctx Reference.guild
              (Reference.world [believer] None None)
              (player0 [believer] None) eq_refl eq_refl) as (H1 & H2).
  split.
  - specialize (H1 "nothing" eq_refl). reflexivity.
  - specialize (H2 no_result [OtherActivity "game"] "Unknown" "Nobody" []
                  eq_refl ltac:(repeat constructor) eq_refl).
    destruct (Music.playuser S0 Reference.ctx no_result
                (Reference.world [believer] None None)) as [res w'].
    destruct H2 as (_ & H2 & _). exact H2.
Defined.

Lemma queue_page_listing_witness :
  Music.queue S0 Reference.ctx 2 (Reference.world twelve None None)
  = (Ok tt,
     stepped (Reference.world twelve None None)
       (players (Reference.world twelve None None))
       [SendEmbed
          {| e_title := None;
             e_description :=
               "**12 tracks**" +:+ nl +:+ "total queue time = 12s" +:+ nl +:+ nl
               +:+ "`11.` [**t11**](https://example.org/t11)" +:+ nl
               +:+ "`12.` [**t12**](https://example.org/t12)" +:+ nl;
             e_colour := ColourValue 255; e_fields := [];
             e_footer := Some "Viewing page 2/2" |}])
  /\ (forall i t,
        (i, t) ∈ Py.enumerate (Py.slice twelve 10 20) 10
        <-> 10 <= i <= 19 /\ twelve !! Z.to_nat i = Some t)
  /\ Py.enumerate (Py.slice twelve 10 20) 10 <> [].
Proof.
  destruct (queue_page_listing S0 Reference.ctx Reference.guild
              (Reference.world twelve None None) (player0 twelve None) 2
              eq_refl eq_refl ltac:(discriminate))
    as (Hrun & _ & Hshown & Hmem).
  split; [exact Hrun |]. split.
  - exact (Hmem ltac:(lia)).
  - apply Hshown. vm_compute. split; discriminate.
Defined.

(** C9 as stated fails for [playuser]: a member with two Spotify
    activities, the first found and the second not, gets the reply
    'Nothing found!' after the first track was enqueued, and after playback
    was started when the player was idle. *)
Lemma playuser_not_atomic :
  let w := Reference.world [] (Some believer) None in
  let idle := Reference.world [] None None in
  let w' := (Music.playuser S0 Reference.ctx two_statuses w).2 in
  let idle' := (Music.playuser S0 Reference.ctx two_statuses idle).2 in
  let song := {| at_data := Reference.track "Song" 1000; at_requester := 7;
                 at_recommended := true |} in
  trace w'
  = [NodeGetTracks "ytsearch:Song Artist";
     OnPlayer 1 (CAdd 7 (Built song));
     SendEmbed (enqueue_embed Reference.ctx (found "Song"));
     NodeGetTracks "ytsearch:Unknown Nobody";
     Send "Nothing found!"]
  /\ p_queue <$> players w !! 1 = Some []
  /\ p_queue <$> players w' !! 1 = Some [song]
  /\ trace idle'
     = [NodeGetTracks "ytsearch:Song Artist";
        OnPlayer 1 (CAdd 7 (Built song));
        SendEmbed (enqueue_embed Reference.ctx (found "Song"));
        OnPlayer 1 CPlay;
        NodeGetTracks "ytsearch:Unknown Nobody";
        Send "Nothing found!"]
  /\ p_current <$> players idle !! 1 = Some None
  /\ p_current <$> players idle' !! 1 = Some (Some song).
Proof. cbv zeta. repeat split; vm_compute; reflexivity. Qed.

(** Outside its pages [queue] does not reply: on a page past the last one
    the loop that binds [queuetime] does not run. *)
Example queue_past_last_page :
  Music.queue S0 Reference.ctx 3 (Reference.world twelve None None)
  = (Raise (Py UnboundLocalError), Reference.world twelve None None).
Proof. vm_compute. reflexivity. Qed.

(** C10 as stated fails below page 1: on page -1 of twelve tracks [queue]
    replies, and lists the first two tracks, those at queue positions 0 and
    1, under the numbers -19 and -18, where the claim has the positions
    [(p-1)*10] to [p*10-1], here -20 to -11, and the 1-based indices, here
    1 and 2. *)
Lemma queue_negative_page :
  let page := -1 in
  let w := Reference.world twelve None None in
  let listed :=
    Py.enumerate (Py.slice twelve ((page - 1) * 10) ((page - 1) * 10 + 10))
                 ((page - 1) * 10) in
  Music.queue S0 Reference.ctx page w
  = (Ok tt,
     stepped w (players w)
       [SendEmbed (queue_embed Reference.guild 12 page listed "2s")])
  /\ listed = [(-20, Reference.queued "t1" 1000); (-19, Reference.queued "t2" 2000)]
  /\ Music.queue_lines listed
     = "`-19.` [**t1**](https://example.org/t1)" +:+ nl
       +:+ "`-18.` [**t2**](https://example.org/t2)" +:+ nl
  /\ twelve !! 0%nat = Some (Reference.queued "t1" 1000)
  /\ twelve !! 1%nat = Some (Reference.queued "t2" 2000)
  /\ ~ (forall i t,
          (i, t) ∈ listed
          <-> (page - 1) * 10 <= i <= page * 10 - 1
              /\ twelve !! Z.to_nat i = Some t).
Proof.
  cbv zeta.
  assert (Hl : Py.enumerate (Py.slice twelve ((-1 - 1) * 10) ((-1 - 1) * 10 + 10))
                 ((-1 - 1) * 10)
               = [(-20, Reference.queued "t1" 1000);
                  (-19, Reference.queued "t2" 2000)])
    by (vm_compute; reflexivity).
  split; [vm_compute; reflexivity |].
  split; [exact Hl |].
  split; [vm_compute; reflexivity |].
  split; [reflexivity |]. split; [reflexivity |].
  rewrite Hl. intros H.
  destruct (H (-19) (Reference.queued "t2" 2000)) as [H1 _].
  destruct H1 as [_ H1]; [apply list_elem_of_In; simpl; tauto |].
  vm_compute in H1. discriminate H1.
Qed.

(** The 'total queue time' of a page is not the sum over the queue: twelve
    tracks of 1 to 12 seconds give '12s', not '78s'. *)
Example queue_time_is_not_a_sum :
  Music.queuetime_of S0 (Py.enumerate (Py.slice twelve 10 20) 10) = Some "12s"
  /\ lv_format_time S0 (fold_right Z.add 0 (map at_duration twelve)) = "78s".
Proof. split; vm_compute; reflexivity. Qed.

(** ** Further properties of the handlers *)

Section Further.

Context (S : Services).

(** *** The URL test *)

Lemma drop_prefix_app p s : Py.drop_prefix p (p +:+ s) = Some s.
Proof.
  induction p as [|a p IH]; [reflexivity |].
  rewrite PyFacts.app_cons. simpl. now rewrite decide_True by reflexivity.
Qed.

Lemma drop_prefix_Some p : forall s r,
  Py.drop_prefix p s = Some r -> s = p +:+ r.
Proof.
  induction p as [|a p IH]; intros s r H; simpl in H.
  - now injection H as ->.
  - destruct s as [|b s]; [discriminate |].
    destruct (decide (a = b)) as [->|]; [| discriminate].
    rewrite PyFacts.app_cons. f_equal. now apply IH.
Qed.

Lemma dot_plus_true s :
  dot_plus s = true <-> exists c rest, s = String c rest /\ c <> ascii_of_nat 10.
Proof.
  destruct s as [|c rest]; simpl.
  - split; [discriminate | intros (c & rest & H & _); discriminate].
  - rewrite negb_true_iff, bool_decide_eq_false. split.
    + intros H. now exists c, rest.
    + intros (c' & rest' & H & Hc). now injection H as -> ->.
Qed.

(** X1: [url_rx.match] accepts a text exactly when it starts with
    [http://] or [https://] followed by at least one character that is not
    a newline; the optional [www.] group of the pattern changes nothing. *)
Theorem url_rx_match_iff (s : string) : url_rx_match s = true <-> is_url s.
Proof.
  assert (Hk : forall x,
    match Py.drop_prefix "://" x with
    | None => false
    | Some s3 => opt_then "www." s3 dot_plus
    end = true
    <-> exists c rest, x = "://" +:+ String c rest /\ c <> ascii_of_nat 10).
  { intros x. split.
    - destruct (Py.drop_prefix "://" x) as [s3|] eqn:E; [| discriminate].
      apply drop_prefix_Some in E as ->. unfold opt_then.
      destruct (Py.drop_prefix "www." s3) as [s4|] eqn:E2.
      + intros _. apply drop_prefix_Some in E2 as ->.
        exists "w"%char, ("ww." +:+ s4). split; [reflexivity | discriminate].
      + intros H. apply dot_plus_true in H as (c & rest & -> & Hc).
        now exists c, rest.
    - intros (c & rest & -> & Hc). rewrite drop_prefix_app. unfold opt_then.
      assert (Hd : dot_plus (String c rest) = true)
        by (apply dot_plus_true; eauto).
      destruct (Py.drop_prefix "www." (String c rest));
        [apply orb_true_iff; now right | exact Hd]. }
  unfold url_rx_match, is_url. split.
  - destruct (Py.drop_prefix "http" s) as [s1|] eqn:E; [| discriminate].
    apply drop_prefix_Some in E as ->. unfold opt_then at 1.
    destruct (Py.drop_prefix "s" s1) as [s2|] eqn:E2.
    + apply drop_prefix_Some in E2 as ->. intros H.
      apply orb_true_iff in H as [H|H]; apply Hk in H as (c & rest & H & Hc).
      * subst s2. exists c, rest. split; [exact Hc | now right].
      * discriminate H.
    + intros H. apply Hk in H as (c & rest & -> & Hc).
      exists c, rest. split; [exact Hc | now left].
  - intros (c & rest & Hc & [-> | ->]).
    + change ("http://" +:+ String c rest)
        with ("http" +:+ "://" +:+ String c rest).
      rewrite drop_prefix_app. unfold opt_then at 1.
      change (Py.drop_prefix "s" ("://" +:+ String c rest)) with (@None string).
      cbv beta iota. apply Hk. eauto.
    + change ("https://" +:+ String c rest)
        with ("http" +:+ "s" +:+ "://" +:+ String c rest).
      rewrite drop_prefix_app. unfold opt_then at 1. rewrite drop_prefix_app.
      apply orb_true_iff. left. apply Hk. eauto.
Qed.

(** *** The cleaning of titles *)

Lemma filter_words_ext (P1 P2 : string -> Prop)
    `{!forall x, Decision (P1 x), !forall x, Decision (P2 x)} (l : list string) :
  Forall is_word l ->
  (forall x, is_word x -> (P1 x <-> P2 x)) ->
  filter P1 l = filter P2 l.
Proof.
  intros Hl Hiff. induction Hl as [|x l Hx Hl IH]; [reflexivity |].
  destruct (decide (P1 x)) as [H1|H1].
  - assert (H2 : P2 x) by (apply (Hiff x Hx); exact H1).
    rewrite (filter_cons_True P1), (filter_cons_True P2) by assumption.
    now rewrite IH.
  - assert (H2 : ~ P2 x) by (intros H2; apply H1, (Hiff x Hx); exact H2).
    rewrite (filter_cons_False P1), (filter_cons_False P2) by assumption.
    exact IH.
Qed.

(** X2: of the seven stop words of [lyrics] only four can take effect:
    ['(Official Video)'], [' (Audio)'] and ['(Official Music Video)']
    contain a space, and no word that [split] yields does, so a title keeps
    the words of such a phrase. *)
Theorem stopwords_with_spaces_are_dead (title : string) :
  kept_words title
  = filter (fun word => word ∉ single_stopwords) (Py.split title).
Proof.
  unfold kept_words. apply filter_words_ext; [apply PyFacts.split_words |].
  intros x [_ Hx]. unfold Music.stopwords, single_stopwords.
  rewrite !not_elem_of_cons. split.
  - intros (A & B & C & _ & D & _ & _ & E). repeat split; assumption.
  - intros (A & B & C & D & E). repeat split; try assumption;
      intros ->; discriminate Hx.
Qed.

(** X3: cleaning a title is idempotent: a cleaned title has no stop word
    left to remove and [split] finds its words again. *)
Theorem clean_title_idempotent (title : string) :
  Music.clean_title (Music.clean_title title) = Music.clean_title title.
Proof.
  unfold Music.clean_title at 1. rewrite split_clean_title.
  unfold kept_words, Music.clean_title.
  now rewrite list_filter_filter_l by tauto.
Qed.

(** *** The query of [play] *)

Lemma index_nonneg {A} (l : list A) i :
  0 <= i -> Py.index l i = l !! Z.to_nat i.
Proof.
  intros H. unfold Py.index.
  destruct (Z.leb_spec 0 i) as [E|E]; [reflexivity | lia].
Qed.

Lemma index_minus_one {A} (l : list A) : Py.index l (-1) = last l.
Proof.
  unfold Py.index. simpl (0 <=? -1).
  destruct l as [|x l] using rev_ind; [reflexivity |].
  rewrite length_app, last_snoc. simpl length.
  destruct (Z.leb_spec 0 (Z.of_nat (length l + 1) + -1)) as [E|E]; [| lia].
  replace (Z.to_nat (Z.of_nat (length l + 1) + -1)) with (length l) by lia.
  change (0 <=? -1) with false. cbv iota.
  now rewrite list_lookup_middle.
Qed.

Lemma playlist_loop_step response n query :
  Music.playlist_loop S response (Datatypes.S n) query
  = match Py.index response (Z.of_nat n - 1) ≫= item_query S with
    | Some query' => Music.playlist_loop S response n query'
    | None => (false, query)
    end.
Proof.
  cbn [Music.playlist_loop].
  destruct (Py.index response (Z.of_nat n - 1)) as [[songs|]|]; reflexivity.
Qed.

(** X4: a Spotify playlist answer of fewer than 49 items is never read:
    the loop of [play] starts at item 48, so when the text is no Spotify
    track, [play] falls back to the plain search for the text itself, as it
    does when the playlist lookup raises. *)
Theorem short_playlist_falls_back (query : string)
    (response : list (option string)) :
  sp_track S query ≫= Music.sp_query = None ->
  (length response < 49)%nat ->
  Music.playlist_loop S response 50 query = (false, query)
  /\ (sp_playlist_items S query = Some response
      \/ sp_playlist_items S query = None ->
      Music.play_query S query = Music.search_prefixed query).
Proof.
  intros Htrack Hlen.
  assert (Hloop : Music.playlist_loop S response 50 query = (false, query)).
  { rewrite playlist_loop_step, index_nonneg by lia.
    now rewrite lookup_ge_None_2 by lia. }
  split; [exact Hloop |].
  unfold Music.play_query. rewrite Htrack.
  intros [-> | ->]; [now rewrite Hloop | reflexivity].
Qed.

Lemma playlist_loop_all response q_last :
  last response ≫= item_query S = Some q_last ->
  Forall (fun item => is_Some (item_query S item)) response ->
  forall n query,
    (n <= length response)%nat ->
    Music.playlist_loop S response (Datatypes.S n) query = (true, q_last).
Proof.
  intros Hlast Hall. induction n as [|n IH]; intros query Hn.
  - rewrite playlist_loop_step. change (Z.of_nat 0 - 1) with (-1).
    now rewrite index_minus_one, Hlast.
  - rewrite playlist_loop_step, index_nonneg by lia.
    destruct (lookup_lt_is_Some_2 response (Z.to_nat (Z.of_nat (Datatypes.S n) - 1)))
      as [item Hitem]; [lia |].
    rewrite Hitem. simpl.
    destruct (proj1 (Forall_lookup _ _) Hall _ _ Hitem) as [q' Hq'].
    rewrite Hq'. apply IH. lia.
Qed.

(** X5: of a Spotify playlist answer of 49 items or more, all of which
    resolve, [play] keeps the query of the last item only: the loop
    overwrites [query] at every item and ends on index -1, so one track is
    looked up whatever the length of the playlist. *)
Theorem long_playlist_keeps_last_item (query : string)
    (response : list (option string)) :
  sp_track S query ≫= Music.sp_query = None ->
  sp_playlist_items S query = Some response ->
  (49 <= length response)%nat ->
  Forall (fun item => is_Some (item_query S item)) response ->
  exists q_last,
    last response ≫= item_query S = Some q_last
    /\ Music.play_query S query = q_last.
Proof.
  intros Htrack Hitems Hlen Hall.
  assert (Hlast : exists q_last, last response ≫= item_query S = Some q_last).
  { destruct (last response) as [item|] eqn:E.
    - destruct (proj1 (Forall_forall _ _) Hall item) as [q Hq];
        [| exists q; exact Hq].
      apply last_Some in E as [l' ->]. set_solver.
    - apply last_None in E. subst. simpl in Hlen. lia. }
  destruct Hlast as (q_last & Hlast). exists q_last. split; [exact Hlast |].
  unfold Music.play_query. rewrite Htrack, Hitems.
  now rewrite (playlist_loop_all response q_last Hlast Hall 49 query Hlen).
Qed.

(** *** The title that [play] stores for [lyrics] *)

Lemma lstrip_prefix chars p s :
  (forall c, c ∈ list_ascii_of_string p -> Py.mem_char c chars = true) ->
  Py.lstrip chars (p +:+ s) = Py.lstrip chars s.
Proof.
  induction p as [|c p IH]; intros H; [reflexivity |].
  rewrite PyFacts.app_cons. cbn [Py.lstrip].
  rewrite H by (simpl; left). apply IH. intros d Hd. apply H. simpl. now right.
Qed.

Lemma lstrip_outside chars s :
  first_outside chars s = true -> Py.lstrip chars s = s.
Proof.
  destruct s as [|c s]; [discriminate |]. simpl. intros H.
  apply negb_true_iff in H. now rewrite H.
Qed.

Lemma rstrip_outside chars s :
  last_outside chars s = true -> Py.rstrip chars s = s.
Proof.
  induction s as [|c s IH]; [discriminate |]. intros H.
  destruct s as [|d s].
  - simpl in *. apply negb_true_iff in H. now rewrite H.
  - change (last_outside chars (String c (String d s)))
      with (last_outside chars (String d s)) in H.
    change (Py.rstrip chars (String c (String d s)))
      with (if Py.is_empty (Py.rstrip chars (String d s)) && Py.mem_char c chars
            then "" else String c (Py.rstrip chars (String d s))).
    rewrite (IH H). reflexivity.
Qed.

Lemma length_lstrip chars s :
  (String.length (Py.lstrip chars s) <= String.length s)%nat.
Proof.
  induction s as [|c s IH]; [reflexivity |]. simpl.
  destruct (Py.mem_char c chars); simpl; lia.
Qed.

Lemma length_rstrip chars s :
  (String.length (Py.rstrip chars s) <= String.length s)%nat.
Proof.
  induction s as [|c s IH]; [reflexivity |]. cbn [Py.rstrip].
  destruct (Py.is_empty _ && _); simpl; lia.
Qed.

Lemma rstrip_inside chars s :
  s <> "" -> last_outside chars s = false ->
  (String.length (Py.rstrip chars s) < String.length s)%nat.
Proof.
  induction s as [|c s IH]; [congruence |]. intros _ H.
  destruct s as [|d s].
  - simpl in *. apply negb_false_iff in H. rewrite H. simpl. lia.
  - change (last_outside chars (String c (String d s)))
      with (last_outside chars (String d s)) in H.
    specialize (IH ltac:(discriminate) H).
    set (r := Py.rstrip chars (String d s)) in *.
    change (Py.rstrip chars (String c (String d s)))
      with (if Py.is_empty r && Py.mem_char c chars then "" else String c r).
    destruct (Py.is_empty r && Py.mem_char c chars); simpl in *; lia.
Qed.

(** X6: [s.strip('ytsearch:')], which [play] applies to its query before
    storing it for [lyrics], removes characters, not a prefix: it gives back
    the text after a [ytsearch:] prefix exactly when that text neither
    starts nor ends with one of the characters [y t s e a r c h :]; any
    other non-empty text is stored shortened. *)
Theorem stored_title_is_text_iff (text : string) :
  Py.strip "ytsearch:" ("ytsearch:" +:+ text) = Py.strip "ytsearch:" text
  /\ (text <> "" ->
      (Py.strip "ytsearch:" text = text
       <-> first_outside "ytsearch:" text && last_outside "ytsearch:" text = true)).
Proof.
  split.
  - unfold Py.strip. rewrite lstrip_prefix; [reflexivity |].
    intros c Hc. apply list_elem_of_In in Hc. simpl in Hc.
    repeat (destruct Hc as [<- | Hc]; [reflexivity |]). contradiction.
  - intros Hne. split.
    + intros Heq. apply andb_true_iff.
      destruct (first_outside "ytsearch:" text) eqn:Hf.
      * split; [reflexivity |].
        destruct (last_outside "ytsearch:" text) eqn:Hl; [reflexivity |].
        unfold Py.strip in Heq. rewrite lstrip_outside in Heq by exact Hf.
        pose proof (rstrip_inside "ytsearch:" text Hne Hl) as Hlt.
        rewrite Heq in Hlt. lia.
      * exfalso. destruct text as [|c text]; [congruence |].
        simpl in Hf. apply negb_false_iff in Hf.
        unfold Py.strip in Heq. cbn [Py.lstrip] in Heq. rewrite Hf in Heq.
        pose proof (length_rstrip "ytsearch:" (Py.lstrip "ytsearch:" text)).
        pose proof (length_lstrip "ytsearch:" text).
        rewrite Heq in *. simpl in *. lia.
    + intros H. apply andb_true_iff in H as [Hf Hl]. unfold Py.strip.
      rewrite lstrip_outside by exact Hf. now apply rstrip_outside.
Qed.


(** *** [lyrics] outside its fallback chain *)

Lemma lyrics_titles_run k p track h w :
  players w !! k = Some p -> p_current p = Some track ->
  try_except
    (new ← Music.current_title (Some k); mret (Music.clean_title new)) h w
  = (Ok (Music.clean_title (at_title track)), w).
Proof.
  intros Hp Hc. apply try_ok.
  now rewrite (bind_ok _ _ _ _ _ (current_title_run _ _ _ _ Hp Hc)).
Qed.

Lemma global_run {A} (f : World -> option A) w a :
  f w = Some a -> global f w = (Ok a, w).
Proof. intros H. unfold global. now rewrite H. Qed.

Lemma global_unbound {A} (f : World -> option A) w :
  f w = None -> global f w = (Raise (Py NameError), w).
Proof. intros H. unfold global. now rewrite H. Qed.

(** X8: only the play mode of [lyrics] has a fallback.  While a track is
    current: before any [play] or [playuser] bound [spotify] the handler
    raises [NameError] and sends nothing; with a song argument, or in
    Spotify mode, a search that finds nothing raises [AttributeError], and
    'Lyrics not Found' is not sent. *)
Theorem lyrics_without_fallback (ctx : Context) (gd : Guild) (w : World)
    (p : Player) (track : AudioTrack) :
  ctx_guild ctx = Some gd ->
  players w !! g_id gd = Some p ->
  p_current p = Some track ->
  (g_spotify w = None ->
   Music.lyrics S ctx None w = (Raise (Py NameError), w))
  /\ (forall song,
        genius_search_song S song = Ok None ->
        Music.lyrics S ctx (Some song) w
        = (Raise (Py AttributeError),
           stepped w (players w) [GeniusSearch song; Typing]))
  /\ (forall query,
        g_spotify w = Some true ->
        g_spotifylyrics w = Some query ->
        genius_search_song S query = Ok None ->
        Music.lyrics S ctx None w
        = (Raise (Py AttributeError),
           stepped w (players w) [GeniusSearch query])).
Proof.
  intros Hg Hp Hc.
  split; [| split].
  - intros Hsp. unfold Music.lyrics.
    rewrite (bind_ok _ _ _ _ _ (guild_id_run _ _ _ Hg)).
    rewrite (bind_ok _ _ _ _ _ (player_manager_get_run _ _ _ Hp)).
    rewrite (bind_ok _ _ _ _ _ (lyrics_titles_run _ _ _ _ _ Hp Hc)).
    now rewrite (bind_raise _ _ _ _ _ (global_unbound _ _ Hsp)).
  - intros song Hsong. unfold Music.lyrics.
    rewrite (bind_ok _ _ _ _ _ (guild_id_run _ _ _ Hg)).
    rewrite (bind_ok _ _ _ _ _ (player_manager_get_run _ _ _ Hp)).
    rewrite (bind_ok _ _ _ _ _ (lyrics_titles_run _ _ _ _ _ Hp Hc)).
    unfold mbind at 1, M_bind at 1. rewrite search_song_run, Hsong.
    rewrite (bind_ok _ _ _ _ _ (emit_run _ _)), stepped_stepped.
    reflexivity.
  - intros query Hsp Hq Hnone. unfold Music.lyrics.
    rewrite (bind_ok _ _ _ _ _ (guild_id_run _ _ _ Hg)).
    rewrite (bind_ok _ _ _ _ _ (player_manager_get_run _ _ _ Hp)).
    rewrite (bind_ok _ _ _ _ _ (lyrics_titles_run _ _ _ _ _ Hp Hc)).
    rewrite (bind_ok _ _ _ _ _ (global_run _ _ _ Hsp)).
    rewrite (bind_ok _ _ _ _ _ (global_run _ _ _ Hq)).
    unfold mbind at 1, M_bind at 1. rewrite search_song_run, Hnone.
    set (w1 := stepped w _ _).
    assert (Hp1 : players w1 !! g_id gd = Some p) by exact Hp.
    rewrite (bind_ok _ _ _ _ _ (current_title_run _ _ _ _ Hp1 Hc)).
    reflexivity.
Qed.

(** *** Changing the queue and the flags *)

Lemma update_run k (f : Player -> Player) w p :
  players w !! k = Some p ->
  update (Some k) f w = (Ok tt, stepped w (<[k := f p]> (players w)) []).
Proof.
  intros H. unfold update.
  rewrite (bind_ok _ _ _ _ _ (attr_run _ _ _ _ H)).
  unfold set_players, stepped. rewrite (alter_present _ _ _ _ H).
  now rewrite app_nil_r.
Qed.

(** X9: [remove] takes out exactly the track at position [index - 1]: for
    an index from 1 to the length of the queue it names that track, the
    tracks before it stay in place and those after it move up by one; any
    other index, and an empty queue, only get a reply. *)
Theorem remove_at_index (ctx : Context) (gd : Guild) (w : World) (p : Player)
    (index : Z) :
  ctx_guild ctx = Some gd ->
  players w !! g_id gd = Some p ->
  let q := p_queue p in
  let n := Z.of_nat (length q) in
  let i := Z.to_nat (index - 1) in
  (q = [] ->
   Music.remove ctx index w
   = (Ok tt, stepped w (players w) [Send "Nothing queued."]))
  /\ (q <> [] -> index < 1 \/ n < index ->
      Music.remove ctx index w
      = (Ok tt,
         stepped w (players w) [Send "Index has to be >=1 and <=queue size"]))
  /\ (1 <= index <= n ->
      exists removed,
        q !! i = Some removed
        /\ Music.remove ctx index w
           = (Ok tt,
              stepped w
                (<[g_id gd := Music.set_queue (delete i q) p]> (players w))
                [Send ("Removed **" +:+ at_title removed
                       +:+ "** from the queue.")])
        /\ length (delete i q) = (length q - 1)%nat
        /\ (forall j, (j < i)%nat -> delete i q !! j = q !! j)
        /\ (forall j, (i <= j)%nat -> delete i q !! j = q !! Datatypes.S j)).
Proof.
  intros Hg Hp q n i.
  unfold Music.remove.
  rewrite (bind_ok _ _ _ _ _ (guild_id_run _ _ _ Hg)).
  rewrite (bind_ok _ _ _ _ _ (player_manager_get_run _ _ _ Hp)).
  rewrite (bind_ok _ _ _ _ _ (attr_run _ _ _ _ Hp)). fold q.
  split; [| split].
  - intros ->. reflexivity.
  - intros Hq Hbad. rewrite match_nonempty by exact Hq. fold n.
    assert (Hb : (n <? index) || (index <? 1) = true).
    { apply orb_true_iff. destruct Hbad; [right | left]; lia. }
    now rewrite Hb.
  - intros Hin.
    assert (Hq : q <> []) by (intros E; unfold n in Hin; rewrite E in Hin; simpl in Hin; lia).
    rewrite match_nonempty by exact Hq. fold n.
    assert (Hb : (n <? index) || (index <? 1) = false).
    { apply orb_false_iff. split; lia. }
    rewrite Hb.
    destruct (lookup_lt_is_Some_2 q i) as [removed Hrem];
      [unfold i, n in *; lia |].
    exists removed. split; [exact Hrem |]. split; [| split; [| split]].
    + cbv zeta. unfold subscript. rewrite index_nonneg by lia. fold i.
      rewrite Hrem.
      rewrite (bind_ok _ _ _ _ _ (ret_run removed w)).
      rewrite (bind_ok _ _ _ _ _ (update_run _ _ _ _ Hp)).
      now rewrite send_run, stepped_stepped.
    + rewrite length_delete by eauto. reflexivity.
    + intros j Hj. now apply list_lookup_delete_lt.
    + intros j Hj. now apply list_lookup_delete_ge.
Qed.

Lemma set_shuffle_twice b p :
  Music.set_shuffle (negb (negb b)) (Music.set_shuffle (negb b) p)
  = Music.set_shuffle b p.
Proof. unfold Music.set_shuffle. simpl. now rewrite negb_involutive. Qed.

Lemma set_shuffle_same p : Music.set_shuffle (p_shuffle p) p = p.
Proof. now destruct p. Qed.

(** X10: [shuffle] flips the shuffle flag of a playing player and changes
    nothing else, replying with the new state; on a player that is not
    playing it only replies.  Twice in a row, on a player whose playing
    does not depend on the flag, it leaves every player as it was. *)
Theorem shuffle_toggles (ctx : Context) (gd : Guild) (w : World) (p : Player) :
  ctx_guild ctx = Some gd ->
  players w !! g_id gd = Some p ->
  let flipped := Music.set_shuffle (negb (p_shuffle p)) p in
  (lv_is_playing S p = false ->
   Music.shuffle S ctx w
   = (Ok tt, stepped w (players w) [Send "Nothing playing."]))
  /\ (lv_is_playing S p = true ->
      Music.shuffle S ctx w
      = (Ok tt,
         stepped w (<[g_id gd := flipped]> (players w))
           [Send (glyph S GShuffle +:+ " | Shuffle "
                  +:+ (if negb (p_shuffle p) then "enabled" else "disabled"))]))
  /\ (lv_is_playing S p = true -> lv_is_playing S flipped = true ->
      players (Music.shuffle S ctx (Music.shuffle S ctx w).2).2 = players w).
Proof.
  intros Hg Hp flipped.
  assert (Hrun : forall w0 p0,
    players w0 !! g_id gd = Some p0 ->
    Music.shuffle S ctx w0
    = if lv_is_playing S p0
      then (Ok tt,
            stepped w0
              (<[g_id gd := Music.set_shuffle (negb (p_shuffle p0)) p0]>
                 (players w0))
              [Send (glyph S GShuffle +:+ " | Shuffle "
                     +:+ (if negb (p_shuffle p0) then "enabled"
                          else "disabled"))])
      else (Ok tt, stepped w0 (players w0) [Send "Nothing playing."])).
  { intros w0 p0 Hp0. unfold Music.shuffle.
    rewrite (bind_ok _ _ _ _ _ (guild_id_run _ _ _ Hg)).
    rewrite (bind_ok _ _ _ _ _ (player_manager_get_run _ _ _ Hp0)).
    rewrite (bind_ok _ _ _ _ _ (attr_run _ _ _ _ Hp0)).
    destruct (lv_is_playing S p0); cbn [negb]; [| reflexivity].
    rewrite (bind_ok _ _ _ _ _ (update_run _ _ _ _ Hp0)).
    set (w1 := stepped w0 _ _).
    assert (Hp1 : players w1 !! g_id gd
                  = Some (Music.set_shuffle (negb (p_shuffle p0)) p0))
      by (simpl; apply lookup_insert_eq).
    rewrite (bind_ok _ _ _ _ _ (attr_run _ _ _ _ Hp1)).
    rewrite send_run. unfold w1. now rewrite stepped_stepped. }
  split; [| split].
  - intros Hpl. now rewrite (Hrun w p Hp), Hpl.
  - intros Hpl. now rewrite (Hrun w p Hp), Hpl.
  - intros Hpl Hpl'. rewrite (Hrun w p Hp), Hpl. cbn [snd].
    set (w1 := stepped w _ _).
    assert (Hp1 : players w1 !! g_id gd = Some flipped)
      by (simpl; apply lookup_insert_eq).
    rewrite (Hrun w1 flipped Hp1), Hpl'. simpl.
    rewrite insert_insert_eq. unfold flipped.
    change (p_shuffle (Music.set_shuffle (negb (p_shuffle p)) p))
      with (negb (p_shuffle p)).
    rewrite set_shuffle_twice, set_shuffle_same. now apply insert_id.
Qed.

(** *** Choosing from a search *)

Lemma of_res_run {A} (r : Res A) w : of_res r w = (r, w).
Proof. reflexivity. Qed.

Lemma slice_first_ten {A} (l : list A) : Py.slice l 0 10 = take 10 l.
Proof. exact (slice_page l 0 ltac:(lia)). Qed.

(** X11: [search_music] lists the first ten results and enqueues the one
    the author picks by number; the number is used as a Python index less
    one, so 1 to the length of the listing pick that entry, 0 picks the
    last entry, and a number past the listing raises [IndexError] after the
    listing was sent, with nothing enqueued.  A falsy answer of the node is
    not guarded: it raises [TypeError]. *)
Theorem search_music_choice (ctx : Context) (gd : Guild) (w : World)
    (p : Player) (search : string) :
  ctx_guild ctx = Some gd ->
  players w !! g_id gd = Some p ->
  let query := "ytsearch:" +:+ search in
  let author := Music.author_id ctx in
  (node_get_tracks S query = None ->
   Music.search_music S ctx search w
   = (Raise (Py TypeError), stepped w (players w) [NodeGetTracks query]))
  /\ (forall r n,
        node_get_tracks S query = Some r ->
        reply_int S author = Ok n ->
        let listing := take 10 (tracks r) in
        let asked :=
          [NodeGetTracks query;
           ChannelSendEmbed
             {| e_title := Some ("Search results for " +:+ search);
                e_description := Music.query_result 0 listing;
                e_colour := ColourValue (m_color (ctx_author ctx));
                e_fields := []; e_footer := None |};
           WaitForMessage author] in
        (1 <= n <= Z.of_nat (length listing) ->
         Py.index listing (n - 1) = listing !! Z.to_nat (n - 1))
        /\ (n = 0 -> Py.index listing (n - 1) = last listing)
        /\ (Z.of_nat (length listing) < n -> Py.index listing (n - 1) = None)
        /\ match Py.index listing (n - 1) with
           | None =>
               Music.search_music S ctx search w
               = (Raise (Py IndexError), stepped w (players w) asked)
           | Some track =>
               let p1 := lv_add S author (Dict track) p in
               let playing := lv_is_playing S p1 in
               Music.search_music S ctx search w
               = (Ok tt,
                  stepped w
                    (<[g_id gd := if playing then p1 else lv_play S p1]>
                       (players w))
                    (asked ++ OnPlayer (g_id gd) (CAdd author (Dict track))
                       :: (if playing then [] else [OnPlayer (g_id gd) CPlay])))
           end).
Proof.
  intros Hg Hp query author.
  assert (Hstart : forall res,
    node_get_tracks S query = res ->
    Music.search_music S ctx search w
    = match res with
      | None => raise TypeError
      | Some r =>
          let tracks := Py.slice (tracks r) 0 10 in
          let embed :=
            {| e_title := Some ("Search results for " +:+ search);
               e_description := Music.query_result 0 tracks;
               e_colour := ColourValue (m_color (ctx_author ctx));
               e_fields := []; e_footer := None |} in
          emit (ChannelSendEmbed embed);;
          emit (WaitForMessage (Music.author_id ctx));;
          n ← of_res (reply_int S (Music.author_id ctx));
          track ← subscript tracks (n - 1);
          on_player S (Some (g_id gd)) (CAdd (Music.author_id ctx) (Dict track));;
          playing ← attr (Some (g_id gd)) (lv_is_playing S);
          if negb playing then on_player S (Some (g_id gd)) CPlay else mret tt
      end (stepped w (players w) [NodeGetTracks query])).
  { intros res Hres. unfold Music.search_music.
    rewrite (bind_ok _ _ _ _ _ (guild_id_run _ _ _ Hg)).
    rewrite (bind_ok _ _ _ _ _ (player_manager_get_run _ _ _ Hp)).
    rewrite (bind_ok _ _ _ _ _ (get_tracks_run S _ _ _ _ Hp)).
    fold query. now rewrite Hres. }
  split.
  - intros Hnone. now rewrite (Hstart _ Hnone).
  - intros r n Hr Hn listing asked.
    split; [| split; [| split]].
    + intros Hin. apply index_nonneg. lia.
    + intros ->. apply index_minus_one.
    + intros Hout. rewrite index_nonneg by lia. apply lookup_ge_None_2. lia.
    + rewrite (Hstart _ Hr). cbv zeta. rewrite slice_first_ten. fold listing.
      rewrite (bind_ok _ _ _ _ _ (emit_run _ _)), stepped_stepped.
      rewrite (bind_ok _ _ _ _ _ (emit_run _ _)), stepped_stepped.
      fold author. rewrite Hn.
      rewrite (bind_ok _ _ _ _ _ (of_res_run (Ok n) _)).
      unfold subscript.
      destruct (Py.index listing (n - 1)) as [track|]; [| reflexivity].
      rewrite (bind_ok _ _ _ _ _ (ret_run track _)).
      set (w1 := stepped w _ _).
      assert (Hp1 : players w1 !! g_id gd = Some p) by exact Hp.
      rewrite (bind_ok _ _ _ _ _ (on_player_run S _ _ _ _ Hp1)).
      set (w2 := stepped w1 _ _).
      assert (Hp2 : players w2 !! g_id gd
                    = Some (lv_add S author (Dict track) p))
        by (simpl; apply lookup_insert_eq).
      rewrite (bind_ok _ _ _ _ _ (attr_run _ _ _ _ Hp2)).
      cbv zeta. destruct (lv_is_playing S _); cbn [negb].
      * rewrite ret_run. unfold w2, w1. rewrite stepped_stepped.
        reflexivity.
      * rewrite (on_player_run S _ _ _ _ Hp2). unfold w2, w1.
        rewrite !stepped_stepped. simpl. now rewrite insert_insert_eq.
Qed.

(** *** The voice check before every command *)

Lemma with_player_lookup gd w :
  players (with_player S gd w) !! g_id gd = Some (player_of S gd w).
Proof. simpl. apply lookup_insert_eq. Qed.

Lemma with_player_present gd w p :
  players w !! g_id gd = Some p ->
  with_player S gd w = w /\ player_of S gd w = p.
Proof.
  intros H. unfold with_player, player_of. rewrite H.
  rewrite (insert_id _ _ _ H). split; [apply stepped_id | reflexivity].
Qed.

Lemma create_run gd w :
  player_manager_create S (g_id gd) (Some (g_region gd)) w
  = (Ok (Some (g_id gd)), with_player S gd w).
Proof.
  unfold player_manager_create, mbind, M_bind, player_manager_get.
  destruct (players w !! g_id gd) as [p|] eqn:E.
  - now rewrite (proj1 (with_player_present gd w p E)).
  - unfold with_player, player_of, stepped, set_players. rewrite E.
    simpl. now rewrite app_nil_r.
Qed.

(** What [ensure_voice] does once the player is there. *)
Lemma ensure_voice_run ctx gd name w :
  ctx_guild ctx = Some gd ->
  Music.ensure_voice S ctx name w
  = match m_voice (ctx_author ctx) with
    | None | Some None =>
        raise (CommandInvokeError (inl "Join a voicechannel first."))
    | Some (Some channel) =>
        connected ← attr (Some (g_id gd)) (lv_is_connected S);
        if negb connected then
          if negb (str_in name ["play"; "search_music"; "playuser"; "join"])
          then raise (CommandInvokeError (inl "Not connected."))
          else if negb (vc_connect channel) || negb (vc_speak channel) then
            raise (CommandInvokeError
                     (inl "I need the `CONNECT` and `SPEAK` permissions."))
          else
            on_player S (Some (g_id gd)) (CStore "channel" (ctx_channel_id ctx));;
            channel_connect S (g_id gd) (vc_id channel)
        else
          channel_id ← attr (Some (g_id gd)) p_channel_id;
          match channel_id with
          | None => raise TypeError
          | Some c =>
              if bool_decide (c ≠ vc_id channel)
              then raise (CommandInvokeError
                            (inl "You need to be in my voicechannel."))
              else mret tt
          end
    end (with_player S gd w).
Proof.
  intros Hg. unfold Music.ensure_voice. rewrite Hg.
  rewrite (bind_ok _ _ _ _ _ (ret_run gd w)).
  now rewrite (bind_ok _ _ _ _ _ (create_run gd w)).
Qed.

Lemma before_invoke_run ctx gd name w :
  ctx_guild ctx = Some gd ->
  Music.cog_before_invoke S ctx name w
  = (Music.ensure_voice S ctx name;; mret true) w.
Proof. intros Hg. unfold Music.cog_before_invoke. now rewrite Hg. Qed.

(** X12: a command of an author who is in no voice channel is refused
    before its handler runs, whatever the command: the only reply is 'Join
    a voicechannel first.', no call is made, and the only change is that
    the guild has a player from then on. *)
Theorem outside_voice_is_refused (c : Music.Command) (ctx : Context)
    (gd : Guild) (w : World) :
  ctx_guild ctx = Some gd ->
  outside_voice ctx ->
  Music.invoke S c ctx w
  = (Ok tt,
     stepped w (<[g_id gd := player_of S gd w]> (players w))
       [Send "Join a voicechannel first."])
  /\ (forall p, players w !! g_id gd = Some p ->
      <[g_id gd := player_of S gd w]> (players w) = players w).
Proof.
  intros Hg Hout. split.
  - unfold Music.invoke.
    rewrite (before_invoke_run _ _ _ _ Hg).
    assert (He : Music.ensure_voice S ctx (Music.command_name c) w
                 = (Raise (CommandInvokeError (inl "Join a voicechannel first.")),
                    with_player S gd w)).
    { rewrite (ensure_voice_run _ _ _ _ Hg). unfold outside_voice in Hout.
      destruct (m_voice (ctx_author ctx)) as [[ch|]|];
        [contradiction | reflexivity | reflexivity]. }
    rewrite (bind_raise _ _ _ _ _ He).
    unfold Music.cog_command_error. rewrite send_run.
    unfold with_player. now rewrite stepped_stepped.
  - intros p Hp. unfold player_of. rewrite Hp. now apply insert_id.
Qed.


Lemma moved_stepped w ps evs vs evs' ps' :
  moved (stepped w ps evs) ps' vs evs' = moved w ps' vs (evs ++ evs').
Proof. unfold moved, stepped. simpl. now rewrite <- app_assoc. Qed.

Lemma channel_connect_run g c w p :
  voice_clients w !! g = None ->
  players w !! g = Some p ->
  channel_connect S g c w
  = (Ok tt,
     moved w (players w) (<[g := c]> (voice_clients w))
       [ChangeVoiceState g (Some c) false false]).
Proof.
  intros Hv Hp. unfold channel_connect. rewrite Hv.
  unfold mbind at 1, M_bind at 1, set_voice_clients.
  unfold LavalinkVoiceClient.connect, player_manager_create.
  set (w1 := {| players := players w |}).
  assert (Hp1 : players w1 !! g = Some p) by exact Hp.
  match goal with |- ((?m ≫= _) w1 = _) =>
    assert (Hc : m w1 = (Ok (Some g), w1))
      by now rewrite (bind_ok _ _ _ _ _ (player_manager_get_run _ _ _ Hp1))
  end.
  now rewrite (bind_ok _ _ _ _ _ Hc).
Qed.

(** The check lets a command through unchanged when the bot is connected
    to the author's channel. *)
Lemma hook_passes ctx gd channel name w p :
  ctx_guild ctx = Some gd ->
  m_voice (ctx_author ctx) = Some (Some channel) ->
  players w !! g_id gd = Some p ->
  lv_is_connected S p = true ->
  p_channel_id p = Some (vc_id channel) ->
  Music.cog_before_invoke S ctx name w = (Ok true, w).
Proof.
  intros Hg Hv Hp Hc Hch. rewrite (before_invoke_run _ _ _ _ Hg).
  assert (He : Music.ensure_voice S ctx name w = (Ok tt, w)).
  { rewrite (ensure_voice_run _ _ _ _ Hg), Hv.
    destruct (with_player_present gd w p Hp) as [-> _].
    rewrite (bind_ok _ _ _ _ _ (attr_run _ _ _ _ Hp)), Hc. cbn [negb].
    rewrite (bind_ok _ _ _ _ _ (attr_run _ _ _ _ Hp)), Hch.
    now rewrite bool_decide_eq_false_2 by tauto. }
  now rewrite (bind_ok _ _ _ _ _ He).
Qed.

(** X14: a handler only runs for an author who is in a voice channel, and
    then either the guild's player was connected to that very channel and
    the check changed nothing beyond making sure the player exists, or the
    command is one of [join], [play], [playuser], the bot may connect and
    speak there, and the check has just stored the text channel and
    started a voice client for that channel. *)
Theorem handler_runs_in_voice (ctx : Context) (gd : Guild) (name : string)
    (w w1 : World) (b : bool) :
  ctx_guild ctx = Some gd ->
  Music.cog_before_invoke S ctx name w = (Ok b, w1) ->
  b = true
  /\ exists channel,
       m_voice (ctx_author ctx) = Some (Some channel)
       /\ ((lv_is_connected S (player_of S gd w) = true
            /\ p_channel_id (player_of S gd w) = Some (vc_id channel)
            /\ w1 = with_player S gd w)
           \/ (lv_is_connected S (player_of S gd w) = false
               /\ str_in name ["play"; "search_music"; "playuser"; "join"] = true
               /\ vc_connect channel = true /\ vc_speak channel = true
               /\ voice_clients w !! g_id gd = None
               /\ voice_clients w1 !! g_id gd = Some (vc_id channel)
               /\ trace w1
                  = trace w
                    ++ [OnPlayer (g_id gd)
                          (CStore "channel" (ctx_channel_id ctx));
                        ChangeVoiceState (g_id gd) (Some (vc_id channel))
                          false false])).
Proof.
  intros Hg. rewrite (before_invoke_run _ _ _ _ Hg).
  unfold mbind at 1, M_bind at 1.
  rewrite (ensure_voice_run _ _ _ _ Hg).
  destruct (m_voice (ctx_author ctx)) as [[channel|]|]; try discriminate.
  rewrite (bind_ok _ _ _ _ _ (attr_run _ _ _ _ (with_player_lookup gd w))).
  destruct (lv_is_connected S (player_of S gd w)) eqn:Hc; cbn [negb].
  - rewrite (bind_ok _ _ _ _ _ (attr_run _ _ _ _ (with_player_lookup gd w))).
    destruct (p_channel_id (player_of S gd w)) as [c|] eqn:Hch;
      [| discriminate].
    destruct (bool_decide (c ≠ vc_id channel)) eqn:Hd; [discriminate |].
    apply bool_decide_eq_false in Hd.
    assert (c = vc_id channel) as -> by (destruct (decide (c = vc_id channel)); tauto).
    intros H. injection H as <- <-. split; [reflexivity |].
    exists channel. split; [reflexivity |]. left. auto.
  - destruct (str_in name _) eqn:Hn; cbn [negb]; [| discriminate].
    destruct (vc_connect channel) eqn:Hvc; cbn [negb orb]; [| discriminate].
    destruct (vc_speak channel) eqn:Hvs; cbn [negb]; [| discriminate].
    rewrite (bind_ok _ _ _ _ _
               (on_player_run S _ _ _ _ (with_player_lookup gd w))).
    set (w2 := stepped _ _ _). unfold channel_connect.
    change (voice_clients w2) with (voice_clients w).
    destruct (voice_clients w !! g_id gd) eqn:Hvcl; [discriminate |].
    assert (Hp2 : exists p2, players w2 !! g_id gd = Some p2)
      by (eexists; simpl; apply lookup_insert_eq).
    destruct Hp2 as (p2 & Hp2).
    assert (Hv2 : voice_clients w2 !! g_id gd = None) by exact Hvcl.
    pose proof (channel_connect_run (g_id gd) (vc_id channel) w2 p2 Hv2 Hp2)
      as Hcc.
    unfold channel_connect in Hcc.
    change (voice_clients w2) with (voice_clients w) in Hcc.
    rewrite Hvcl in Hcc. rewrite Hcc.
    intros H. injection H as <- <-. split; [reflexivity |].
    exists channel. split; [reflexivity |]. right.
    do 5 (split; [first [reflexivity | assumption] |]). split.
    + simpl. apply lookup_insert_eq.
    + unfold w2, with_player. simpl. now rewrite app_nil_r, <- app_assoc.
Qed.

(** X15: through the dispatcher the failure of [current] reaches the
    channel: with the bot connected to the author's channel and no track
    current, the command answers with the text of the [AttributeError] and
    nothing else, and the invocation itself ends normally. *)
Theorem current_error_is_reported (ctx : Context) (gd : Guild)
    (channel : VoiceChannel) (w : World) (p : Player) :
  ctx_guild ctx = Some gd ->
  m_voice (ctx_author ctx) = Some (Some channel) ->
  players w !! g_id gd = Some p ->
  lv_is_connected S p = true ->
  p_channel_id p = Some (vc_id channel) ->
  p_current p = None ->
  Music.invoke S Music.Current ctx w
  = (Ok tt, stepped w (players w) [SendException AttributeError]).
Proof.
  intros Hg Hv Hp Hc Hch Hcur. unfold Music.invoke.
  rewrite (hook_passes ctx gd channel _ w p Hg Hv Hp Hc Hch).
  assert (Hrun : Music.callback S Music.Current ctx w
                 = (Raise (Py AttributeError), w)).
  { unfold Music.callback, Music.current.
    rewrite (bind_ok _ _ _ _ _ (guild_id_run _ _ _ Hg)).
    rewrite (bind_ok _ _ _ _ _ (player_manager_get_run _ _ _ Hp)).
    rewrite (bind_ok _ _ _ _ _ (attr_run _ _ _ _ Hp)), Hcur.
    reflexivity. }
  rewrite Hrun. reflexivity.
Qed.

(** *** Leaving the voice channel *)

Lemma disconnect_run g force w p :
  players w !! g = Some p ->
  force = true \/ lv_is_connected S p = true ->
  LavalinkVoiceClient.disconnect S g force w
  = (Ok tt,
     moved w (<[g := unplugged p]> (players w)) (delete g (voice_clients w))
       [ChangeVoiceState g None false false; Cleanup g]).
Proof.
  intros Hp Hf. unfold LavalinkVoiceClient.disconnect.
  rewrite (bind_ok _ _ _ _ _ (player_manager_get_run _ _ _ Hp)).
  assert (Hc : (if force then mret true
                else attr (Some g) (lv_is_connected S)) w
               = (Ok (force || lv_is_connected S p), w)).
  { destruct force; [reflexivity |]. now rewrite (attr_run _ _ _ _ Hp). }
  rewrite (bind_ok _ _ _ _ _ Hc).
  assert (Hb : negb force && negb (force || lv_is_connected S p) = false).
  { destruct Hf as [-> | ->]; [reflexivity |].
    rewrite orb_true_r. apply andb_false_r. }
  rewrite Hb.
  rewrite (bind_ok _ _ _ _ _ (emit_run _ _)).
  set (w1 := stepped w _ _).
  assert (Hp1 : players w1 !! g = Some p) by exact Hp.
  rewrite (bind_ok _ _ _ _ _ (update_run _ _ _ _ Hp1)).
  rewrite (bind_ok _ _ _ _ _ (emit_run _ _)).
  unfold set_voice_clients, moved. simpl.
  now rewrite app_nil_r, <- app_assoc.
Qed.

(** X16: a voice client that is asked to disconnect without force does
    nothing at all while its player is not connected, and keeps its
    registration; otherwise, and always under force, it leaves the channel,
    clears the channel of the player and unregisters itself.  [track_hook]
    forces this for the guild of a [QueueEndEvent] and ignores every other
    event. *)
Theorem voice_client_leaves (g : Z) (w : World) (p : Player) :
  players w !! g = Some p ->
  let left :=
    moved w (<[g := unplugged p]> (players w)) (delete g (voice_clients w))
      [ChangeVoiceState g None false false; Cleanup g] in
  (lv_is_connected S p = false ->
   LavalinkVoiceClient.disconnect S g false w = (Ok tt, w))
  /\ (lv_is_connected S p = true ->
      LavalinkVoiceClient.disconnect S g false w = (Ok tt, left))
  /\ LavalinkVoiceClient.disconnect S g true w = (Ok tt, left)
  /\ (is_Some (voice_clients w !! g) ->
      Music.track_hook S (Music.QueueEndEvent g) w = (Ok tt, left))
  /\ (voice_clients w !! g = None ->
      Music.track_hook S (Music.QueueEndEvent g) w
      = (Raise (Py AttributeError), w))
  /\ Music.track_hook S Music.OtherEvent w = (Ok tt, w).
Proof.
  intros Hp left. split; [| split; [| split; [| split; [| split]]]].
  - intros Hc. unfold LavalinkVoiceClient.disconnect.
    rewrite (bind_ok _ _ _ _ _ (player_manager_get_run _ _ _ Hp)).
    rewrite (bind_ok _ _ _ _ _ (attr_run _ _ _ _ Hp)), Hc. reflexivity.
  - intros Hc. apply disconnect_run; auto.
  - apply disconnect_run; auto.
  - intros [c Hv]. unfold Music.track_hook, voice_client_disconnect.
    rewrite Hv. apply disconnect_run; auto.
  - intros Hv. unfold Music.track_hook, voice_client_disconnect.
    now rewrite Hv.
  - reflexivity.
Qed.

(** X17: the [disconnect] command, for an author in the bot's channel,
    empties the queue, stops the player, makes the voice client leave and
    confirms; for an author in another channel or in none it only answers
    'You're not in my voicechannel!', and while the player is not
    connected only 'Not connected.': in both cases nothing changes. *)
Theorem disconnect_command (ctx : Context) (gd : Guild) (w : World)
    (p : Player) :
  ctx_guild ctx = Some gd ->
  players w !! g_id gd = Some p ->
  (lv_is_connected S p = false ->
   Music.disconnect S ctx w
   = (Ok tt, stepped w (players w) [Send "Not connected."]))
  /\ (lv_is_connected S p = true ->
      (m_voice (ctx_author ctx) = None
       \/ exists channel c,
            m_voice (ctx_author ctx) = Some (Some channel)
            /\ p_channel_id p = Some c /\ vc_id channel <> c) ->
      Music.disconnect S ctx w
      = (Ok tt, stepped w (players w) [Send "You're not in my voicechannel!"]))
  /\ (forall channel,
        lv_is_connected S p = true ->
        m_voice (ctx_author ctx) = Some (Some channel) ->
        p_channel_id p = Some (vc_id channel) ->
        is_Some (voice_clients w !! g_id gd) ->
        Music.disconnect S ctx w
        = (Ok tt,
           moved w
             (<[g_id gd := unplugged (lv_stop S (Music.set_queue [] p))]>
                (players w))
             (delete (g_id gd) (voice_clients w))
             [OnPlayer (g_id gd) CStop;
              ChangeVoiceState (g_id gd) None false false;
              Cleanup (g_id gd);
              Send ("*" +:+ glyph S GKeycap +:+ " | Disconnected.")])).
Proof.
  intros Hg Hp.
  split; [| split].
  - intros Hc. unfold Music.disconnect.
    rewrite (bind_ok _ _ _ _ _ (guild_id_run _ _ _ Hg)).
    rewrite (bind_ok _ _ _ _ _ (player_manager_get_run _ _ _ Hp)).
    rewrite (bind_ok _ _ _ _ _ (attr_run _ _ _ _ Hp)), Hc. reflexivity.
  - intros Hc Hv. unfold Music.disconnect.
    rewrite (bind_ok _ _ _ _ _ (guild_id_run _ _ _ Hg)).
    rewrite (bind_ok _ _ _ _ _ (player_manager_get_run _ _ _ Hp)).
    rewrite (bind_ok _ _ _ _ _ (attr_run _ _ _ _ Hp)), Hc. cbn [negb].
    assert (Hin : forall k : bool -> M unit,
      (not_there ←
         match m_voice (ctx_author ctx) with
         | None => mret true
         | Some voice =>
             connected ← attr (Some (g_id gd)) (lv_is_connected S);
             if connected : bool then
               channel ← attr_of voice vc_id;
               channel_id ← attr (Some (g_id gd)) p_channel_id;
               match channel_id with
               | None => raise TypeError
               | Some c => mret (bool_decide (channel ≠ c))
               end
             else mret false
         end; k not_there) w = k true w).
    { intros k. destruct Hv as [-> | (channel & c & -> & Hch & Hne)].
      - reflexivity.
      - match goal with |- ((?m ≫= _) w = _) =>
          assert (Hm : m w = (Ok true, w)) end.
        { rewrite (bind_ok _ _ _ _ _ (attr_run _ _ _ _ Hp)), Hc.
          rewrite (bind_ok _ _ _ _ _ (ret_run (vc_id channel) w)).
          rewrite (bind_ok _ _ _ _ _ (attr_run _ _ _ _ Hp)), Hch.
          now rewrite bool_decide_eq_true_2 by exact Hne. }
        now rewrite (bind_ok _ _ _ _ _ Hm). }
    rewrite Hin. reflexivity.
  - intros channel Hc Hv Hch [vc Hvc]. unfold Music.disconnect.
    rewrite (bind_ok _ _ _ _ _ (guild_id_run _ _ _ Hg)).
    rewrite (bind_ok _ _ _ _ _ (player_manager_get_run _ _ _ Hp)).
    rewrite (bind_ok _ _ _ _ _ (attr_run _ _ _ _ Hp)), Hc. cbn [negb].
    rewrite Hv.
    match goal with |- ((?m ≫= _) w = _) =>
      assert (Hm : m w = (Ok false, w)) end.
    { rewrite (bind_ok _ _ _ _ _ (attr_run _ _ _ _ Hp)), Hc.
      rewrite (bind_ok _ _ _ _ _ (ret_run (vc_id channel) w)).
      rewrite (bind_ok _ _ _ _ _ (attr_run _ _ _ _ Hp)), Hch.
      now rewrite bool_decide_eq_false_2 by tauto. }
    rewrite (bind_ok _ _ _ _ _ Hm).
    rewrite (bind_ok _ _ _ _ _ (update_run _ _ _ _ Hp)).
    set (w1 := stepped w _ _).
    assert (Hp1 : players w1 !! g_id gd = Some (Music.set_queue [] p))
      by (simpl; apply lookup_insert_eq).
    rewrite (bind_ok _ _ _ _ _ (on_player_run S _ _ _ _ Hp1)).
    set (w2 := stepped w1 _ _).
    assert (Hp2 : players w2 !! g_id gd
                  = Some (lv_stop S (Music.set_queue [] p)))
      by (simpl; apply lookup_insert_eq).
    assert (Hd : voice_client_disconnect S (g_id gd) true w2
                 = LavalinkVoiceClient.disconnect S (g_id gd) true w2).
    { unfold voice_client_disconnect.
      change (voice_clients w2) with (voice_clients w). now rewrite Hvc. }
    rewrite (bind_ok _ _ _ _ _
               (eq_trans Hd (disconnect_run _ true _ _ Hp2 (or_introl eq_refl)))).
    rewrite send_run. unfold moved, stepped. simpl.
    rewrite !insert_insert_eq. rewrite app_nil_r, <- !app_assoc. reflexivity.
Qed.

(** *** What a handler leaves alone *)

Section Keeps.

Context (R : World -> World -> Prop).
Context (Rrefl : forall w, R w w).
Context (Rtrans : forall w1 w2 w3, R w1 w2 -> R w2 w3 -> R w1 w3).

Lemma keeps_pure {A} (m : M A) : (forall w, (m w).2 = w) -> keeps R m.
Proof. intros H w. rewrite H. apply Rrefl. Qed.

Lemma keeps_ret {A} (a : A) : keeps R (mret a : M A).
Proof. now apply keeps_pure. Qed.

Lemma keeps_raise {A} e : keeps R (raise e : M A).
Proof. now apply keeps_pure. Qed.

Lemma keeps_of_res {A} (r : Res A) : keeps R (of_res r).
Proof. now apply keeps_pure. Qed.

Lemma keeps_attr_of {A B} (x : option A) (f : A -> B) : keeps R (attr_of x f).
Proof. apply keeps_pure. now destruct x. Qed.

Lemma keeps_local {A} (x : option A) : keeps R (local x).
Proof. apply keeps_pure. now destruct x. Qed.

Lemma keeps_subscript {A} (l : list A) i : keeps R (subscript l i).
Proof.
  apply keeps_pure. intros w. unfold subscript. now destruct (Py.index l i).
Qed.

Lemma keeps_global {A} (f : World -> option A) : keeps R (global f).
Proof. apply keeps_pure. intros w. unfold global. now destruct (f w). Qed.

Lemma keeps_attr {A} r (f : Player -> A) : keeps R (attr r f).
Proof.
  apply keeps_pure. intros w. unfold attr.
  destruct r as [k|]; [destruct (players w !! k) |]; reflexivity.
Qed.

Lemma keeps_get k : keeps R (player_manager_get k).
Proof. now apply keeps_pure. Qed.

Lemma keeps_bind {A B} (m : M A) (f : A -> M B) :
  keeps R m -> (forall a, keeps R (f a)) -> keeps R (m ≫= f).
Proof.
  intros Hm Hf w. unfold mbind, M_bind. specialize (Hm w).
  destruct (m w) as [[a|e] w1]; simpl in Hm; [| exact Hm].
  eapply Rtrans; [exact Hm | apply Hf].
Qed.

Lemma keeps_try_except {A} (m h : M A) :
  keeps R m -> keeps R h -> keeps R (try_except m h).
Proof.
  intros Hm Hh w. unfold try_except. specialize (Hm w).
  destruct (m w) as [[a|e] w1]; simpl in Hm; [exact Hm |].
  eapply Rtrans; [exact Hm | apply Hh].
Qed.

Lemma keeps_for_each {A} (l : list A) (body : A -> M unit) :
  (forall x, x ∈ l -> keeps R (body x)) -> keeps R (for_each l body).
Proof.
  induction l as [|x l IH]; intros H; cbn [for_each]; [apply keeps_ret |].
  apply keeps_bind; [apply H; left | intros _].
  apply IH. intros y Hy. apply H. now right.
Qed.

Lemma keeps_for_each_until {A} (l : list A) (body : A -> M bool) :
  (forall x, x ∈ l -> keeps R (body x)) -> keeps R (for_each_until l body).
Proof.
  induction l as [|x l IH]; intros H; cbn [for_each_until];
    [apply keeps_ret |].
  apply keeps_bind; [apply H; left | intros [|]]; [apply keeps_ret |].
  apply IH. intros y Hy. apply H. now right.
Qed.

(** After a first step, what follows keeps [R] from where that step
    ended. *)
Lemma keeps_after {A B} (m : M A) (f : A -> M B) w r w1 :
  m w = (r, w1) -> (forall a, keeps R (f a)) -> R w1 ((m ≫= f) w).2.
Proof.
  intros Hm Hf. unfold mbind, M_bind. rewrite Hm.
  destruct r as [a|e]; [apply Hf | apply Rrefl].
Qed.

End Keeps.

Lemma same_players_refl w : same_players w w.
Proof. now split. Qed.

Lemma same_players_trans w1 w2 w3 :
  same_players w1 w2 -> same_players w2 w3 -> same_players w1 w3.
Proof. intros [A1 B1] [A2 B2]. split; congruence. Qed.

Lemma same_globals_refl w : same_globals w w.
Proof. repeat split. Qed.

Lemma same_globals_trans w1 w2 w3 :
  same_globals w1 w2 -> same_globals w2 w3 -> same_globals w1 w3.
Proof. intros (A1 & B1 & C1) (A2 & B2 & C2). repeat split; congruence. Qed.

(** One step of the walk through a handler; [leaf] settles the steps that
    change the world. *)
Ltac keeps_step Rrefl Rtrans leaf :=
  first
    [ apply (keeps_ret _ Rrefl) | apply (keeps_raise _ Rrefl)
    | apply (keeps_of_res _ Rrefl) | apply (keeps_attr_of _ Rrefl)
    | apply (keeps_local _ Rrefl) | apply (keeps_subscript _ Rrefl)
    | apply (keeps_global _ Rrefl) | apply (keeps_attr _ Rrefl)
    | apply (keeps_get _ Rrefl)
    | apply (keeps_bind _ Rtrans); [| intros ?]
    | apply (keeps_try_except _ Rtrans)
    | apply (keeps_for_each _ Rrefl Rtrans); intros ? _
    | apply (keeps_for_each_until _ Rrefl Rtrans); intros ? _
    | match goal with
      | |- keeps _ (match ?x with _ => _ end) => destruct x
      | |- keeps _ (let _ := _ in _) => cbv zeta
      | |- keeps _ (let '(_, _) := ?x in _) => destruct x
      end
    | leaf ].

Ltac unfold_handlers :=
  unfold Music.join, Music.play, Music.playuser, Music.playuser_activity,
    Music.search_music, Music.pause, Music.resume, Music.volume, Music.loop,
    Music.unloop, Music.current, Music.skip, Music.queue, Music.remove,
    Music.shuffle, Music.lyrics, Music.lyricsuser, Music.lyricsuser_activity,
    Music.disconnect, Music.enqueue, Music.send, Music.current_title,
    Music.compose_search, Music.search_6, Music.search_5, Music.search_4,
    Music.search_3, Music.search_2, guild_id, search_song, get_tracks;
  unfold Music.send.

Ltac players_leaf :=
  idtac;
  match goal with
  | |- keeps same_players (emit _) => intros ?; now split
  end.

(** X18: [current], [queue], [lyrics] and [lyricsuser] are read-only: in
    every world and whatever they answer or raise, they leave every player
    and every voice client as it was. *)
Theorem read_only_commands (ctx : Context) (w : World) :
  same_players w (Music.current S ctx w).2
  /\ (forall page, same_players w (Music.queue S ctx page w).2)
  /\ (forall song, same_players w (Music.lyrics S ctx song w).2)
  /\ (forall member, same_players w (Music.lyricsuser S ctx member w).2).
Proof.
  assert (H1 : keeps same_players (Music.current S ctx)).
  { unfold_handlers.
    repeat keeps_step same_players_refl same_players_trans ltac:(players_leaf). }
  assert (H2 : forall page, keeps same_players (Music.queue S ctx page)).
  { intros page. unfold_handlers.
    repeat keeps_step same_players_refl same_players_trans ltac:(players_leaf). }
  assert (H3 : forall song, keeps same_players (Music.lyrics S ctx song)).
  { intros song. unfold_handlers.
    repeat keeps_step same_players_refl same_players_trans ltac:(players_leaf). }
  assert (H4 : forall member,
            keeps same_players (Music.lyricsuser S ctx member)).
  { intros member. unfold_handlers.
    repeat keeps_step same_players_refl same_players_trans ltac:(players_leaf). }
  split; [apply H1 | split; [| split]]; intros x;
    [apply H2 | apply H3 | apply H4].
Qed.

Ltac globals_leaf :=
  idtac;
  match goal with
  | |- keeps same_globals (emit _) => intros ?; repeat split
  | |- keeps same_globals (set_players _) => intros ?; repeat split
  | |- keeps same_globals (on_player _ _ _) => unfold on_player
  end.

Lemma keeps_globals_after_lookup ctx r results :
  keeps same_globals
    (match results with
     | Some r0 =>
         if Music.nothing_found results
         then Music.send "Nothing found!";; mret true
         else
           embed ← Music.enqueue S ctx r r0;
           emit (SendEmbed embed);;
           playing ← attr r (lv_is_playing S);
           (if negb playing then on_player S r CPlay else mret tt);;
           mret false
     | None => Music.send "Nothing found!";; mret true
     end).
Proof.
  unfold_handlers.
  repeat keeps_step same_globals_refl same_globals_trans ltac:(globals_leaf).
Qed.

(** X19: [playuser] switches Spotify mode on, and for a member with one
    Spotify activity it leaves in [spotifylyrics] the very query it sent to
    the audio node, [ytsearch:] prefix included, whether the lookup found a
    track or not: this is the text that [lyrics] then searches the lyrics
    service for.  The title stored by [play] is not touched. *)
Theorem playuser_sets_lyrics_globals (ctx : Context) (gd : Guild) (w : World)
    (p : Player) (member : Member) (pre rest : list Activity)
    (t a : string) :
  ctx_guild ctx = Some gd ->
  players w !! g_id gd = Some p ->
  m_activities member = pre ++ Spotify t a :: rest ->
  Forall (fun x => is_spotify x = false) pre ->
  Forall (fun x => is_spotify x = false) rest ->
  let w' := (Music.playuser S ctx member w).2 in
  g_spotify w' = Some true
  /\ g_spotifylyrics w' = Some (mirror_query t a)
  /\ g_lyricstitle w' = g_lyricstitle w.
Proof.
  intros Hg Hp Hacts Hpre Hrest w'. unfold w', Music.playuser.
  rewrite (bind_ok _ _ _ _ _ (set_spotify_run true w)).
  set (w0 := (set_spotify true w).2).
  assert (Hp0 : players w0 !! g_id gd = Some p) by exact Hp.
  rewrite (bind_ok _ _ _ _ _ (guild_id_run _ _ _ Hg)).
  rewrite (bind_ok _ _ _ _ _ (player_manager_get_run _ _ _ Hp0)).
  rewrite Hacts, playuser_skips_others by assumption.
  set (w1 := stepped w0 _ _).
  assert (Hp1 : players w1 !! g_id gd = Some p) by exact Hp.
  cbn [for_each_until].
  (* the activity, up to the lookup *)
  assert (Hbody : exists r w3 w2,
    Music.playuser_activity S ctx (Some (g_id gd)) (Spotify t a) w1 = (r, w3)
    /\ same_globals w2 w3
    /\ g_spotify w2 = Some true
    /\ g_spotifylyrics w2 = Some (mirror_query t a)
    /\ g_lyricstitle w2 = g_lyricstitle w).
  { unfold Music.playuser_activity. cbv zeta.
    rewrite (bind_ok _ _ _ _ _ (set_spotifylyrics_run _ _)).
    set (v0 := (set_spotifylyrics _ w1).2).
    assert (Hq : exists v1,
      (if negb (url_rx_match (t +:+ " " +:+ a))
       then set_spotifylyrics ("ytsearch:" +:+ t +:+ " " +:+ a);;
            mret ("ytsearch:" +:+ t +:+ " " +:+ a)
       else mret (t +:+ " " +:+ a)) v0 = (Ok (mirror_query t a), v1)
      /\ g_spotify v1 = Some true
      /\ g_spotifylyrics v1 = Some (mirror_query t a)
      /\ g_lyricstitle v1 = g_lyricstitle w).
    { unfold mirror_query. destruct (url_rx_match _); cbn [negb];
        eexists; (split; [reflexivity | repeat split]). }
    destruct Hq as (v1 & Hq & G1 & G2 & G3).
    rewrite (bind_ok _ _ _ _ _ Hq).
    match goal with |- context [(get_tracks S ?r ?q ≫= ?f) v1] =>
      assert (Hk : keeps same_globals (get_tracks S r q ≫= f))
    end.
    { apply (keeps_bind _ same_globals_trans).
      - unfold get_tracks.
        repeat keeps_step same_globals_refl same_globals_trans
          ltac:(globals_leaf).
      - intros results. apply keeps_globals_after_lookup. }
    specialize (Hk v1).
    match goal with |- context [(?m ≫= ?f) v1] =>
      destruct ((m ≫= f) v1) as [r w3]
    end.
    exists r, w3, v1. split; [reflexivity |]. auto. }
  destruct Hbody as (r & w3 & w2 & Hbody & (K1 & K2 & K3) & G1 & G2 & G3).
  assert (Hloop : forall returned : bool,
    keeps same_globals
      (if returned then mret tt
       else for_each_until rest
              (Music.playuser_activity S ctx (Some (g_id gd))))).
  { intros [|]; [apply (keeps_ret _ same_globals_refl) |].
    apply (keeps_for_each_until _ same_globals_refl same_globals_trans).
    intros x Hx.
    pose proof (proj1 (Forall_forall _ _) Hrest x Hx) as Hns.
    destruct x as [t' a'|n]; [discriminate |].
    unfold_handlers.
    repeat keeps_step same_globals_refl same_globals_trans
      ltac:(globals_leaf). }
  destruct (keeps_after same_globals same_globals_refl _ _ w1 _ _
              Hbody Hloop) as (L1 & L2 & L3).
  repeat split; congruence.
Qed.

(** *** [playuser] when the lookup finds a track *)

Lemma playuser_others_run ctx r rest : forall w,
  Forall (fun a => is_spotify a = false) rest ->
  for_each_until rest (Music.playuser_activity S ctx r) w
  = (Ok tt, stepped w (players w) (map (fun _ => Send make_sure) rest)).
Proof.
  intros w Hrest.
  rewrite <- (app_nil_r rest) at 1.
  rewrite playuser_skips_others by assumption. reflexivity.
Qed.

(** X20: for a member with one Spotify activity whose lookup finds a
    track, [playuser] enqueues like [play] does (every track of a playlist,
    else the first track, then [player.play()] unless the player is
    playing), but it goes on through the member's other activities: each
    activity that is not a Spotify one gets the reply 'Make sure this user
    has connected discord with spotify ...', before and after the track was
    enqueued. *)
Theorem playuser_enqueues (ctx : Context) (gd : Guild) (w : World)
    (p : Player) (member : Member) (pre rest : list Activity)
    (t a : string) (r : LoadResult) :
  ctx_guild ctx = Some gd ->
  players w !! g_id gd = Some p ->
  m_activities member = pre ++ Spotify t a :: rest ->
  Forall (fun x => is_spotify x = false) pre ->
  Forall (fun x => is_spotify x = false) rest ->
  node_get_tracks S (mirror_query t a) = Some r ->
  tracks r <> [] ->
  let calls := enqueue_calls ctx r in
  let p1 := apply_calls S calls p in
  let playing := lv_is_playing S p1 in
  let '(res, w') := Music.playuser S ctx member w in
  res = Ok tt
  /\ players w' = <[g_id gd := if playing then p1 else lv_play S p1]> (players w)
  /\ trace w'
     = trace w ++ map (fun _ => Send make_sure) pre
         ++ NodeGetTracks (mirror_query t a) :: map (OnPlayer (g_id gd)) calls
         ++ SendEmbed (enqueue_embed ctx r)
         :: (if playing then [] else [OnPlayer (g_id gd) CPlay])
         ++ map (fun _ => Send make_sure) rest.
Proof.
  intros Hg Hp Hacts Hpre Hrest Hnode Ht calls p1 playing.
  unfold Music.playuser.
  rewrite (bind_ok _ _ _ _ _ (set_spotify_run true w)).
  set (w0 := (set_spotify true w).2).
  assert (Hp0 : players w0 !! g_id gd = Some p) by exact Hp.
  rewrite (bind_ok _ _ _ _ _ (guild_id_run _ _ _ Hg)).
  rewrite (bind_ok _ _ _ _ _ (player_manager_get_run _ _ _ Hp0)).
  rewrite Hacts, playuser_skips_others by assumption.
  set (w1 := stepped w0 _ _).
  assert (Hp1 : players w1 !! g_id gd = Some p) by exact Hp.
  cbn [for_each_until].
  assert (Hbody : exists w3,
    Music.playuser_activity S ctx (Some (g_id gd)) (Spotify t a) w1
    = (Ok false, w3)
    /\ players w3
       = <[g_id gd := if playing then p1 else lv_play S p1]> (players w)
    /\ trace w3
       = trace w1 ++ NodeGetTracks (mirror_query t a)
           :: map (OnPlayer (g_id gd)) calls
           ++ SendEmbed (enqueue_embed ctx r)
           :: (if playing then [] else [OnPlayer (g_id gd) CPlay])).
  { unfold Music.playuser_activity. cbv zeta.
    rewrite (bind_ok _ _ _ _ _ (set_spotifylyrics_run _ _)).
    set (v0 := (set_spotifylyrics _ w1).2).
    destruct (mirror_query_run t a v0) as (v1 & Hq & Q1 & Q2 & Q3).
    rewrite (bind_ok _ _ _ _ _ Hq).
    assert (Hv1 : players v1 !! g_id gd = Some p) by now rewrite Q1.
    rewrite (bind_ok _ _ _ _ _ (get_tracks_run S _ _ _ _ Hv1)).
    rewrite !Hnode.
    assert (Hnf : Music.nothing_found (Some r) = false)
      by (unfold Music.nothing_found; destruct (tracks r); congruence).
    rewrite Hnf.
    set (v2 := stepped v1 _ _).
    assert (Hv2 : players v2 !! g_id gd = Some p) by exact Hv1.
    rewrite (bind_ok _ _ _ _ _ (enqueue_run S ctx _ r _ p Ht Hv2)).
    fold calls p1.
    rewrite (bind_ok _ _ _ _ _ (emit_run _ _)), stepped_stepped.
    set (v3 := stepped v2 _ _).
    assert (Hv3 : players v3 !! g_id gd = Some p1)
      by (simpl; apply lookup_insert_eq).
    rewrite (bind_ok _ _ _ _ _ (attr_run _ _ _ _ Hv3)). fold playing.
    destruct playing; cbn [negb].
    - rewrite (bind_ok _ _ _ _ _ (ret_run tt v3)).
      eexists. split; [reflexivity |]. simpl. rewrite Q1, Q3.
      split; [reflexivity |]. rewrite <- ?app_assoc. simpl.
      rewrite <- ?app_assoc, ?app_nil_r. reflexivity.
    - rewrite (bind_ok _ _ _ _ _ (on_player_run S _ _ _ _ Hv3)).
      eexists. split; [reflexivity |]. simpl. rewrite Q1, Q3.
      rewrite insert_insert_eq.
      split; [reflexivity |]. rewrite <- ?app_assoc. simpl.
      rewrite <- ?app_assoc. reflexivity. }
  destruct Hbody as (w3 & Hbody & Hps & Htr).
  rewrite (bind_ok _ _ _ _ _ Hbody).
  rewrite playuser_others_run by assumption.
  split; [reflexivity |]. split; [exact Hps |].
  simpl. rewrite Htr. unfold w1. simpl.
  rewrite <- ?app_assoc. simpl. rewrite <- ?app_assoc. reflexivity.
Qed.

End Further.
Section More.

Context (S : Services).

(** X21: the two other refusals of the check.  A command that may connect
    the bot is answered 'I need the `CONNECT` and `SPEAK` permissions.'
    when the bot lacks either permission in the author's channel, and no
    voice client is started; while the player is connected to another
    channel than the author's, every command is answered 'You need to be in
    my voicechannel.'.  In both cases the handler does not run. *)
Theorem wrong_channel_is_refused (c : Music.Command) (ctx : Context)
    (gd : Guild) (channel : VoiceChannel) (w : World) :
  ctx_guild ctx = Some gd ->
  m_voice (ctx_author ctx) = Some (Some channel) ->
  let p := player_of S gd w in
  let refused reason :=
    (Ok tt, stepped w (<[g_id gd := p]> (players w)) [Send reason]) in
  (lv_is_connected S p = false -> connects c = true ->
   vc_connect channel = false \/ vc_speak channel = false ->
   Music.invoke S c ctx w
   = refused "I need the `CONNECT` and `SPEAK` permissions.")
  /\ (forall there,
        lv_is_connected S p = true ->
        p_channel_id p = Some there -> there <> vc_id channel ->
        Music.invoke S c ctx w = refused "You need to be in my voicechannel.").
Proof.
  intros Hg Hv p refused.
  assert (Hnames : str_in (Music.command_name c)
                     ["play"; "search_music"; "playuser"; "join"] = connects c)
    by (destruct c; reflexivity).
  split.
  - intros Hconn Hc Hperm.
    unfold Music.invoke. rewrite (before_invoke_run _ _ _ _ _ Hg).
    assert (He : Music.ensure_voice S ctx (Music.command_name c) w
                 = (Raise (CommandInvokeError
                             (inl "I need the `CONNECT` and `SPEAK` permissions.")),
                    with_player S gd w)).
    { rewrite (ensure_voice_run _ _ _ _ _ Hg), Hv.
      rewrite (bind_ok _ _ _ _ _ (attr_run _ _ _ _ (with_player_lookup S gd w))).
      fold p. rewrite Hconn, Hnames, Hc. cbn [negb].
      now destruct Hperm as [-> | ->]; [| rewrite orb_true_r]. }
    rewrite (bind_raise _ _ _ _ _ He).
    unfold Music.cog_command_error. rewrite send_run.
    unfold with_player, refused. now rewrite stepped_stepped.
  - intros there Hconn Hch Hne.
    unfold Music.invoke. rewrite (before_invoke_run _ _ _ _ _ Hg).
    assert (He : Music.ensure_voice S ctx (Music.command_name c) w
                 = (Raise (CommandInvokeError
                             (inl "You need to be in my voicechannel.")),
                    with_player S gd w)).
    { rewrite (ensure_voice_run _ _ _ _ _ Hg), Hv.
      rewrite (bind_ok _ _ _ _ _ (attr_run _ _ _ _ (with_player_lookup S gd w))).
      fold p. rewrite Hconn. cbn [negb].
      rewrite (bind_ok _ _ _ _ _ (attr_run _ _ _ _ (with_player_lookup S gd w))).
      fold p. rewrite Hch.
      now rewrite bool_decide_eq_true_2 by exact Hne. }
    rewrite (bind_raise _ _ _ _ _ He).
    unfold Music.cog_command_error. rewrite send_run.
    unfold with_player, refused. now rewrite stepped_stepped.
Qed.

(** X22: outside a guild the check is skipped, and the value [False] that
    the before-invoke hook returns stops nothing: every handler that reads
    the guild's player fails on [ctx.guild.id] with an [AttributeError],
    which is sent to the channel; no player and no voice client changes,
    and of the globals only [spotify], which [playuser] sets before it
    fails.  [join] does nothing at all. *)
Theorem outside_guild_handlers_fail (c : Music.Command) (ctx : Context)
    (w : World) :
  ctx_guild ctx = None ->
  Music.cog_before_invoke S ctx (Music.command_name c) w = (Ok false, w)
  /\ (reads_guild c = true ->
      Music.invoke S c ctx w = (Ok tt, failed_outside c w))
  /\ Music.invoke S Music.Join ctx w = (Ok tt, w).
Proof.
  intros Hg.
  assert (Hb : forall name, Music.cog_before_invoke S ctx name w = (Ok false, w)).
  { intros name. unfold Music.cog_before_invoke. now rewrite Hg. }
  split; [apply Hb |]. split.
  - intros Hc. unfold Music.invoke. rewrite Hb.
    destruct c; try discriminate Hc;
      unfold Music.callback, Music.play, Music.playuser, Music.search_music,
        Music.pause, Music.resume, Music.volume, Music.loop, Music.unloop,
        Music.current, Music.skip, Music.queue, Music.remove, Music.shuffle,
        Music.lyrics, Music.disconnect, guild_id;
      rewrite Hg; reflexivity.
  - unfold Music.invoke. now rewrite Hb.
Qed.

(** X23: the reply of [volume] names the volume that the player has after
    the call, not the argument: with a player that keeps its volume between
    0 and 1000, as lavalink.py does, any volume past 1000 is answered with
    1000 and any negative one with 0. *)
Theorem volume_reports_player (ctx : Context) (gd : Guild) (w : World)
    (p : Player) (volume : Z) :
  ctx_guild ctx = Some gd ->
  players w !! g_id gd = Some p ->
  let p' := lv_set_volume S volume p in
  let reply v := glyph S GSpeaker +:+ " | Set volume to " +:+ Py.str_of_Z v +:+ "%" in
  Music.volume S ctx volume w
  = (Ok tt,
     stepped w (<[g_id gd := p']> (players w))
       [OnPlayer (g_id gd) (CSetVolume volume); Send (reply (p_volume p'))])
  /\ (p_volume p' = Z.max (Z.min volume 1000) 0 ->
      (1000 <= volume -> reply (p_volume p') = reply 1000)
      /\ (volume <= 0 -> reply (p_volume p') = reply 0)).
Proof.
  intros Hg Hp p' reply. split.
  - unfold Music.volume.
    rewrite (bind_ok _ _ _ _ _ (guild_id_run _ _ _ Hg)).
    rewrite (bind_ok _ _ _ _ _ (player_manager_get_run _ _ _ Hp)).
    rewrite (bind_ok _ _ _ _ _ (on_player_run S _ _ _ _ Hp)).
    assert (Hp1 : players (stepped w (<[g_id gd := apply_call S (CSetVolume volume) p]>
                                        (players w))
                             [OnPlayer (g_id gd) (CSetVolume volume)])
                  !! g_id gd = Some p')
      by (simpl; apply lookup_insert_eq).
    rewrite (bind_ok _ _ _ _ _ (attr_run _ _ _ _ Hp1)).
    rewrite send_run, stepped_stepped. reflexivity.
  - intros ->. split; intros H; f_equal; f_equal; f_equal; f_equal; lia.
Qed.

(** X24: [unloop] only calls the player when it repeats, and otherwise
    answers 'This track is not looped'; [loop] calls it whatever its state.
    With a player whose [set_repeat] sets the flag and nothing else, [loop]
    and then [unloop] bring a player that did not repeat back to what it
    was. *)
Theorem loop_then_unloop (ctx : Context) (gd : Guild) (w : World)
    (p : Player) :
  ctx_guild ctx = Some gd ->
  players w !! g_id gd = Some p ->
  let g := g_id gd in
  (p_repeat p = false ->
   Music.unloop S ctx w
   = (Ok tt,
      stepped w (players w)
        [Send "This track is not looped"; AddReaction GCross]))
  /\ (p_repeat p = true ->
      Music.unloop S ctx w
      = (Ok tt,
         stepped w (<[g := lv_set_repeat S false p]> (players w))
           [OnPlayer g (CSetRepeat false); AddReaction GRepeat]))
  /\ Music.loop S ctx w
     = (Ok tt,
        stepped w (<[g := lv_set_repeat S true p]> (players w))
          [OnPlayer g (CSetRepeat true); AddReaction GRepeat])
  /\ ((forall b q, lv_set_repeat S b q = Reference.set_repeat b q) ->
      p_repeat p = false ->
      players (Music.unloop S ctx (Music.loop S ctx w).2).2 = players w).
Proof.
  intros Hg Hp g. subst g.
  assert (Hun : forall w0 p0, players w0 !! (g_id gd) = Some p0 ->
    Music.unloop S ctx w0
    = if p_repeat p0
      then (Ok tt,
            stepped w0 (<[(g_id gd) := lv_set_repeat S false p0]> (players w0))
              [OnPlayer (g_id gd) (CSetRepeat false); AddReaction GRepeat])
      else (Ok tt,
            stepped w0 (players w0)
              [Send "This track is not looped"; AddReaction GCross])).
  { intros w0 p0 Hp0. unfold Music.unloop.
    rewrite (bind_ok _ _ _ _ _ (guild_id_run _ _ _ Hg)).
    rewrite (bind_ok _ _ _ _ _ (player_manager_get_run _ _ _ Hp0)).
    rewrite (bind_ok _ _ _ _ _ (attr_run _ _ _ _ Hp0)).
    destruct (p_repeat p0).
    - rewrite (bind_ok _ _ _ _ _ (on_player_run S _ _ _ _ Hp0)).
      now rewrite emit_run, stepped_stepped.
    - rewrite (bind_ok _ _ _ _ _ (send_run _ _)).
      now rewrite emit_run, stepped_stepped. }
  assert (Hloop : Music.loop S ctx w
     = (Ok tt,
        stepped w (<[(g_id gd) := lv_set_repeat S true p]> (players w))
          [OnPlayer (g_id gd) (CSetRepeat true); AddReaction GRepeat])).
  { unfold Music.loop.
    rewrite (bind_ok _ _ _ _ _ (guild_id_run _ _ _ Hg)).
    rewrite (bind_ok _ _ _ _ _ (player_manager_get_run _ _ _ Hp)).
    rewrite (bind_ok _ _ _ _ _ (on_player_run S _ _ _ _ Hp)).
    now rewrite emit_run, stepped_stepped. }
  split; [| split; [| split]].
  - intros Hr. rewrite (Hun w p Hp), Hr. reflexivity.
  - intros Hr. rewrite (Hun w p Hp), Hr. reflexivity.
  - exact Hloop.
  - intros Hset Hr. rewrite Hloop. cbn [snd].
    rewrite (Hun _ (lv_set_repeat S true p)) by (simpl; apply lookup_insert_eq).
    rewrite !Hset. simpl. rewrite insert_insert_eq.
    apply insert_id. rewrite Hp. f_equal.
    destruct p; simpl in *. now subst.
Qed.

Lemma lyricsuser_found_run pre : forall w,
  Forall (song_found S) pre ->
  for_each pre (Music.lyricsuser_activity S) w
  = (Ok tt, stepped w (players w) (concat (map (lyricsuser_events S) pre))).
Proof.
  induction pre as [| x pre IH]; intros w Hall.
  - simpl. now rewrite stepped_id.
  - apply Forall_cons in Hall as [Hx Hall].
    cbn [for_each map concat].
    assert (Hb : Music.lyricsuser_activity S x w
                 = (Ok tt, stepped w (players w) (lyricsuser_events S x))).
    { destruct x as [title artist | name]; simpl.
      - destruct Hx as [s Hs]. unfold Music.lyricsuser_activity.
        assert (Hq : search_song S title w
                     = (Ok (Some s), stepped w (players w) [GeniusSearch title]))
          by (rewrite search_song_run; now rewrite Hs).
        rewrite (bind_ok _ _ _ _ _ Hq).
        rewrite (bind_ok _ _ _ _ _ (emit_run _ _)).
        cbn [attr_of].
        rewrite (bind_ok _ _ _ _ _ (ret_run _ _)).
        rewrite emit_run, !stepped_stepped. simpl. now rewrite Hs.
      - now rewrite ret_run, stepped_id. }
    rewrite (bind_ok _ _ _ _ _ Hb).
    rewrite IH by exact Hall. now rewrite stepped_stepped.
Qed.

(** X25: [lyricsuser] answers every Spotify activity of the member whose
    song the lyrics service finds, one embed each and in order, and is
    silent about other activities: for a member without a Spotify activity
    it sends nothing, not even the hint that [playuser] gives.  At the
    first song that is not found it raises [AttributeError] while typing,
    and the activities after it are not searched. *)
Theorem lyricsuser_answers_each (ctx : Context) (member : Member)
    (w : World) (pre : list Activity) :
  Forall (song_found S) pre ->
  (m_activities member = pre ->
   Music.lyricsuser S ctx member w
   = (Ok tt, stepped w (players w) (concat (map (lyricsuser_events S) pre))))
  /\ (m_activities member = pre ->
      Forall (fun x => is_spotify x = false) pre ->
      Music.lyricsuser S ctx member w = (Ok tt, w))
  /\ (forall t a rest,
        m_activities member = pre ++ Spotify t a :: rest ->
        genius_search_song S t = Ok None ->
        Music.lyricsuser S ctx member w
        = (Raise (Py AttributeError),
           stepped w (players w)
             (concat (map (lyricsuser_events S) pre) ++ [GeniusSearch t; Typing]))).
Proof.
  intros Hall. split; [| split].
  - intros Hacts. unfold Music.lyricsuser. rewrite Hacts.
    now apply lyricsuser_found_run.
  - intros Hacts Hnone. unfold Music.lyricsuser. rewrite Hacts.
    rewrite lyricsuser_found_run by exact Hall.
    replace (concat (map (lyricsuser_events S) pre)) with (@nil Event).
    + now rewrite stepped_id.
    + clear Hall Hacts. induction Hnone as [| x l Hx _ IH]; [reflexivity |].
      simpl. rewrite <- IH. destruct x; [discriminate Hx | reflexivity].
  - intros t a rest Hacts Hnot. unfold Music.lyricsuser. rewrite Hacts.
    clear Hacts. revert w. induction Hall as [| x l Hx Hl IH]; intros w.
    + cbn [app for_each map concat].
      assert (Hb : Music.lyricsuser_activity S (Spotify t a) w
                   = (Raise (Py AttributeError),
                      stepped w (players w) [GeniusSearch t; Typing])).
      { unfold Music.lyricsuser_activity.
        assert (Hq : search_song S t w
                     = (Ok None, stepped w (players w) [GeniusSearch t]))
          by (rewrite search_song_run; now rewrite Hnot).
        rewrite (bind_ok _ _ _ _ _ Hq).
        rewrite (bind_ok _ _ _ _ _ (emit_run _ _)).
        now rewrite stepped_stepped. }
      now rewrite (bind_raise _ _ _ _ _ Hb).
    + cbn [app for_each map concat].
      assert (Hb : for_each [x] (Music.lyricsuser_activity S) w
                   = (Ok tt, stepped w (players w)
                               (concat (map (lyricsuser_events S) [x]))))
        by (apply lyricsuser_found_run; now constructor).
      cbn [for_each map concat] in Hb. rewrite app_nil_r in Hb.
      assert (Hx1 : Music.lyricsuser_activity S x w
                    = (Ok tt, stepped w (players w) (lyricsuser_events S x))).
      { revert Hb. unfold mbind, M_bind.
        destruct (Music.lyricsuser_activity S x w) as [[[]|e] w1]; simpl.
        - now intros H.
        - discriminate. }
      rewrite (bind_ok _ _ _ _ _ Hx1), IH, stepped_stepped.
      now rewrite <- app_assoc.
Qed.

(** X26: [skip] makes one [player.skip()] call and reacts.  While a track
    is left to play, nothing else happens.  When the call ends the queue,
    the cog's own [track_hook] runs inside it: the guild's voice client
    leaves the channel, the channel of the player is cleared and the
    client is unregistered before the reaction is added; without a voice
    client the hook fails, which the library logs, and [skip] goes on. *)
Theorem skip_runs_hook (ctx : Context) (gd : Guild) (w : World) (p : Player) :
  ctx_guild ctx = Some gd ->
  players w !! g_id gd = Some p ->
  let g := g_id gd in
  (lv_skip_ends_queue S p = false \/ voice_clients w !! g = None ->
   Music.skip S ctx w
   = (Ok tt,
      stepped w (<[g := lv_skip S p]> (players w))
        [OnPlayer g CSkip; AddReaction GSkip]))
  /\ (lv_skip_ends_queue S p = true -> is_Some (voice_clients w !! g) ->
      Music.skip S ctx w
      = (Ok tt,
         moved w (<[g := unplugged (lv_skip S p)]> (players w))
           (delete g (voice_clients w))
           [OnPlayer g CSkip; ChangeVoiceState g None false false; Cleanup g;
            AddReaction GSkip])).
Proof.
  intros Hg Hp g. subst g.
  set (w1 := stepped w (<[g_id gd := lv_skip S p]> (players w))
               [OnPlayer (g_id gd) CSkip]).
  assert (Hrun : Music.skip S ctx w
    = (Music.dispatch_event S
         (if lv_skip_ends_queue S p then Music.QueueEndEvent (g_id gd)
          else Music.OtherEvent);;
       emit (AddReaction GSkip)) w1).
  { unfold Music.skip.
    rewrite (bind_ok _ _ _ _ _ (guild_id_run _ _ _ Hg)).
    rewrite (bind_ok _ _ _ _ _ (player_manager_get_run _ _ _ Hp)).
    unfold Music.player_skip.
    assert (Hs : (ended ← attr (Some (g_id gd)) (lv_skip_ends_queue S);
                  on_player S (Some (g_id gd)) CSkip;;
                  Music.dispatch_event S
                    (if ended : bool then Music.QueueEndEvent (g_id gd)
                     else Music.OtherEvent)) w
                 = Music.dispatch_event S
                     (if lv_skip_ends_queue S p then Music.QueueEndEvent (g_id gd)
                      else Music.OtherEvent) w1).
    { rewrite (bind_ok _ _ _ _ _ (attr_run _ _ _ _ Hp)).
      now rewrite (bind_ok _ _ _ _ _ (on_player_run S _ _ _ _ Hp)). }
    unfold mbind at 1, M_bind at 1. rewrite Hs. reflexivity. }
  assert (Hp1 : players w1 !! g_id gd = Some (lv_skip S p))
    by (simpl; apply lookup_insert_eq).
  split.
  - intros Hcase. rewrite Hrun.
    assert (Hd : Music.dispatch_event S
                   (if lv_skip_ends_queue S p then Music.QueueEndEvent (g_id gd)
                    else Music.OtherEvent) w1 = (Ok tt, w1)).
    { unfold Music.dispatch_event.
      destruct (lv_skip_ends_queue S p) eqn:He.
      - destruct Hcase as [Hcase | Hv]; [discriminate Hcase |].
        assert (Hh : Music.track_hook S (Music.QueueEndEvent (g_id gd)) w1
                     = (Raise (Py AttributeError), w1)).
        { unfold Music.track_hook, voice_client_disconnect.
          change (voice_clients w1) with (voice_clients w). now rewrite Hv. }
        now rewrite (try_raise _ _ _ _ _ Hh).
      - now apply try_ok. }
    rewrite (bind_ok _ _ _ _ _ Hd), emit_run.
    unfold w1. now rewrite stepped_stepped.
  - intros He [c Hv]. rewrite Hrun, He.
    assert (Hd : Music.dispatch_event S (Music.QueueEndEvent (g_id gd)) w1
                 = (Ok tt,
                    moved w1 (<[g_id gd := unplugged (lv_skip S p)]> (players w1))
                      (delete (g_id gd) (voice_clients w1))
                      [ChangeVoiceState (g_id gd) None false false;
                       Cleanup (g_id gd)])).
    { unfold Music.dispatch_event. apply try_ok.
      unfold Music.track_hook, voice_client_disconnect.
      change (voice_clients w1 !! g_id gd) with (voice_clients w !! g_id gd).
      rewrite Hv. apply disconnect_run; [exact Hp1 | now left]. }
    rewrite (bind_ok _ _ _ _ _ Hd), emit_run.
    unfold w1, moved, stepped. simpl.
    rewrite insert_insert_eq, <- !app_assoc. reflexivity.
Qed.

End More.

(** ** The further statements at concrete inputs *)

Import FurtherExamples.

Lemma short_playlist_falls_back_witness :
  Music.play_query (with_spotify three_items) "mix" = "ytsearch:mix".
Proof.
  destruct (short_playlist_falls_back (with_spotify three_items) "mix"
              three_items eq_refl ltac:(simpl; lia)) as (_ & H).
  rewrite H; [reflexivity | left; reflexivity].
Defined.

Lemma long_playlist_keeps_last_item_witness :
  Music.play_query (with_spotify fifty_items) "mix" = "ytsearch:z Artist".
Proof.
  destruct (long_playlist_keeps_last_item (with_spotify fifty_items) "mix"
              fifty_items eq_refl eq_refl ltac:(simpl; lia)
              ltac:(apply Forall_forall; intros x Hx;
                    apply elem_of_app in Hx as [Hx | Hx];
                    [apply elem_of_replicate in Hx as [-> _]
                    | apply list_elem_of_singleton in Hx as ->];
                    eexists; reflexivity))
    as (q_last & Hl & Hq).
  rewrite Hq. vm_compute in Hl. now injection Hl as <-.
Defined.

Lemma stored_title_is_text_iff_witness :
  Py.strip "ytsearch:" "Hello World" = "Hello World"
  /\ Py.strip "ytsearch:" "stay" <> "stay".
Proof.
  split.
  - destruct (stored_title_is_text_iff "Hello World") as (_ & H).
    apply (H ltac:(discriminate)). reflexivity.
  - destruct (stored_title_is_text_iff "stay") as (_ & H).
    intros E. apply (H ltac:(discriminate)) in E. discriminate E.
Defined.


Lemma lyrics_without_fallback_witness :
  Music.lyrics S0 Reference.ctx None (in_mode None None)
  = (Raise (Py NameError), in_mode None None)
  /\ (Music.lyrics S0 Reference.ctx (Some "Unknown") (in_mode None None)).1
     = Raise (Py AttributeError).
Proof.
  destruct (lyrics_without_fallback S0 Reference.ctx Reference.guild
              (in_mode None None) (player0 [] (Some believer)) believer
              eq_refl eq_refl eq_refl) as (H1 & H2 & _).
  split; [exact (H1 eq_refl) |].
  now rewrite (H2 "Unknown" eq_refl).
Defined.

Lemma remove_at_index_witness :
  Music.remove Reference.ctx 2 (Reference.world three_queued None None)
  = (Ok tt,
     stepped (Reference.world three_queued None None)
       {[ 1 := player0 [Reference.queued "t1" 1000; Reference.queued "t3" 3000]
                 None ]}
       [Send "Removed **t2** from the queue."]).
Proof.
  destruct (remove_at_index Reference.ctx Reference.guild
              (Reference.world three_queued None None)
              (player0 three_queued None) 2 eq_refl eq_refl) as (_ & _ & H).
  destruct (H ltac:(simpl; lia)) as (removed & Hl & Hrun & _).
  injection Hl as <-. rewrite Hrun. reflexivity.
Defined.

Lemma shuffle_toggles_witness :
  p_shuffle <$> players (Music.shuffle S0 Reference.ctx
                           (Reference.world [] (Some believer) None)).2 !! 1
  = Some true
  /\ players (Music.shuffle S0 Reference.ctx
                (Music.shuffle S0 Reference.ctx
                   (Reference.world [] (Some believer) None)).2).2
     = players (Reference.world [] (Some believer) None).
Proof.
  destruct (shuffle_toggles S0 Reference.ctx Reference.guild
              (Reference.world [] (Some believer) None)
              (player0 [] (Some believer)) eq_refl eq_refl) as (_ & H2 & H3).
  split; [rewrite (H2 eq_refl); reflexivity | exact (H3 eq_refl eq_refl)].
Defined.

Lemma search_music_choice_witness :
  trace (Music.search_music S0 Reference.ctx "Song Artist"
           (Reference.world [] None None)).2
  = [NodeGetTracks "ytsearch:Song Artist";
     ChannelSendEmbed
       {| e_title := Some "Search results for Song Artist";
          e_description :=
            Music.query_result 0 (tracks (found "Song"));
          e_colour := ColourValue 3; e_fields := []; e_footer := None |};
     WaitForMessage 7;
     OnPlayer 1 (CAdd 7 (Dict (Reference.track "Song" 1000)));
     OnPlayer 1 CPlay].
Proof.
  destruct (search_music_choice S0 Reference.ctx Reference.guild
              (Reference.world [] None None) (player0 [] None) "Song Artist"
              eq_refl eq_refl) as (_ & H).
  destruct (H (found "Song") 1 eq_refl eq_refl) as (_ & _ & _ & Hrun).
  cbv zeta in Hrun. simpl Py.index in Hrun.
  rewrite Hrun. reflexivity.
Defined.

Lemma outside_voice_is_refused_witness :
  Music.invoke S0 Music.Pause (author_in None) fresh
  = (Ok tt,
     stepped fresh {[ 1 := Reference.new_player ]}
       [Send "Join a voicechannel first."]).
Proof.
  destruct (outside_voice_is_refused S0 Music.Pause (author_in None)
              Reference.guild fresh eq_refl I) as (H & _).
  rewrite H. reflexivity.
Defined.


Lemma handler_runs_in_voice_witness :
  voice_clients
    (Music.cog_before_invoke S0 (author_in (Some (Some other_channel)))
       "play" fresh).2 !! 1
  = Some 21.
Proof.
  destruct (handler_runs_in_voice S0 (author_in (Some (Some other_channel)))
              Reference.guild "play" fresh
              (Music.cog_before_invoke S0
                 (author_in (Some (Some other_channel))) "play" fresh).2
              true eq_refl eq_refl)
    as (_ & channel & Hv & [(Hc & _) | (_ & _ & _ & _ & _ & Hw & _)]).
  - discriminate Hc.
  - injection Hv as <-. exact Hw.
Defined.

Lemma current_error_is_reported_witness :
  Music.invoke S0 Music.Current Reference.ctx (Reference.world [] None None)
  = (Ok tt,
     stepped (Reference.world [] None None)
       (players (Reference.world [] None None))
       [SendException AttributeError]).
Proof.
  exact (current_error_is_reported S0 Reference.ctx Reference.guild
           Reference.channel (Reference.world [] None None) (player0 [] None)
           eq_refl eq_refl eq_refl eq_refl eq_refl eq_refl).
Defined.

Lemma voice_client_leaves_witness :
  Music.track_hook S0 (Music.QueueEndEvent 1)
    (Reference.world [] (Some believer) None)
  = (Ok tt,
     moved (Reference.world [] (Some believer) None)
       {[ 1 := unplugged (player0 [] (Some believer)) ]} ∅
       [ChangeVoiceState 1 None false false; Cleanup 1]).
Proof.
  destruct (voice_client_leaves S0 1 (Reference.world [] (Some believer) None)
              (player0 [] (Some believer)) eq_refl)
    as (_ & _ & _ & H & _).
  rewrite (H ltac:(eexists; reflexivity)). reflexivity.
Defined.

Lemma disconnect_command_witness :
  Music.disconnect S0 Reference.ctx (Reference.world [believer] (Some believer) None)
  = (Ok tt,
     moved (Reference.world [believer] (Some believer) None)
       {[ 1 := unplugged (player0 [] None) ]} ∅
       [OnPlayer 1 CStop; ChangeVoiceState 1 None false false; Cleanup 1;
        Send "*:keycap: | Disconnected."]).
Proof.
  destruct (disconnect_command S0 Reference.ctx Reference.guild
              (Reference.world [believer] (Some believer) None)
              (player0 [believer] (Some believer)) eq_refl eq_refl)
    as (_ & _ & H).
  rewrite (H Reference.channel eq_refl eq_refl eq_refl
             ltac:(eexists; reflexivity)).
  reflexivity.
Defined.

Lemma playuser_sets_lyrics_globals_witness :
  let w' := (Music.playuser S0 Reference.ctx no_result
               (Reference.world [] None (Some "believer"))).2 in
  g_spotify w' = Some true
  /\ g_spotifylyrics w' = Some "ytsearch:Unknown Nobody"
  /\ g_lyricstitle w' = Some "believer".
Proof.
  exact (playuser_sets_lyrics_globals S0 Reference.ctx Reference.guild
           (Reference.world [] None (Some "believer")) (player0 [] None)
           no_result [OtherActivity "game"] [] "Unknown" "Nobody"
           eq_refl eq_refl eq_refl ltac:(repeat constructor)
           ltac:(repeat constructor)).
Defined.

Lemma playuser_enqueues_witness :
  trace (Music.playuser S0 Reference.ctx
           (Reference.member [OtherActivity "game"; Spotify "Song" "Artist";
                              OtherActivity "stream"])
           (Reference.world [] None None)).2
  = [Send make_sure;
     NodeGetTracks "ytsearch:Song Artist";
     OnPlayer 1 (CAdd 7 (Built {| at_data := Reference.track "Song" 1000;
                                  at_requester := 7;
                                  at_recommended := true |}));
     SendEmbed (enqueue_embed Reference.ctx (found "Song"));
     OnPlayer 1 CPlay;
     Send make_sure].
Proof.
  pose proof (playuser_enqueues S0 Reference.ctx Reference.guild
                (Reference.world [] None None) (player0 [] None)
                (Reference.member [OtherActivity "game"; Spotify "Song" "Artist";
                                   OtherActivity "stream"])
                [OtherActivity "game"] [OtherActivity "stream"]
                "Song" "Artist" (found "Song")
                eq_refl eq_refl eq_refl ltac:(repeat constructor)
                ltac:(repeat constructor) eq_refl ltac:(discriminate)) as H.
  cbv zeta in H.
  destruct (Music.playuser S0 Reference.ctx
              (Reference.member [OtherActivity "game"; Spotify "Song" "Artist";
                                 OtherActivity "stream"])
              (Reference.world [] None None)) as [res w'].
  destruct H as (_ & _ & Ht). exact Ht.
Defined.

Lemma wrong_channel_is_refused_witness :
  Music.invoke S0 (Music.Play "Song Artist")
    (author_in (Some (Some no_speak))) fresh
  = (Ok tt,
     stepped fresh {[ 1 := Reference.new_player ]}
       [Send "I need the `CONNECT` and `SPEAK` permissions."])
  /\ Music.invoke S0 Music.Pause (author_in (Some (Some other_channel)))
       (Reference.world [] None None)
     = (Ok tt,
        stepped (Reference.world [] None None)
          (players (Reference.world [] None None))
          [Send "You need to be in my voicechannel."]).
Proof.
  split.
  - destruct (wrong_channel_is_refused S0 (Music.Play "Song Artist")
                (author_in (Some (Some no_speak))) Reference.guild no_speak
                fresh eq_refl eq_refl) as (H & _).
    rewrite (H eq_refl eq_refl ltac:(right; reflexivity)). reflexivity.
  - destruct (wrong_channel_is_refused S0 Music.Pause
                (author_in (Some (Some other_channel))) Reference.guild
                other_channel (Reference.world [] None None) eq_refl eq_refl)
      as (_ & H).
    rewrite (H 20 eq_refl eq_refl ltac:(simpl; lia)). reflexivity.
Defined.

Lemma outside_guild_handlers_fail_witness :
  Music.invoke S0 (Music.PlayUser one_status) direct_message fresh
  = (Ok tt,
     {| players := ∅; voice_clients := ∅; g_spotify := Some true;
        g_lyricstitle := None; g_spotifylyrics := None;
        trace := [SendException AttributeError] |}).
Proof.
  destruct (outside_guild_handlers_fail S0 (Music.PlayUser one_status)
              direct_message fresh eq_refl) as (_ & H & _).
  rewrite (H eq_refl). reflexivity.
Defined.

Lemma volume_reports_player_witness :
  trace (Music.volume S0 Reference.ctx 5000 (Reference.world [] None None)).2
  = [OnPlayer 1 (CSetVolume 5000); Send ":speaker: | Set volume to 1000%"].
Proof.
  destruct (volume_reports_player S0 Reference.ctx Reference.guild
              (Reference.world [] None None) (player0 [] None) 5000
              eq_refl eq_refl) as (Hrun & H).
  destruct (H eq_refl) as (Hhigh & _).
  rewrite Hrun. cbn [snd stepped trace app]. rewrite (Hhigh ltac:(lia)).
  reflexivity.
Defined.

Lemma loop_then_unloop_witness :
  players (Music.unloop S0 Reference.ctx
             (Music.loop S0 Reference.ctx
                (Reference.world [believer] (Some believer) None)).2).2
  = players (Reference.world [believer] (Some believer) None).
Proof.
  destruct (loop_then_unloop S0 Reference.ctx Reference.guild
              (Reference.world [believer] (Some believer) None)
              (player0 [believer] (Some believer)) eq_refl eq_refl)
    as (_ & _ & _ & H).
  exact (H ltac:(reflexivity) eq_refl).
Defined.

Lemma skip_runs_hook_witness :
  Music.skip S0 Reference.ctx two_guilds
  = (Ok tt,
     moved two_guilds
       {[ 1 := unplugged (player0 [] None); 2 := elsewhere ]} {[ 2 := 40 ]}
       [OnPlayer 1 CSkip; ChangeVoiceState 1 None false false; Cleanup 1;
        AddReaction GSkip]).
Proof.
  destruct (skip_runs_hook S0 Reference.ctx Reference.guild two_guilds
              (player0 [] (Some believer)) eq_refl eq_refl) as (_ & H).
  rewrite (H eq_refl ltac:(eexists; reflexivity)). reflexivity.
Defined.

Lemma lyricsuser_answers_each_witness :
  Music.lyricsuser S1 Reference.ctx three_statuses
    (Reference.world [] None None)
  = (Raise (Py AttributeError),
     stepped (Reference.world [] None None)
       (players (Reference.world [] None None))
       [GeniusSearch "Song"; Typing;
        SendEmbed (Music.lyrics_embed "Song" "la la");
        GeniusSearch "Unknown"; Typing]).
Proof.
  destruct (lyricsuser_answers_each S1 Reference.ctx three_statuses
              (Reference.world [] None None)
              [OtherActivity "game"; Spotify "Song" "Artist"]
              ltac:(repeat (constructor;
                              [first [exact I | eexists; reflexivity] |]);
                    constructor))
    as (_ & _ & H).
  exact (H "Unknown" "Nobody" [Spotify "Song" "Artist"] eq_refl eq_refl).
Defined.
